(** * saturday: a shallow embedding of the Go sources and the properties
      of its specification.

    The development follows the packages of the repository:
    - [hue]      (hue/hue.go): the lighting client and its retry loop;
    - [json], [utf8] : the parts of Go's [encoding/json] and [unicode/utf8]
      that [spotify.Token] goes through when it is saved, loaded or decoded
      from a provider response;
    - [spotify]  (spotify/spotify.go): the OAuth client: token persistence,
      refresh, and the callback listener of [AuthCode];
    - [orchestrator] (package main): session acquisition and the
      search-and-play stage;
    - [openai]   (package openai): the guards of [Post];
    - [saturday] (package main): [loadCfg] and [main] as a whole.

    Go strings are byte strings: they are modelled by [string], whose
    characters are the 256 byte values.  What the process does not decide
    (the bridge, the provider, the file system, [url.Parse], the scheduler)
    is a parameter: a [World] record, a file system value, or the schedule
    of a run.

    The definitions come first, then sample worlds, then the properties:
    - [json_facts]: reading a string literal or an integer that was written
      gives it back; the bound of the container loops is never reached;
    - [hue_facts]: the retry loop (C5, X1, X2);
    - [spotify_facts]: refresh (C1, X20), the callback handler (C4), the
      listener (C8, C9), the executions of [AuthCode] (X3 to X5) and the
      URLs (X13, X19);
    - [persistence_facts]: saving then loading a token (C7, X6) and the
      code exchange (X7);
    - [orchestrator_facts]: session acquisition (C2, C3, C6, X8 to X10)
      and the search-and-play stage (C10, X11, X12);
    - [saturday_facts]: [loadCfg] (X14, X15) and [main] (X16 to X18). *)

From Stdlib Require Import ZArith Ascii String List Bool Lia.
From stdpp Require Import gmap strings.

Import ListNotations.
Set Warnings "-register-all".
Local Open Scope string_scope.
Local Open Scope Z_scope.

(** ** Common vocabulary *)

(** The [error] values the program produces, by origin.  Go's [error] is an
    interface; only who produced an error, and a few payloads, matter here. *)
Inductive error : Type :=
| ErrOS (op path : string)               (* os.Open / os.Create *)
| ErrNet                                 (* http.DefaultClient.Do *)
| ErrNewRequest                          (* http.NewRequest *)
| ErrURL                                 (* url.Parse / url.JoinPath *)
| ErrEOF                                 (* io.EOF from a json.Decoder *)
| ErrUnexpectedEOF                       (* io.ErrUnexpectedEOF *)
| ErrSyntax                              (* *json.SyntaxError *)
| ErrUnmarshalType (value field : string)(* *json.UnmarshalTypeError *)
| ErrUnsupportedValue                    (* *json.UnsupportedValueError *)
| ErrWrapped (msg : string) (attempt : Z) (cause : error) (* fmt.Errorf("...: %w") *)
| ErrStatus (msg : string) (status : Z). (* fmt.Errorf("... status %d") *)

Inductive result (A : Type) : Type :=
| Ok (a : A)
| Err (e : error).
Arguments Ok {A} a.
Arguments Err {A} e.

Definition is_ok {A} (r : result A) : bool :=
  match r with Ok _ => true | Err _ => false end.

(** [time.Duration] counts nanoseconds. *)
Definition Duration := Z.
Definition Millisecond : Duration := 1000000.
Definition Second : Duration := 1000 * Millisecond.

(** ** hue/hue.go *)
Module hue.

Record Client : Type := {
  BridgeIP : string;
  Username : string;
  DefaultLight : string
}.

Definition New (bridgeIP username defaultLight : string) : Client :=
  {| BridgeIP := bridgeIP; Username := username; DefaultLight := defaultLight |}.

(** A [float64], by class: [json.Marshal] only distinguishes the finite
    values from the infinities and NaN, which it refuses. *)
Inductive float64 : Type :=
| Finite (mantissa exponent : Z)
| Inf (negative : bool)
| NaN.

Definition isFinite (f : float64) : bool :=
  match f with Finite _ _ => true | _ => false end.

(** payload := map[string]interface{}{"on": on, "bri": bri, "xy": xy} *)
Record payload : Type := { p_on : bool; p_bri : Z; p_xy : list float64 }.

(** [json.Marshal(payload)]: the only failure for this map is an
    unsupported float.  The marshalled bytes stand for themselves. *)
Definition json_Marshal (p : payload) : result payload :=
  if forallb isFinite (p_xy p) then Ok p else Err ErrUnsupportedValue.

(** What [http.DefaultClient.Do] gives back for one request. *)
Inductive response : Type :=
| DoErr
| Resp (status : Z) (body : string).

(** The world outside the process: [url.JoinPath], whether
    [http.NewRequest] accepts a method and URL, and the bridge's answer to
    the n-th attempt. *)
Record World : Type := {
  url_JoinPath : string -> list string -> result string;
  http_NewRequest : string -> string -> bool;
  http_Do : Z -> response
}.

Inductive event : Type :=
| Put (attempt : Z) (url : string) (body : payload)
| Sleep (d : Duration).

Definition StatusOK : Z := 200.
Definition maxRetries : nat := 3.

(** The body of [for attempt := 1; attempt <= maxRetries; attempt++]:
    [remaining] is [maxRetries + 1 - attempt], the iterations left. *)
Fixpoint attempts (w : World) (url : string) (jsonPayload : payload)
         (remaining : nat) (attempt : Z) (lastErr : option error)
  : list event * option error :=
  match remaining with
  | O => ([], lastErr)
  | S remaining' =>
      if negb (http_NewRequest w "PUT" url) then
        (* lastErr = ...; break *)
        ([], Some (ErrWrapped "failed to create HTTP request" attempt ErrNewRequest))
      else
        match http_Do w attempt with
        | DoErr =>
            let lastErr := Some (ErrWrapped "failed to send HTTP request" attempt ErrNet) in
            let '(tr, e) := attempts w url jsonPayload remaining' (attempt + 1) lastErr in
            (Put attempt url jsonPayload :: Sleep (attempt * 500 * Millisecond) :: tr, e)
        | Resp status body =>
            if negb (status =? StatusOK) then
              let lastErr := Some (ErrWrapped "received non-OK HTTP status" attempt
                                     (ErrStatus body status)) in
              let '(tr, e) := attempts w url jsonPayload remaining' (attempt + 1) lastErr in
              (Put attempt url jsonPayload :: Sleep (attempt * 500 * Millisecond) :: tr, e)
            else
              ([Put attempt url jsonPayload], None)
        end
  end.

(** [SetState]: the events it causes, in order, and the error it returns
    ([None] is Go's nil). *)
Definition SetState (w : World) (c : Client) (on : bool) (bri : Z) (xy : list float64)
  : list event * option error :=
  let payload := {| p_on := on; p_bri := bri; p_xy := xy |} in
  match url_JoinPath w "http://" [BridgeIP c; "api"; Username c; "groups"; DefaultLight c; "action"] with
  | Err e => ([], Some (ErrWrapped "failed to construct URL" 0 e))
  | Ok url =>
      match json_Marshal payload with
      | Err e => ([], Some (ErrWrapped "failed to marshal state to JSON" 0 e))
      | Ok jsonPayload => attempts w url jsonPayload maxRetries 1 None
      end
  end.

Definition is_put (e : event) : bool :=
  match e with Put _ _ _ => true | Sleep _ => false end.

(** The request attempts of a trace, and the waits of a trace. *)
Definition requests (tr : list event) : list event := filter is_put tr.

Fixpoint sleeps (tr : list event) : list Duration :=
  match tr with
  | [] => []
  | Sleep d :: tr' => d :: sleeps tr'
  | Put _ _ _ :: tr' => sleeps tr'
  end.

(** Is a wait the last thing that happened? *)
Definition ends_with_sleep (tr : list event) : bool :=
  match rev tr with
  | Sleep _ :: _ => true
  | _ => false
  end.

(** A world whose bridge answers every attempt with [status]. *)
Definition always (status : Z) : World :=
  {| url_JoinPath := fun base elems => Ok (base ++ String.concat "/" elems);
     http_NewRequest := fun _ _ => true;
     http_Do := fun _ => Resp status "" |}.

(** *** Vocabulary of the properties *)

(** The bridge answers attempt [a] with status 200. *)
Definition answeredOK (w : World) (a : Z) : Prop :=
  exists body, http_Do w a = Resp StatusOK body.

(** The time a trace spends waiting. *)
Definition totalSleep (tr : list event) : Duration := fold_right Z.add 0 (sleeps tr).

(** The trace the specification describes for three failed attempts: a
    wait after the first and after the second attempt only. *)
Definition waits_between_attempts_only (tr : list event) : Prop :=
  sleeps tr = [1 * 500 * Millisecond; 2 * 500 * Millisecond]
  /\ ends_with_sleep tr = false.

End hue.

(** ** unicode/utf8

    The functions of Go's [unicode/utf8] that [encoding/json] applies to
    the bytes of a string, and [ValidString].  Bytes are read as numbers
    with [byteZ]. *)
Module utf8.

Definition RuneError : Z := 0xFFFD.
Definition RuneSelf : Z := 0x80.
Definition MaxRune : Z := 0x10FFFF.
Definition surrogateMin : Z := 0xD800.
Definition surrogateMax : Z := 0xDFFF.

Definition byteZ (c : ascii) : Z := Z.of_N (N_of_ascii c).
Definition Zbyte (z : Z) : ascii := ascii_of_N (Z.to_N z).

(** The tables [first] and [acceptRanges]: for a lead byte, the length of
    its sequence and the range its second byte must lie in.  [None] is
    the table's [xx] (not a lead byte); ASCII is handled before. *)
Definition first (p0 : Z) : option (nat * Z * Z) :=
  if (0xC2 <=? p0) && (p0 <=? 0xDF) then Some (2%nat, 0x80, 0xBF)
  else if p0 =? 0xE0 then Some (3%nat, 0xA0, 0xBF)
  else if (0xE1 <=? p0) && (p0 <=? 0xEC) then Some (3%nat, 0x80, 0xBF)
  else if p0 =? 0xED then Some (3%nat, 0x80, 0x9F)
  else if (0xEE <=? p0) && (p0 <=? 0xEF) then Some (3%nat, 0x80, 0xBF)
  else if p0 =? 0xF0 then Some (4%nat, 0x90, 0xBF)
  else if (0xF1 <=? p0) && (p0 <=? 0xF3) then Some (4%nat, 0x80, 0xBF)
  else if p0 =? 0xF4 then Some (4%nat, 0x80, 0x8F)
  else None.

(** A continuation byte: [locb <= b <= hicb]. *)
Definition cont (b : Z) : bool := (0x80 <=? b) && (b <=? 0xBF).

(** [utf8.DecodeRuneInString]: the first rune of [s] and its width in
    bytes; [(RuneError, 1)] on an invalid or short sequence,
    [(RuneError, 0)] on the empty string.  The masks and shifts of the Go
    code are written as the subtractions and products they compute on
    bytes of the accepted ranges. *)
Definition DecodeRuneInString (s : string) : Z * nat :=
  match s with
  | EmptyString => (RuneError, 0%nat)
  | String c0 t0 =>
      let s0 := byteZ c0 in
      if s0 <? RuneSelf then (s0, 1%nat)
      else
        match first s0 with
        | None => (RuneError, 1%nat)
        | Some (sz, lo, hi) =>
            match t0 with
            | EmptyString => (RuneError, 1%nat)
            | String c1 t1 =>
                let s1 := byteZ c1 in
                if (s1 <? lo) || (hi <? s1) then (RuneError, 1%nat)
                else if (sz <=? 2)%nat then ((s0 - 0xC0) * 64 + (s1 - 0x80), 2%nat)
                else
                  match t1 with
                  | EmptyString => (RuneError, 1%nat)
                  | String c2 t2 =>
                      let s2 := byteZ c2 in
                      if negb (cont s2) then (RuneError, 1%nat)
                      else if (sz <=? 3)%nat then
                        ((s0 - 0xE0) * 4096 + (s1 - 0x80) * 64 + (s2 - 0x80), 3%nat)
                      else
                        match t2 with
                        | EmptyString => (RuneError, 1%nat)
                        | String c3 _ =>
                            let s3 := byteZ c3 in
                            if negb (cont s3) then (RuneError, 1%nat)
                            else ((s0 - 0xF0) * 262144 + (s1 - 0x80) * 4096
                                  + (s2 - 0x80) * 64 + (s3 - 0x80), 4%nat)
                        end
                  end
            end
        end
  end.

(** [utf8.EncodeRune] / [utf8.AppendRune]: the UTF-8 bytes of a rune;
    surrogates and values out of range are written as [RuneError]. *)
Definition encode3 (r : Z) : string :=
  String (Zbyte (0xE0 + r / 4096))
    (String (Zbyte (0x80 + (r / 64) mod 64))
       (String (Zbyte (0x80 + r mod 64)) EmptyString)).

Definition EncodeRune (r : Z) : string :=
  if (0 <=? r) && (r <=? 0x7F) then String (Zbyte r) EmptyString
  else if (0 <=? r) && (r <=? 0x7FF) then
    String (Zbyte (0xC0 + r / 64)) (String (Zbyte (0x80 + r mod 64)) EmptyString)
  else if (r <? 0) || (MaxRune <? r) || ((surrogateMin <=? r) && (r <=? surrogateMax)) then
    encode3 RuneError
  else if r <=? 0xFFFF then encode3 r
  else
    String (Zbyte (0xF0 + r / 262144))
      (String (Zbyte (0x80 + (r / 4096) mod 64))
         (String (Zbyte (0x80 + (r / 64) mod 64))
            (String (Zbyte (0x80 + r mod 64)) EmptyString))).

(** [utf8.ValidString], by the same walk as the Go loop: [skip] bytes of
    the rune in progress are still to be passed. *)
Fixpoint valid_from (skip : nat) (s : string) : bool :=
  match s with
  | EmptyString => true
  | String _ t =>
      match skip with
      | S k => valid_from k t
      | O =>
          match DecodeRuneInString s with
          | (_, O) => false
          | (r, S k) => if (r =? RuneError) && (k =? 0)%nat then false else valid_from k t
          end
      end
  end.

Definition ValidString (s : string) : bool := valid_from 0 s.

(** *** Vocabulary of the properties *)

(** The sequences [DecodeRuneInString] accepts, by length, with the rune
    they denote. *)
Inductive rune_bytes : string -> Z -> Prop :=
| rune2 (c0 c1 : ascii) :
    0xC2 <= byteZ c0 <= 0xDF -> 0x80 <= byteZ c1 <= 0xBF ->
    rune_bytes (String c0 (String c1 EmptyString))
      ((byteZ c0 - 0xC0) * 64 + (byteZ c1 - 0x80))
| rune3 (c0 c1 c2 : ascii) :
    0xE0 <= byteZ c0 <= 0xEF ->
    0x80 <= byteZ c1 <= 0xBF ->
    (byteZ c0 = 0xE0 -> 0xA0 <= byteZ c1) ->
    (byteZ c0 = 0xED -> byteZ c1 <= 0x9F) ->
    0x80 <= byteZ c2 <= 0xBF ->
    rune_bytes (String c0 (String c1 (String c2 EmptyString)))
      ((byteZ c0 - 0xE0) * 4096 + (byteZ c1 - 0x80) * 64 + (byteZ c2 - 0x80))
| rune4 (c0 c1 c2 c3 : ascii) :
    0xF0 <= byteZ c0 <= 0xF4 ->
    0x80 <= byteZ c1 <= 0xBF ->
    (byteZ c0 = 0xF0 -> 0x90 <= byteZ c1) ->
    (byteZ c0 = 0xF4 -> byteZ c1 <= 0x8F) ->
    0x80 <= byteZ c2 <= 0xBF ->
    0x80 <= byteZ c3 <= 0xBF ->
    rune_bytes (String c0 (String c1 (String c2 (String c3 EmptyString))))
      ((byteZ c0 - 0xF0) * 262144 + (byteZ c1 - 0x80) * 4096
       + (byteZ c2 - 0x80) * 64 + (byteZ c3 - 0x80)).

End utf8.

(** ** strconv and encoding/json

    The text layer of Go's [encoding/json], as far as a struct of strings
    and an int goes through it: string literals (quoting with HTML escaping,
    as [json.Encoder] does by default, and unquoting), integers, and the
    scanner's grammar for any value, since a decoder skips the values of
    keys it does not know. *)
Module json.

Import utf8.

Definition dquote : ascii := "034"%char.
Definition backslash : ascii := "092"%char.

(** JSON text written readably: every apostrophe of [s] stands for a
    double quote. *)
Fixpoint q (s : string) : string :=
  match s with
  | EmptyString => EmptyString
  | String c t => String (if Ascii.eqb c "'"%char then dquote else c) (q t)
  end.

(** *** strconv *)

Definition isDigit (c : ascii) : bool := (48 <=? byteZ c) && (byteZ c <=? 57).

Definition digit (d : Z) : ascii := Zbyte (48 + d).

(** The loop of strconv's [formatBits] in base 10; [fuel] bounds the
    number of digits (20 are enough for a [uint64]). *)
Fixpoint formatBits (fuel : nat) (u : Z) : string :=
  match fuel with
  | O => EmptyString
  | S fuel' =>
      if u <? 10 then String (digit u) EmptyString
      else formatBits fuel' (u / 10) ++ String (digit (u mod 10)) EmptyString
  end.

(** [strconv.AppendInt(dst, i, 10)] *)
Definition FormatInt (i : Z) : string :=
  if i <? 0 then String "-"%char (formatBits 20 (- i)) else formatBits 20 i.

Fixpoint digitsValue (acc : Z) (s : string) : option Z :=
  match s with
  | EmptyString => Some acc
  | String c t => if isDigit c then digitsValue (acc * 10 + (byteZ c - 48)) t else None
  end.

Definition minInt64 : Z := - 2 ^ 63.
Definition maxInt64 : Z := 2 ^ 63 - 1.

(** [strconv.ParseInt(s, 10, 64)]; [None] is a syntax or range error. *)
Definition ParseInt (s : string) : option Z :=
  match s with
  | EmptyString => None
  | String c t =>
      let '(neg, body) :=
        if Ascii.eqb c "+"%char then (false, t)
        else if Ascii.eqb c "-"%char then (true, t)
        else (false, s) in
      match body with
      | EmptyString => None
      | _ =>
          match digitsValue 0 body with
          | None => None
          | Some un =>
              let n := if neg then - un else un in
              if (minInt64 <=? n) && (n <=? maxInt64) then Some n else None
          end
      end
  end.

(** *** Writing a string literal: [appendString] with [escapeHTML] *)

Definition hex (d : Z) : ascii :=
  if d <? 10 then Zbyte (48 + d) else Zbyte (97 + (d - 10)).

(** [htmlSafeSet]: the ASCII bytes written as they are. *)
Definition htmlSafeSet (b : Z) : bool :=
  (0x20 <=? b) && (b <? 0x80)
  && negb (b =? 0x22) && negb (b =? 0x5C)
  && negb (b =? 0x3C) && negb (b =? 0x3E) && negb (b =? 0x26).

Definition esc (c : string) : string := String backslash c.

(** One turn of the loop of [appendString] at the head of [s]: the bytes
    appended, and how many bytes after the first one the turn consumes.
    The short escapes of backspace and form feed are those of Go 1.22 and
    later; before, both were written with [\u00]. *)
Definition quoteStep (s : string) : string * nat :=
  match s with
  | EmptyString => (EmptyString, 0%nat)
  | String c _ =>
      let b := byteZ c in
      if b <? RuneSelf then
        if htmlSafeSet b then (String c EmptyString, 0%nat)
        else if (b =? 0x5C) || (b =? 0x22) then (esc (String c EmptyString), 0%nat)
        else if b =? 0x08 then (esc "b", 0%nat)
        else if b =? 0x0C then (esc "f", 0%nat)
        else if b =? 0x0A then (esc "n", 0%nat)
        else if b =? 0x0D then (esc "r", 0%nat)
        else if b =? 0x09 then (esc "t", 0%nat)
        else (esc (String "u" (String "0" (String "0"
                 (String (hex (b / 16)) (String (hex (b mod 16)) EmptyString))))), 0%nat)
      else
        let '(r, size) := DecodeRuneInString s in
        if (r =? RuneError) && (size =? 1)%nat then (esc "ufffd", 0%nat)
        else if (r =? 0x2028) || (r =? 0x2029) then
          (esc (String "u" (String "2" (String "0" (String "2"
             (String (hex (r mod 16)) EmptyString))))), (size - 1)%nat)
        else (substring 0 size s, (size - 1)%nat)
  end.

Fixpoint quoteFrom (skip : nat) (s : string) : string :=
  match s with
  | EmptyString => EmptyString
  | String _ t =>
      match skip with
      | S k => quoteFrom k t
      | O => let '(out, k) := quoteStep s in out ++ quoteFrom k t
      end
  end.

Definition appendString (s : string) : string :=
  String dquote (quoteFrom 0 s ++ String dquote EmptyString).

(** *** Reading a string literal: the scanner's [stateInString] states
    and [unquote], in one pass *)

Definition hexValue (c : ascii) : option Z :=
  let b := byteZ c in
  if (48 <=? b) && (b <=? 57) then Some (b - 48)
  else if (97 <=? b) && (b <=? 102) then Some (b - 97 + 10)
  else if (65 <=? b) && (b <=? 70) then Some (b - 65 + 10)
  else None.

(** Four hexadecimal digits at the head of [s] ([getu4] after [\u]). *)
Definition hex4 (s : string) : result Z :=
  match s with
  | String h1 (String h2 (String h3 (String h4 _))) =>
      match hexValue h1, hexValue h2, hexValue h3, hexValue h4 with
      | Some a, Some b, Some c, Some d => Ok (((a * 16 + b) * 16 + c) * 16 + d)
      | _, _, _, _ => Err ErrSyntax
      end
  | String h1 (String h2 (String h3 EmptyString)) =>
      match hexValue h1, hexValue h2, hexValue h3 with
      | Some _, Some _, Some _ => Err ErrUnexpectedEOF
      | _, _, _ => Err ErrSyntax
      end
  | String h1 (String h2 EmptyString) =>
      match hexValue h1, hexValue h2 with
      | Some _, Some _ => Err ErrUnexpectedEOF
      | _, _ => Err ErrSyntax
      end
  | String h1 EmptyString =>
      match hexValue h1 with
      | Some _ => Err ErrUnexpectedEOF
      | None => Err ErrSyntax
      end
  | EmptyString => Err ErrUnexpectedEOF
  end.

Definition IsSurrogate (r : Z) : bool := (0xD800 <=? r) && (r <? 0xE000).

(** [utf16.DecodeRune] *)
Definition utf16_DecodeRune (r1 r2 : Z) : Z :=
  if (0xD800 <=? r1) && (r1 <? 0xDC00) && (0xDC00 <=? r2) && (r2 <? 0xE000)
  then (r1 - 0xD800) * 1024 + (r2 - 0xDC00) + 0x10000
  else RuneError.

Inductive litStep : Type :=
| Close
| Emit (out : string) (skip : nat)
| Bad (e : error).

(** After a backslash. *)
Definition escapeStep (t : string) : litStep :=
  match t with
  | EmptyString => Bad ErrUnexpectedEOF
  | String e t1 =>
      let b := byteZ e in
      if (b =? 0x22) || (b =? 0x5C) || (b =? 0x2F) then Emit (String e EmptyString) 1
      else if b =? 0x62 then Emit (String (Zbyte 0x08) EmptyString) 1
      else if b =? 0x66 then Emit (String (Zbyte 0x0C) EmptyString) 1
      else if b =? 0x6E then Emit (String (Zbyte 0x0A) EmptyString) 1
      else if b =? 0x72 then Emit (String (Zbyte 0x0D) EmptyString) 1
      else if b =? 0x74 then Emit (String (Zbyte 0x09) EmptyString) 1
      else if b =? 0x75 then
        match hex4 t1 with
        | Err err => Bad err
        | Ok rr =>
            if IsSurrogate rr then
              match t1 with
              | String _ (String _ (String _ (String _ (String b1 (String u1 t2))))) =>
                  match (if Ascii.eqb b1 backslash && Ascii.eqb u1 "u"%char
                         then hex4 t2 else Err ErrSyntax) with
                  | Ok rr1 =>
                      let dec := utf16_DecodeRune rr rr1 in
                      if negb (dec =? RuneError) then Emit (EncodeRune dec) 11
                      else Emit (EncodeRune RuneError) 5
                  | Err _ => Emit (EncodeRune RuneError) 5
                  end
              | _ => Emit (EncodeRune RuneError) 5
              end
            else Emit (EncodeRune rr) 5
        end
      else Bad ErrSyntax
  end.

(** One turn inside a string literal, at the head of [s]. *)
Definition unquoteStep (s : string) : litStep :=
  match s with
  | EmptyString => Bad ErrUnexpectedEOF
  | String c t =>
      let b := byteZ c in
      if b =? 0x22 then Close
      else if b =? 0x5C then escapeStep t
      else if b <? 0x20 then Bad ErrSyntax
      else if b <? RuneSelf then Emit (String c EmptyString) 0
      else let '(rr, size) := DecodeRuneInString s in Emit (EncodeRune rr) (size - 1)
  end.

(** The body of a string literal, after its opening quote: the string it
    denotes and the input after its closing quote. *)
Fixpoint inString (skip : nat) (s : string) : result (string * string) :=
  match s with
  | EmptyString => Err ErrUnexpectedEOF
  | String _ t =>
      match skip with
      | S k => inString k t
      | O =>
          match unquoteStep s with
          | Close => Ok (EmptyString, t)
          | Bad e => Err e
          | Emit out k =>
              match inString k t with
              | Ok (v, rest) => Ok (out ++ v, rest)
              | Err e => Err e
              end
          end
      end
  end.

(** *** The scanner's grammar: values *)

Inductive value : Type :=
| JNull
| JBool (b : bool)
| JNumber (literal : string)
| JString (s : string)
| JArray (elems : list value)
| JObject (members : list (string * value)).

Definition isSpace (c : ascii) : bool :=
  let b := byteZ c in (b =? 0x20) || (b =? 0x09) || (b =? 0x0D) || (b =? 0x0A).

Fixpoint skipSpace (s : string) : string :=
  match s with
  | EmptyString => EmptyString
  | String c t => if isSpace c then skipSpace t else s
  end.

(** The rest of a literal ([true], [false], [null]) after its first
    letter. *)
Fixpoint expect (lit s : string) : result string :=
  match lit with
  | EmptyString => Ok s
  | String l lit' =>
      match s with
      | EmptyString => Err ErrUnexpectedEOF
      | String c t => if Ascii.eqb c l then expect lit' t else Err ErrSyntax
      end
  end.

Fixpoint spanDigits (s : string) : string * string :=
  match s with
  | EmptyString => (EmptyString, EmptyString)
  | String c t =>
      if isDigit c then let '(ds, r) := spanDigits t in (String c ds, r)
      else (EmptyString, s)
  end.

(** One digit or more. *)
Definition digits1 (s : string) : result (string * string) :=
  match s with
  | EmptyString => Err ErrUnexpectedEOF
  | String c _ => if isDigit c then Ok (spanDigits s) else Err ErrSyntax
  end.

(** The states [stateNeg], [state0], [state1], [stateDot], [stateE] ...:
    the text of a number literal and the input after it. *)
Definition scanNumber (s : string) : result (string * string) :=
  let '(sign, s1) :=
    match s with
    | String c t => if Ascii.eqb c "-"%char then ("-", t) else (EmptyString, s)
    | EmptyString => (EmptyString, s)
    end in
  match s1 with
  | EmptyString => Err ErrUnexpectedEOF
  | String c t =>
      let intPart :=
        if Ascii.eqb c "0"%char then Ok ("0", t)
        else if isDigit c then Ok (spanDigits s1)
        else Err ErrSyntax in
      match intPart with
      | Err e => Err e
      | Ok (ip, s2) =>
          let fracPart :=
            match s2 with
            | String c2 t2 =>
                if Ascii.eqb c2 "."%char then
                  match digits1 t2 with
                  | Ok (ds, r) => Ok (String c2 ds, r)
                  | Err e => Err e
                  end
                else Ok (EmptyString, s2)
            | EmptyString => Ok (EmptyString, s2)
            end in
          match fracPart with
          | Err e => Err e
          | Ok (fp, s3) =>
              let expPart :=
                match s3 with
                | String c3 t3 =>
                    if Ascii.eqb c3 "e"%char || Ascii.eqb c3 "E"%char then
                      let '(sg, t4) :=
                        match t3 with
                        | String c4 t4 =>
                            if Ascii.eqb c4 "+"%char || Ascii.eqb c4 "-"%char
                            then (String c4 EmptyString, t4) else (EmptyString, t3)
                        | EmptyString => (EmptyString, t3)
                        end in
                      match digits1 t4 with
                      | Ok (ds, r) => Ok (String c3 (sg ++ ds), r)
                      | Err e => Err e
                      end
                    else Ok (EmptyString, s3)
                | EmptyString => Ok (EmptyString, s3)
                end in
              match expPart with
              | Err e => Err e
              | Ok (ep, s4) => Ok (sign ++ ip ++ fp ++ ep, s4)
              end
          end
      end
  end.

Section Containers.

(** The parser of the values one level down. *)
Variable parseValue : string -> result (value * string).

(** After [[] or [,]: a value, then [,] or []].  [fuel] bounds the
    number of elements; each takes at least one byte of input. *)
Fixpoint arrayLoop (fuel : nat) (s : string) : result (list value * string) :=
  match fuel with
  | O => Err ErrSyntax
  | S fuel' =>
      match parseValue s with
      | Err e => Err e
      | Ok (v, r) =>
          match skipSpace r with
          | EmptyString => Err ErrUnexpectedEOF
          | String c r' =>
              if Ascii.eqb c ","%char then
                match arrayLoop fuel' r' with
                | Ok (vs, r'') => Ok (v :: vs, r'')
                | Err e => Err e
                end
              else if Ascii.eqb c "]"%char then Ok ([v], r')
              else Err ErrSyntax
          end
      end
  end.

(** After [{] or [,]: a key, [:], a value, then [,] or [}]. *)
Fixpoint objectLoop (fuel : nat) (s : string) : result (list (string * value) * string) :=
  match fuel with
  | O => Err ErrSyntax
  | S fuel' =>
      match skipSpace s with
      | EmptyString => Err ErrUnexpectedEOF
      | String c t =>
          if negb (Ascii.eqb c dquote) then Err ErrSyntax
          else
            match inString 0 t with
            | Err e => Err e
            | Ok (key, r1) =>
                match skipSpace r1 with
                | EmptyString => Err ErrUnexpectedEOF
                | String c1 r2 =>
                    if negb (Ascii.eqb c1 ":"%char) then Err ErrSyntax
                    else
                      match parseValue r2 with
                      | Err e => Err e
                      | Ok (v, r3) =>
                          match skipSpace r3 with
                          | EmptyString => Err ErrUnexpectedEOF
                          | String c2 r4 =>
                              if Ascii.eqb c2 ","%char then
                                match objectLoop fuel' r4 with
                                | Ok (ms, r5) => Ok ((key, v) :: ms, r5)
                                | Err e => Err e
                                end
                              else if Ascii.eqb c2 "}"%char then Ok ([(key, v)], r4)
                              else Err ErrSyntax
                          end
                      end
                end
            end
      end
  end.

End Containers.

(** The scanner refuses more than [maxNestingDepth] open containers. *)
Definition maxNestingDepth : nat := Z.to_nat 10000.

(** One value at the head of [s] (after spaces) and the input after it;
    [depth] containers may still be opened. *)
Fixpoint parseValue (depth : nat) (s : string) : result (value * string) :=
  match skipSpace s with
  | EmptyString => Err ErrUnexpectedEOF
  | String c t =>
      if Ascii.eqb c "{"%char then
        match depth with
        | O => Err ErrSyntax
        | S d =>
            match skipSpace t with
            | EmptyString => Err ErrUnexpectedEOF
            | String c' t' =>
                if Ascii.eqb c' "}"%char then Ok (JObject [], t')
                else
                  match objectLoop (parseValue d) (String.length t) t with
                  | Ok (ms, r) => Ok (JObject ms, r)
                  | Err e => Err e
                  end
            end
        end
      else if Ascii.eqb c "["%char then
        match depth with
        | O => Err ErrSyntax
        | S d =>
            match skipSpace t with
            | EmptyString => Err ErrUnexpectedEOF
            | String c' t' =>
                if Ascii.eqb c' "]"%char then Ok (JArray [], t')
                else
                  match arrayLoop (parseValue d) (String.length t) t with
                  | Ok (vs, r) => Ok (JArray vs, r)
                  | Err e => Err e
                  end
            end
        end
      else if Ascii.eqb c dquote then
        match inString 0 t with
        | Ok (v, r) => Ok (JString v, r)
        | Err e => Err e
        end
      else if Ascii.eqb c "-"%char || isDigit c then
        match scanNumber (String c t) with
        | Ok (lit, r) => Ok (JNumber lit, r)
        | Err e => Err e
        end
      else if Ascii.eqb c "t"%char then
        match expect "rue" t with Ok r => Ok (JBool true, r) | Err e => Err e end
      else if Ascii.eqb c "f"%char then
        match expect "alse" t with Ok r => Ok (JBool false, r) | Err e => Err e end
      else if Ascii.eqb c "n"%char then
        match expect "ull" t with Ok r => Ok (JNull, r) | Err e => Err e end
      else Err ErrSyntax
  end.

(** What [json.NewDecoder(r).Decode] reads from a stream holding [input]:
    its first value; what follows the value is left unread. *)
Definition readValue (input : string) : result value :=
  match skipSpace input with
  | EmptyString => Err ErrEOF
  | String _ _ =>
      match parseValue maxNestingDepth input with
      | Ok (v, _) => Ok v
      | Err e => Err e
      end
  end.

(** The names [UnmarshalTypeError] gives to the kinds of JSON values. *)
Definition kindName (v : value) : string :=
  match v with
  | JNull => "null"
  | JBool _ => "bool"
  | JNumber _ => "number"
  | JString _ => "string"
  | JArray _ => "array"
  | JObject _ => "object"
  end.

(** [foldName]: the key a struct field is looked up by when no field has
    the key's exact name.  ASCII letters are folded to upper case, and so
    are the two runes outside ASCII whose case orbit meets ASCII: U+017F
    (bytes C5 BF, folds to S) and U+212A (bytes E2 84 AA, folds to K).
    Other bytes are kept: no other rune folds into ASCII, and the names
    compared with here are ASCII. *)
Fixpoint foldName (s : string) : string :=
  match s with
  | EmptyString => EmptyString
  | String c t =>
      let b := byteZ c in
      if (97 <=? b) && (b <=? 122) then String (Zbyte (b - 32)) (foldName t)
      else
        match t with
        | String c1 t1 =>
            if (b =? 0xC5) && (byteZ c1 =? 0xBF) then String "S" (foldName t1)
            else
              match t1 with
              | String c2 t2 =>
                  if (b =? 0xE2) && (byteZ c1 =? 0x84) && (byteZ c2 =? 0xAA)
                  then String "K" (foldName t2)
                  else String c (foldName t)
              | EmptyString => String c (foldName t)
              end
        | EmptyString => String c EmptyString
        end
  end.

(** *** Vocabulary of the properties *)

(** What reading does with the text written for one rune of [s]: [bs]
    are the bytes of the rune, [out] the text written for them. *)
Definition reads_back (bs out : string) : Prop :=
  forall x,
    inString 0 (out ++ x)
    = match inString 0 x with
      | Ok (v, rest) => Ok ((bs ++ v)%string, rest)
      | Err e => Err e
      end.

(** The strings among the values of the members are valid UTF-8. *)
Definition memberStringsValid (ms : list (string * value)) : Prop :=
  Forall (fun kv => forall x, snd kv = JString x -> ValidString x = true) ms.

(** A parser that consumes at least one byte when it succeeds. *)
Definition shrinks {A} (p : string -> result (A * string)) : Prop :=
  forall s v r, p s = Ok (v, r) -> (String.length r < String.length s)%nat.

Fixpoint allDigits (s : string) : bool :=
  match s with
  | EmptyString => true
  | String c t => isDigit c && allDigits t
  end.

End json.

(** ** spotify/spotify.go *)
Module spotify.

Import utf8 json.

Record Client : Type := {
  ClientID : string;
  ClientSecret : string;
  RedirectURI : string;
  Scopes : list string;
  State : string
}.

Record Token : Type := {
  AccessToken : string;   (* json:"access_token" *)
  RefreshToken : string;  (* json:"refresh_token" *)
  ExpiresIn : Z;          (* json:"expires_in" *)
  TokenType : string;     (* json:"token_type" *)
  Scope : string          (* json:"scope" *)
}.

Definition New (clientID clientSecret redirectURI : string) (scopes : list string)
           (state : string) : Client :=
  {| ClientID := clientID; ClientSecret := clientSecret; RedirectURI := redirectURI;
     Scopes := scopes; State := state |}.

(** *** [encoding/json] at type [Token] *)

(** [var token Token] *)
Definition zeroToken : Token :=
  {| AccessToken := ""; RefreshToken := ""; ExpiresIn := 0; TokenType := ""; Scope := "" |}.

Inductive field : Type := FAccessToken | FRefreshToken | FExpiresIn | FTokenType | FScope.

Definition fields : list field :=
  [FAccessToken; FRefreshToken; FExpiresIn; FTokenType; FScope].

(** The struct tags. *)
Definition fieldName (f : field) : string :=
  match f with
  | FAccessToken => "access_token"
  | FRefreshToken => "refresh_token"
  | FExpiresIn => "expires_in"
  | FTokenType => "token_type"
  | FScope => "scope"
  end.

(** [json.Marshal(token)]: the fields in declaration order. *)
Definition Marshal (t : Token) : string :=
  q "{'access_token':" ++ appendString (AccessToken t)
  ++ q ",'refresh_token':" ++ appendString (RefreshToken t)
  ++ q ",'expires_in':" ++ FormatInt (ExpiresIn t)
  ++ q ",'token_type':" ++ appendString (TokenType t)
  ++ q ",'scope':" ++ appendString (Scope t)
  ++ "}".

Definition newline : string := String "010"%char EmptyString.

(** What [json.NewEncoder(w).Encode(token)] writes. *)
Definition Encode (t : Token) : string := Marshal t ++ newline.

(** The field a key of an object is stored in: the field of that exact
    name, else the field of the same folded name. *)
Definition lookupField (key : string) : option field :=
  match find (fun f => String.eqb (fieldName f) key) fields with
  | Some f => Some f
  | None => find (fun f => String.eqb (foldName (fieldName f)) (foldName key)) fields
  end.

Definition setString (f : field) (s : string) (t : Token) : Token :=
  match f with
  | FAccessToken =>
      {| AccessToken := s; RefreshToken := RefreshToken t; ExpiresIn := ExpiresIn t;
         TokenType := TokenType t; Scope := Scope t |}
  | FRefreshToken =>
      {| AccessToken := AccessToken t; RefreshToken := s; ExpiresIn := ExpiresIn t;
         TokenType := TokenType t; Scope := Scope t |}
  | FTokenType =>
      {| AccessToken := AccessToken t; RefreshToken := RefreshToken t;
         ExpiresIn := ExpiresIn t; TokenType := s; Scope := Scope t |}
  | FScope =>
      {| AccessToken := AccessToken t; RefreshToken := RefreshToken t;
         ExpiresIn := ExpiresIn t; TokenType := TokenType t; Scope := s |}
  | FExpiresIn => t
  end.

Definition setExpiresIn (n : Z) (t : Token) : Token :=
  {| AccessToken := AccessToken t; RefreshToken := RefreshToken t; ExpiresIn := n;
     TokenType := TokenType t; Scope := Scope t |}.

(** Storing one value in one field ([literalStore], [array], [object] at
    a string or int field): [null] leaves the field as it is; a value of
    another kind than the field's is an [UnmarshalTypeError] and leaves
    the field as it is. *)
Definition store (f : field) (v : value) (t : Token) : Token * option error :=
  match v with
  | JNull => (t, None)
  | _ =>
      match f, v with
      | FExpiresIn, JNumber lit =>
          match ParseInt lit with
          | Some n => (setExpiresIn n t, None)
          | None => (t, Some (ErrUnmarshalType ("number " ++ lit) (fieldName f)))
          end
      | FExpiresIn, _ => (t, Some (ErrUnmarshalType (kindName v) (fieldName f)))
      | _, JString s => (setString f s t, None)
      | _, _ => (t, Some (ErrUnmarshalType (kindName v) (fieldName f)))
      end
  end.

(** [d.savedError]: the first error is kept. *)
Definition saveError (saved new : option error) : option error :=
  match saved with Some e => Some e | None => new end.

(** The members of an object, in order; keys that name no field are
    skipped. *)
Fixpoint storeMembers (ms : list (string * value)) (t : Token) (saved : option error)
  : Token * option error :=
  match ms with
  | [] => (t, saved)
  | (key, v) :: ms' =>
      match lookupField key with
      | None => storeMembers ms' t saved
      | Some f =>
          let '(t', e) := store f v t in
          storeMembers ms' t' (saveError saved e)
      end
  end.

(** [d.unmarshal(&token)] on a scanned value. *)
Definition unmarshal (v : value) (t : Token) : Token * option error :=
  match v with
  | JObject ms => storeMembers ms t None
  | JNull => (t, None)
  | _ => (t, Some (ErrUnmarshalType (kindName v) "Token"))
  end.

(** [var token Token; err := json.NewDecoder(r).Decode(&token)] on a
    stream holding [input]: the token as the call leaves it, and [err]. *)
Definition Decode (input : string) : Token * option error :=
  match readValue input with
  | Err e => (zeroToken, Some e)
  | Ok v => unmarshal v zeroToken
  end.

(** *** The file system *)

(** The files that can be opened, with their content, and the paths
    [os.Create] is refused on. *)
Record FS : Type := {
  files : gmap string string;
  createDenied : string -> bool
}.

(** [os.Open] *)
Definition os_Open (fs : FS) (name : string) : result string :=
  match files fs !! name with
  | Some content => Ok content
  | None => Err (ErrOS "open" name)
  end.

(** [os.Create]: the file exists and is empty afterwards. *)
Definition os_Create (fs : FS) (name : string) : result FS :=
  if createDenied fs name then Err (ErrOS "open" name)
  else Ok {| files := <[name := EmptyString]> (files fs); createDenied := createDenied fs |}.

(** [f.Write] on a file opened by [os.Create]. *)
Definition write (fs : FS) (name data : string) : FS :=
  {| files := <[name := default EmptyString (files fs !! name) ++ data]> (files fs);
     createDenied := createDenied fs |}.

Definition SaveToken (fs : FS) (filename : string) (token : Token) : FS * option error :=
  match os_Create fs filename with
  | Err err => (fs, Some err)
  | Ok fs' => (write fs' filename (Encode token), None)
  end.

Definition LoadToken (fs : FS) (filename : string) : result Token :=
  match os_Open fs filename with
  | Err err => Err err
  | Ok f =>
      match Decode f with
      | (_, Some err) => Err err
      | (token, None) => Ok token
      end
  end.

(** *** The token endpoint *)

Record Request : Type := {
  method : string;
  url : string;
  basicAuth : string * string;
  contentType : string;
  form : list (string * string)   (* url.Values, before data.Encode() *)
}.

(** What [http.DefaultClient.Do] gives back. *)
Inductive response : Type :=
| DoErr
| Resp (status : Z) (body : string).

(** [*url.URL], the two fields read here. *)
Record URL : Type := { Host : string; Path : string }.

(** The world outside the process. *)
Record World : Type := {
  http_NewRequest : string -> string -> bool;  (* does NewRequest accept method, URL *)
  http_Do : Request -> response;               (* the provider *)
  url_Parse : string -> result URL;
  net_Listen : string -> bool;                 (* can the address be bound *)
  mux_accepts : string -> bool                 (* http.HandleFunc panics otherwise *)
}.

Definition tokenURL : string := "https://accounts.spotify.com/api/token".

Definition withRefreshToken (refreshToken : string) (t : Token) : Token :=
  setString FRefreshToken refreshToken t.

Definition refreshRequest (c : Client) (refreshToken : string) : Request :=
  {| method := "POST"; url := tokenURL;
     basicAuth := (ClientID c, ClientSecret c);
     contentType := "application/x-www-form-urlencoded";
     form := [("grant_type", "refresh_token"); ("refresh_token", refreshToken)] |}.

Definition RefreshAccessToken (w : World) (c : Client) (refreshToken : string)
  : result Token :=
  if negb (http_NewRequest w "POST" tokenURL) then Err ErrNewRequest
  else
    match http_Do w (refreshRequest c refreshToken) with
    | DoErr => Err ErrNet
    | Resp _ body =>
        match Decode body with
        | (_, Some err) => Err err
        | (token, None) =>
            if String.eqb (RefreshToken token) EmptyString
            then Ok (withRefreshToken refreshToken token)
            else Ok token
        end
    end.

Definition exchangeRequest (clientID clientSecret redirectURI code : string) : Request :=
  {| method := "POST"; url := tokenURL;
     basicAuth := (clientID, clientSecret);
     contentType := "application/x-www-form-urlencoded";
     form := [("grant_type", "authorization_code"); ("code", code);
              ("redirect_uri", redirectURI)] |}.

(** Returns [(&token, err)]: the token comes back with the decoder's
    error; [None] is the nil pointer. *)
Definition exchangeCodeForToken (w : World) (clientID clientSecret redirectURI code : string)
  : option Token * option error :=
  if negb (http_NewRequest w "POST" tokenURL) then (None, Some ErrNewRequest)
  else
    match http_Do w (exchangeRequest clientID clientSecret redirectURI code) with
    | DoErr => (None, Some ErrNet)
    | Resp _ body => let '(token, err) := Decode body in (Some token, err)
    end.

(** *** The redirect listener *)

Definition getHostPort (w : World) (redirectURI : string) : string :=
  match url_Parse w redirectURI with
  | Err _ => "127.0.0.1:8888"
  | Ok u => Host u
  end.

Definition getPath (w : World) (redirectURI : string) : string :=
  match url_Parse w redirectURI with
  | Err _ => "/callback"
  | Ok u => Path u
  end.

(** [url.QueryEscape] *)
Definition shouldEscape (c : ascii) : bool :=
  let b := byteZ c in
  negb (((97 <=? b) && (b <=? 122)) || ((65 <=? b) && (b <=? 90))
        || ((48 <=? b) && (b <=? 57))
        || (b =? 0x2D) || (b =? 0x5F) || (b =? 0x2E) || (b =? 0x7E)).

Definition upperhex (d : Z) : ascii :=
  if d <? 10 then Zbyte (48 + d) else Zbyte (65 + (d - 10)).

Fixpoint QueryEscape (s : string) : string :=
  match s with
  | EmptyString => EmptyString
  | String c t =>
      if Ascii.eqb c " "%char then String "+" (QueryEscape t)
      else if shouldEscape c then
        String "%" (String (upperhex (byteZ c / 16))
                      (String (upperhex (byteZ c mod 16)) (QueryEscape t)))
      else String c (QueryEscape t)
  end.

Definition buildAuthURL (clientID redirectURI : string) (scopes : list string)
           (state : string) : string :=
  let scope := String.concat " " scopes in
  "https://accounts.spotify.com/authorize?client_id=" ++ QueryEscape clientID
  ++ "&response_type=code&redirect_uri=" ++ QueryEscape redirectURI
  ++ "&state=" ++ state
  ++ "&scope=" ++ QueryEscape scope.

(** The URL [SearchTrack] sends its request to (its first two lines). *)
Definition searchURL (query : string) : string :=
  "https://api.spotify.com/v1/search?type=track&limit=1&q=" ++ QueryEscape query.

(** [r.URL.Query()]: the pairs of the query, in order. *)
Definition Values : Type := list (string * string).

(** [Values.Get]: the first value of the key, else the empty string. *)
Fixpoint Get (v : Values) (key : string) : string :=
  match v with
  | [] => EmptyString
  | (k, x) :: v' => if String.eqb k key then x else Get v' key
  end.

Definition StatusOK : Z := 200.
Definition StatusBadRequest : Z := 400.

(** What a goroutine serving one request does, step by step.  [Send]
    blocks until [AuthCode] receives. *)
Inductive action : Type :=
| WriteHeader (status : Z)
| Write (body : string)
| Send (code : string)           (* codeCh <- code *)
| GoShutdown (delay : Duration). (* go func() { time.Sleep(delay); server.Shutdown(...) }() *)

(** The function registered with [http.HandleFunc]. *)
Definition callbackHandler (c : Client) (query : Values) : list action :=
  if negb (String.eqb (Get query "state") (State c)) then
    (* http.Error(w, "state mismatch", http.StatusBadRequest); return *)
    [WriteHeader StatusBadRequest; Write ("state mismatch" ++ newline)]
  else
    let code := Get query "code" in
    [Write "Authorization successful! You can close this tab.";
     Send code;
     GoShutdown (1 * Second)].

(** The status of the response a handler wrote: the first [WriteHeader],
    or 200 when the body is written first. *)
Fixpoint responseStatus (acts : list action) : option Z :=
  match acts with
  | [] => None
  | WriteHeader st :: _ => Some st
  | Write _ :: _ => Some StatusOK
  | _ :: acts' => responseStatus acts'
  end.

Definition isSend (a : action) : bool :=
  match a with Send _ => true | _ => false end.

Definition isShutdown (a : action) : bool :=
  match a with GoShutdown _ => true | _ => false end.

(** *** [AuthCode]: the main flow, the listener goroutine and the
    goroutines serving requests, as a transition system *)

Inductive mainState : Type :=
| MInit                      (* before http.HandleFunc *)
| MRegistered                (* handler registered, listener goroutine started *)
| MAwaitingCode              (* browser opened; blocked in code := <-codeCh *)
| MExchanging (code : string)
| MReturned (token : option Token) (err : option error)
| MPanicked.

Inductive listenerState : Type :=
| LNone
| LSpawned                   (* go func() { ... } started *)
| LServing                   (* net.Listen succeeded; server.Serve(ln) *)
| LBindFailed                (* net.Listen failed; the goroutine returned *)
| LShutdown.                 (* server.Shutdown was called *)

Inductive event : Type :=
| EvHandleFunc (pattern : string)
| EvListen (addr : string) (ok : bool)
| EvOpenBrowser (authURL : string)
| EvWriteHeader (status : Z)
| EvWrite (body : string)
| EvReceive (code : string)
| EvServerShutdown
| EvExchange (code : string).

Record state : Type := {
  main : mainState;
  listener : listenerState;
  handlers : list (list action);   (* per request being served: what is left to do *)
  timers : nat;                    (* shutdown goroutines sleeping *)
  events : list event              (* what happened, latest first *)
}.

Definition init : state :=
  {| main := MInit; listener := LNone; handlers := []; timers := 0; events := [] |}.

(** The moves of the scheduler and of the outside world. *)
Inductive label : Type :=
| DoRegister               (* main: http.HandleFunc and go listener *)
| DoListen                 (* listener: net.Listen *)
| DoOpenBrowser            (* main: buildAuthURL, openBrowser, slog.Info *)
| DoRequest (query : Values)  (* a request for the registered path arrives *)
| DoHandler (i : nat)      (* handler i: its next action, when it is not a send *)
| DoReceive (i : nat)      (* main receives what handler i sends *)
| DoTimer                  (* a shutdown goroutine wakes up *)
| DoExchange.              (* main: exchangeCodeForToken and return *)

Definition step (w : World) (c : Client) (s : state) (l : label) : option state :=
  match l with
  | DoRegister =>
      match main s with
      | MInit =>
          let pattern := getPath w (RedirectURI c) in
          if mux_accepts w pattern then
            Some {| main := MRegistered; listener := LSpawned; handlers := handlers s;
                    timers := timers s; events := EvHandleFunc pattern :: events s |}
          else
            Some {| main := MPanicked; listener := listener s; handlers := handlers s;
                    timers := timers s; events := events s |}
      | _ => None
      end
  | DoListen =>
      match listener s with
      | LSpawned =>
          let addr := getHostPort w (RedirectURI c) in
          let ok := net_Listen w addr in
          Some {| main := main s; listener := if ok then LServing else LBindFailed;
                  handlers := handlers s; timers := timers s;
                  events := EvListen addr ok :: events s |}
      | _ => None
      end
  | DoOpenBrowser =>
      match main s with
      | MRegistered =>
          let authURL := buildAuthURL (ClientID c) (RedirectURI c) (Scopes c) (State c) in
          Some {| main := MAwaitingCode; listener := listener s; handlers := handlers s;
                  timers := timers s; events := EvOpenBrowser authURL :: events s |}
      | _ => None
      end
  | DoRequest query =>
      match listener s with
      | LServing =>
          Some {| main := main s; listener := listener s;
                  handlers := handlers s ++ [callbackHandler c query];
                  timers := timers s; events := events s |}
      | _ => None
      end
  | DoHandler i =>
      match handlers s !! i with
      | Some (WriteHeader st :: rest) =>
          Some {| main := main s; listener := listener s;
                  handlers := <[i := rest]> (handlers s);
                  timers := timers s; events := EvWriteHeader st :: events s |}
      | Some (Write b :: rest) =>
          Some {| main := main s; listener := listener s;
                  handlers := <[i := rest]> (handlers s);
                  timers := timers s; events := EvWrite b :: events s |}
      | Some (GoShutdown _ :: rest) =>
          Some {| main := main s; listener := listener s;
                  handlers := <[i := rest]> (handlers s);
                  timers := S (timers s); events := events s |}
      | _ => None
      end
  | DoReceive i =>
      match main s, handlers s !! i with
      | MAwaitingCode, Some (Send code :: rest) =>
          Some {| main := MExchanging code; listener := listener s;
                  handlers := <[i := rest]> (handlers s);
                  timers := timers s; events := EvReceive code :: events s |}
      | _, _ => None
      end
  | DoTimer =>
      match timers s with
      | S n =>
          Some {| main := main s; listener := LShutdown; handlers := handlers s;
                  timers := n; events := EvServerShutdown :: events s |}
      | O => None
      end
  | DoExchange =>
      match main s with
      | MExchanging code =>
          let '(token, err) :=
            exchangeCodeForToken w (ClientID c) (ClientSecret c) (RedirectURI c) code in
          Some {| main := MReturned token err; listener := listener s;
                  handlers := handlers s; timers := timers s;
                  events := EvExchange code :: events s |}
      | _ => None
      end
  end.

(** A schedule, run from a state; [None] when a move is not enabled. *)
Fixpoint run (w : World) (c : Client) (s : state) (ls : list label) : option state :=
  match ls with
  | [] => Some s
  | l :: ls' =>
      match step w c s l with
      | Some s' => run w c s' ls'
      | None => None
      end
  end.

Definition reachable (w : World) (c : Client) (s : state) : Prop :=
  exists ls, run w c init ls = Some s.

(** [AuthCode] returns [(token, err)] in some execution. *)
Definition AuthCode_returns (w : World) (c : Client)
           (token : option Token) (err : option error) : Prop :=
  exists s, reachable w c s /\ main s = MReturned token err.

(** The queries of the requests a schedule delivers. *)
Fixpoint requestsOf (ls : list label) : list Values :=
  match ls with
  | [] => []
  | DoRequest query :: ls' => query :: requestsOf ls'
  | _ :: ls' => requestsOf ls'
  end.

(** *** Vocabulary of the properties *)

(** A token as Go can hold it and JSON can carry it: strings of valid
    UTF-8 and an [int] of 64 bits. *)
Definition wellFormed (t : Token) : Prop :=
  ValidString (AccessToken t) = true
  /\ ValidString (RefreshToken t) = true
  /\ minInt64 <= ExpiresIn t <= maxInt64
  /\ ValidString (TokenType t) = true
  /\ ValidString (Scope t) = true.

(** The body [http.Error] writes for the message "state mismatch". *)
Definition mismatchBody : string := ("state mismatch" ++ newline)%string.

(** What is left to do for a goroutine that serves a request with a
    wrong state. *)
Definition rejecting (acts : list action) : Prop :=
  acts = [WriteHeader StatusBadRequest; Write mismatchBody]
  \/ acts = [Write mismatchBody]
  \/ acts = [].

(** [AuthCode] is not past its receive. *)
Definition waiting (m : mainState) : Prop :=
  match m with
  | MExchanging _ | MReturned _ _ => False
  | _ => True
  end.

(** The events possible while no request with the right state came. *)
Definition quiet (e : event) : Prop :=
  match e with
  | EvReceive _ | EvServerShutdown | EvExchange _ => False
  | EvWriteHeader st => st = StatusBadRequest
  | EvWrite b => b = mismatchBody
  | _ => True
  end.

(** Nothing was sent to [AuthCode] yet and nothing can be: the main flow
    is not past its receive, the server is not shut down, and every
    request being served is one that is rejected. *)
Definition unresolved (s : state) : Prop :=
  waiting (main s) /\ listener s <> LShutdown /\ timers s = 0%nat
  /\ Forall rejecting (handlers s) /\ Forall quiet (events s).

(** No request is being served and none can come. *)
Definition parked (s : state) : Prop :=
  waiting (main s) /\ handlers s = [] /\ timers s = 0%nat
  /\ listener s <> LServing /\ listener s <> LShutdown.



(** A delivered request that passes the state check and carries [code]
    (the empty string when it has no code parameter). *)
Definition delivers (c : Client) (delivered : list Values) (code : string) : Prop :=
  exists query,
    In query delivered /\ Get query "state" = State c /\ Get query "code" = code.

(** Every code a handler may still send came with such a request. *)
Definition sendsDelivered (c : Client) (delivered : list Values) (acts : list action) : Prop :=
  forall code, In (Send code) acts -> delivers c delivered code.

(** What [AuthCode] exchanges and returns came with such a request. *)
Definition justified (w : World) (c : Client) (delivered : list Values) (s : state) : Prop :=
  Forall (sendsDelivered c delivered) (handlers s)
  /\ match main s with
     | MExchanging code => delivers c delivered code
     | MReturned token err =>
         exists code,
           delivers c delivered code
           /\ exchangeCodeForToken w (ClientID c) (ClientSecret c) (RedirectURI c) code
              = (token, err)
     | _ => True
     end.

(** The codes [AuthCode] received, latest first. *)
Fixpoint receives (evs : list event) : list string :=
  match evs with
  | [] => []
  | EvReceive code :: evs' => code :: receives evs'
  | _ :: evs' => receives evs'
  end.

Definition isServerShutdown (e : event) : bool :=
  match e with EvServerShutdown => true | _ => false end.

(** A handler that does not schedule the shutdown before it has sent. *)
Fixpoint guarded (acts : list action) : bool :=
  match acts with
  | [] => true
  | Send _ :: _ => true
  | GoShutdown _ :: _ => false
  | _ :: acts' => guarded acts'
  end.

(** Before the receive nothing of the shutdown has begun; after it,
    exactly one code was received. *)
Definition ordered (s : state) : Prop :=
  match main s with
  | MExchanging _ | MReturned _ _ => List.length (receives (events s)) = 1%nat
  | _ =>
      timers s = 0%nat /\ listener s <> LShutdown
      /\ Forall (fun acts => guarded acts = true) (handlers s)
      /\ receives (events s) = []
      /\ existsb isServerShutdown (events s) = false
  end.


(** How often the byte [c] occurs in [s]. *)
Fixpoint occurrences (c : ascii) (s : string) : nat :=
  match s with
  | EmptyString => O
  | String a t => if Ascii.eqb c a then S (occurrences c t) else occurrences c t
  end.

End spotify.

(** ** package main: the orchestrator, from [spotify.New] on

    What comes before in [main] (the configuration, the extraction and the
    lighting call) hands over a [Config] and a [Result]. *)
Module orchestrator.

Import spotify.
Local Open Scope list_scope.

Definition tokenFile : string := "token.json".

Record Config : Type := {
  BridgeIP : string;
  Username : string;
  DefaultLight : string;
  OpenAIKey : string;
  SpotifyClientID : string;
  SpotifyClientSecret : string
}.

(** [openai.Result] *)
Record Result : Type := {
  On : bool;
  Bri : Z;
  XY : list hue.float64;
  SongTitle : string;
  Artist : string
}.

(** What the call [spoc.AuthCode()] does in a run: it returns a token
    and a nil error, returns an error, never returns, or panics. *)
Inductive AuthOutcome : Type :=
| AuthOk (token : Token)
| AuthErr (err : error)
| AuthBlocks
| AuthPanics.

Record World : Type := {
  spotifyWorld : spotify.World;
  authCode : AuthOutcome;
  SearchTrack : string -> string -> result string;   (* accessToken, query *)
  PlayTrack : string -> string -> option error       (* accessToken, trackURI *)
}.

Inductive event : Type :=
| CallLoadToken (filename : string)
| CallRefreshAccessToken (refreshToken : string)
| CallAuthCode
| CallSaveToken (filename : string) (token : Token)
| CallSearchTrack (accessToken query : string)
| CallPlayTrack (accessToken uri : string)
| Log (level msg : string).

Inductive termination : Type :=
| Exit (code : Z)
| Blocked
| Panicked.

(** How session acquisition ends: with the token to use, or with the end
    of the process. *)
Inductive session : Type :=
| Session (token : Token)
| Stop (t : termination).

Definition spoc (cfg : Config) : Client :=
  spotify.New (SpotifyClientID cfg) (SpotifyClientSecret cfg)
    "http://127.0.0.1:8888/callback"
    ["user-read-private"; "user-read-email"; "user-modify-playback-state";
     "user-read-playback-state"]
    "some-random-state".

(** [err = spotify.SaveToken(tokenFile, token)] and the warning. *)
Definition saveAndWarn (fs : FS) (token : Token) : list event * FS :=
  let '(fs', err) := SaveToken fs tokenFile token in
  (CallSaveToken tokenFile token
     :: match err with
        | Some _ => [Log "WARN" "Warning: failed to save token"]
        | None => []
        end,
   fs').

(** [token, err = spoc.AuthCode()], the fatal error check, and what the
    caller does with the token on success. *)
Definition authorize (w : World) (fs : FS) (before : list event)
  : list event * FS * session :=
  match authCode w with
  | AuthErr _ => (before ++ [CallAuthCode; Log "ERROR" "Auth failed"], fs, Stop (Exit 1))
  | AuthBlocks => (before ++ [CallAuthCode], fs, Stop Blocked)
  | AuthPanics => (before ++ [CallAuthCode], fs, Stop Panicked)
  | AuthOk token =>
      let '(tr, fs') := saveAndWarn fs token in
      (before ++ [CallAuthCode] ++ tr, fs', Session token)
  end.

(** Lines 72 to 99 of [main]. *)
Definition acquireSession (w : World) (cfg : Config) (fs : FS)
  : list event * FS * session :=
  match LoadToken fs tokenFile with
  | Err _ =>
      authorize w fs
        [CallLoadToken tokenFile;
         Log "WARN" "Warning: failed to load token, will need to re-authenticate"]
  | Ok token =>
      match RefreshAccessToken (spotifyWorld w) (spoc cfg) (RefreshToken token) with
      | Err _ =>
          authorize w fs
            [CallLoadToken tokenFile;
             CallRefreshAccessToken (RefreshToken token);
             Log "PRINT" "Token refresh failed, need to re-authenticate:"]
      | Ok token' =>
          let '(tr, fs') := saveAndWarn fs token' in
          ([CallLoadToken tokenFile; CallRefreshAccessToken (RefreshToken token)] ++ tr,
           fs', Session token')
      end
  end.

Definition nonEmpty (s : string) : bool := negb (String.eqb s EmptyString).

(** The query of lines 101 to 108. *)
Definition searchQuery (result : Result) : string :=
  if nonEmpty (SongTitle result) && nonEmpty (Artist result)
  then (SongTitle result ++ " " ++ Artist result)%string
  else if nonEmpty (SongTitle result) then SongTitle result
  else Artist result.

(** Lines 100 to 123 of [main]. *)
Definition playStage (w : World) (token : Token) (result : Result)
  : list event * termination :=
  if nonEmpty (SongTitle result) || nonEmpty (Artist result) then
    let query := searchQuery result in
    match SearchTrack w (AccessToken token) query with
    | Err _ =>
        ([CallSearchTrack (AccessToken token) query;
          Log "ERROR" "Failed to search for track"], Exit 1)
    | Ok uri =>
        match PlayTrack w (AccessToken token) uri with
        | Some _ =>
            ([CallSearchTrack (AccessToken token) query;
              CallPlayTrack (AccessToken token) uri;
              Log "ERROR" "Failed to play track on Spotify"], Exit 1)
        | None =>
            ([CallSearchTrack (AccessToken token) query;
              CallPlayTrack (AccessToken token) uri;
              Log "INFO" "Playing track on Spotify"], Exit 0)
        end
    end
  else ([], Exit 0).

(** [main] from line 72 to its end: the calls and log lines in order,
    the file system it leaves, and how the process ends. *)
Definition mainFromSpotify (w : World) (cfg : Config) (fs : FS) (result : Result)
  : list event * FS * termination :=
  match acquireSession w cfg fs with
  | (tr, fs', Stop t) => (tr, fs', t)
  | (tr, fs', Session token) =>
      let '(tr', t) := playStage w token result in
      (tr ++ tr', fs', t)
  end.

Definition isSearch (e : event) : bool :=
  match e with CallSearchTrack _ _ => true | _ => false end.

Definition isPlay (e : event) : bool :=
  match e with CallPlayTrack _ _ => true | _ => false end.

Definition isRefresh (e : event) : bool :=
  match e with CallRefreshAccessToken _ => true | _ => false end.

Definition isAuthCode (e : event) : bool :=
  match e with CallAuthCode => true | _ => false end.

Definition isSave (e : event) : bool :=
  match e with CallSaveToken _ _ => true | _ => false end.

(** The calls of a trace, without its log lines. *)
Definition isCall (e : event) : bool :=
  match e with Log _ _ => false | _ => true end.

Definition calls (tr : list event) : list event := filter isCall tr.

(** *** Vocabulary of the properties *)

(** The parts of a run. *)
Definition trace {A B} (r : list event * A * B) : list event := fst (fst r).
Definition disk {A B} (r : list event * A * B) : A := snd (fst r).
Definition outcome {A B} (r : list event * A * B) : B := snd r.

(** The outcome a world gives to [spoc.AuthCode()] is one the transition
    system of [AuthCode] has: a returned token or error is returned in
    some execution. *)
Definition authCodeSound (w : World) (cfg : Config) : Prop :=
  match authCode w with
  | AuthOk token => AuthCode_returns (spotifyWorld w) (spoc cfg) (Some token) None
  | AuthErr err => exists token, AuthCode_returns (spotifyWorld w) (spoc cfg) token (Some err)
  | AuthBlocks | AuthPanics => True
  end.

End orchestrator.

(** ** package openai (unnamed/part_001)

    [Post] up to the point where it sends its request: the two guards are
    modelled as written; the request, the status check and the two
    decodings that follow are one oracle of the world, asked with the key
    and the prompt the request carries.  The request body marshals
    strings only and the method and URL are constants, so after the
    guards the request is always sent. *)
Module openai.

Import orchestrator.

Record Client : Type := { APIKey : string }.

Definition New (apiKey : string) : Client := {| APIKey := apiKey |}.

(** The errors of [Post]: its own two, and those wrapping a failure of
    the request or of a decoding. *)
Inductive postError : Type :=
| ErrKeyRequired                (* errors.New("OpenAI API key is required") *)
| ErrPromptEmpty                (* errors.New("prompt cannot be empty") *)
| ErrRemote (cause : error).

Record World : Type := {
  (* bearer key, user prompt: the decoded content of the first choice *)
  completion : string -> string -> result Result
}.

Inductive event : Type :=
| Request (apiKey prompt : string).

Definition Post (w : World) (c : Client) (prompt : string)
  : list event * (Result + postError) :=
  if String.eqb (APIKey c) EmptyString then ([], inr ErrKeyRequired)
  else if String.eqb prompt EmptyString then ([], inr ErrPromptEmpty)
  else
    match completion w (APIKey c) prompt with
    | Ok params => ([Request (APIKey c) prompt], inl params)
    | Err e => ([Request (APIKey c) prompt], inr (ErrRemote e))
    end.

End openai.

(** ** package main (unnamed/part_000): [loadCfg] and [main] as a whole *)
Module saturday.

Import utf8 json spotify orchestrator.

(** *** [json.Unmarshal(data, &cfg)] *)

Inductive cfgField : Type :=
| FBridgeIP | FUsername | FDefaultLight | FOpenAIKey
| FSpotifyClientID | FSpotifyClientSecret.

Definition cfgFields : list cfgField :=
  [FBridgeIP; FUsername; FDefaultLight; FOpenAIKey; FSpotifyClientID;
   FSpotifyClientSecret].

(** The struct tags. *)
Definition cfgFieldName (f : cfgField) : string :=
  match f with
  | FBridgeIP => "bridge_ip"
  | FUsername => "username"
  | FDefaultLight => "default_light"
  | FOpenAIKey => "openai_api_key"
  | FSpotifyClientID => "spotify_client_id"
  | FSpotifyClientSecret => "spotify_client_secret"
  end.

(** The field a key is stored in: the field of that exact name, else the
    field of the same folded name. *)
Definition lookupCfgField (key : string) : option cfgField :=
  match find (fun f => String.eqb (cfgFieldName f) key) cfgFields with
  | Some f => Some f
  | None => find (fun f => String.eqb (foldName (cfgFieldName f)) (foldName key)) cfgFields
  end.

Definition setCfgString (f : cfgField) (s : string) (c : Config) : Config :=
  match f with
  | FBridgeIP =>
      {| BridgeIP := s; Username := Username c; DefaultLight := DefaultLight c;
         OpenAIKey := OpenAIKey c; SpotifyClientID := SpotifyClientID c;
         SpotifyClientSecret := SpotifyClientSecret c |}
  | FUsername =>
      {| BridgeIP := BridgeIP c; Username := s; DefaultLight := DefaultLight c;
         OpenAIKey := OpenAIKey c; SpotifyClientID := SpotifyClientID c;
         SpotifyClientSecret := SpotifyClientSecret c |}
  | FDefaultLight =>
      {| BridgeIP := BridgeIP c; Username := Username c; DefaultLight := s;
         OpenAIKey := OpenAIKey c; SpotifyClientID := SpotifyClientID c;
         SpotifyClientSecret := SpotifyClientSecret c |}
  | FOpenAIKey =>
      {| BridgeIP := BridgeIP c; Username := Username c; DefaultLight := DefaultLight c;
         OpenAIKey := s; SpotifyClientID := SpotifyClientID c;
         SpotifyClientSecret := SpotifyClientSecret c |}
  | FSpotifyClientID =>
      {| BridgeIP := BridgeIP c; Username := Username c; DefaultLight := DefaultLight c;
         OpenAIKey := OpenAIKey c; SpotifyClientID := s;
         SpotifyClientSecret := SpotifyClientSecret c |}
  | FSpotifyClientSecret =>
      {| BridgeIP := BridgeIP c; Username := Username c; DefaultLight := DefaultLight c;
         OpenAIKey := OpenAIKey c; SpotifyClientID := SpotifyClientID c;
         SpotifyClientSecret := s |}
  end.

(** Storing one value in one string field: [null] leaves the field as it
    is; a value that is no string is an [UnmarshalTypeError] and leaves
    the field as it is. *)
Definition storeCfg (f : cfgField) (v : value) (c : Config) : Config * option error :=
  match v with
  | JNull => (c, None)
  | JString s => (setCfgString f s c, None)
  | _ => (c, Some (ErrUnmarshalType (kindName v) (cfgFieldName f)))
  end.

(** The members of an object, in order; keys that name no field are
    skipped, the first error is kept. *)
Fixpoint storeCfgMembers (ms : list (string * value)) (c : Config) (saved : option error)
  : Config * option error :=
  match ms with
  | [] => (c, saved)
  | (key, v) :: ms' =>
      match lookupCfgField key with
      | None => storeCfgMembers ms' c saved
      | Some f =>
          let '(c', e) := storeCfg f v c in
          storeCfgMembers ms' c' (saveError saved e)
      end
  end.

Definition zeroConfig : Config :=
  {| BridgeIP := EmptyString; Username := EmptyString; DefaultLight := EmptyString;
     OpenAIKey := EmptyString; SpotifyClientID := EmptyString;
     SpotifyClientSecret := EmptyString |}.

(** [var cfg Config; err := json.Unmarshal(data, &cfg)]: the whole of
    [data] has to be one value between spaces ([checkValid]), which is
    then stored. *)
Definition Unmarshal (data : string) : Config * option error :=
  match parseValue maxNestingDepth data with
  | Err _ => (zeroConfig, Some ErrSyntax)
  | Ok (v, rest) =>
      match skipSpace rest with
      | String _ _ => (zeroConfig, Some ErrSyntax)
      | EmptyString =>
          match v with
          | JObject ms => storeCfgMembers ms zeroConfig None
          | JNull => (zeroConfig, None)
          | _ => (zeroConfig, Some (ErrUnmarshalType (kindName v) "Config"))
          end
      end
  end.

(** *** [loadCfg] *)

Inductive cfgError : Type :=
| ErrCall (err : error)         (* the error of os.ReadFile or json.Unmarshal *)
| ErrMissingFields.             (* fmt.Errorf("config file missing required fields: ...") *)

(** [getenv] is what [os.Getenv("CONFIG")] returns, the empty string
    when the variable is not set. *)
Definition cfgPath (getenv : string) : string :=
  if String.eqb getenv EmptyString then "config.json" else getenv.

Definition loadCfg (getenv : string) (fs : FS) : Config + cfgError :=
  match os_Open fs (cfgPath getenv) with
  | Err err => inr (ErrCall err)
  | Ok data =>
      match Unmarshal data with
      | (_, Some err) => inr (ErrCall err)
      | (cfg, None) =>
          if String.eqb (BridgeIP cfg) EmptyString || String.eqb (Username cfg) EmptyString
             || String.eqb (DefaultLight cfg) EmptyString
             || String.eqb (OpenAIKey cfg) EmptyString
             || String.eqb (SpotifyClientID cfg) EmptyString
             || String.eqb (SpotifyClientSecret cfg) EmptyString
          then inr ErrMissingFields
          else inl cfg
      end
  end.

(** *** [main] *)

(** What a run of the program has around it. *)
Record Machine : Type := {
  CONFIG : string;                         (* os.Getenv("CONFIG") *)
  Args : list string;                      (* os.Args *)
  openaiWorld : openai.World;
  hueWorld : hue.World;
  spotifyStage : orchestrator.World
}.

Inductive event : Type :=
| OpenAI (e : openai.event)
| Hue (e : hue.event)
| Spotify (e : orchestrator.event)
| Slog (level msg : string).

Definition promptOf (args : list string) : string :=
  match args with
  | _ :: prompt :: _ => prompt
  | _ => EmptyString
  end.

(** [main]: what happens, in order, the file system it leaves and how
    the process ends. *)
Definition main (m : Machine) (fs : FS) : list event * FS * termination :=
  match loadCfg (CONFIG m) fs with
  | inr _ => ([Slog "ERROR" "Failed to load configuration"], fs, Exit 1)
  | inl cfg =>
      match openai.Post (openaiWorld m) (openai.New (OpenAIKey cfg)) (promptOf (Args m)) with
      | (otr, inr _) =>
          ((map OpenAI otr ++ [Slog "ERROR" "Failed to get light state from OpenAI"])%list,
           fs, Exit 1)
      | (otr, inl result) =>
          let huec := hue.New (BridgeIP cfg) (Username cfg) (DefaultLight cfg) in
          match hue.SetState (hueWorld m) huec (On result) (Bri result) (XY result) with
          | (htr, Some _) =>
              ((map OpenAI otr ++ [Slog "INFO" "Received light state from OpenAI"]
                ++ map Hue htr ++ [Slog "ERROR" "Failed to set light state on Hue bridge"])%list,
               fs, Exit 1)
          | (htr, None) =>
              let '(str, fs', t) := mainFromSpotify (spotifyStage m) cfg fs result in
              ((map OpenAI otr ++ [Slog "INFO" "Received light state from OpenAI"]
                ++ map Hue htr ++ [Slog "INFO" "Sent light state to Hue bridge"]
                ++ map Spotify str)%list,
               fs', t)
          end
      end
  end.

(** *** Vocabulary of the properties *)

#[global] Instance cfgField_eq_dec : EqDecision cfgField.
Proof. solve_decision. Defined.

Definition cfgGet (f : cfgField) (c : Config) : string :=
  match f with
  | FBridgeIP => BridgeIP c
  | FUsername => Username c
  | FDefaultLight => DefaultLight c
  | FOpenAIKey => OpenAIKey c
  | FSpotifyClientID => SpotifyClientID c
  | FSpotifyClientSecret => SpotifyClientSecret c
  end.

(** The parts of a run of [main]. *)
Definition traceOf (r : list event * FS * termination) : list event := fst (fst r).
Definition diskOf (r : list event * FS * termination) : FS := snd (fst r).
Definition outcomeOf (r : list event * FS * termination) : termination := snd r.

Definition isSpotify (e : event) : bool :=
  match e with Spotify _ => true | _ => false end.

(** Does the event reach outside the process? *)
Definition isOutside (e : event) : bool :=
  match e with
  | Slog _ _ => false
  | Spotify (orchestrator.Log _ _) => false
  | _ => true
  end.

End saturday.

(** ** Sample runs: the concrete worlds the properties are exercised on *)
Module samples.

Import json spotify orchestrator.

Definition bridge : hue.Client := hue.New "10.0.0.2" "u" "1".

Definition cfg : Config :=
  {| BridgeIP := "10.0.0.2"; Username := "u"; DefaultLight := "1"; OpenAIKey := "k";
     SpotifyClientID := "id"; SpotifyClientSecret := "sec" |}.

Definition imagine : Result :=
  {| On := true; Bri := 80; XY := [hue.Finite 45 (-2); hue.Finite 41 (-2)];
     SongTitle := "Imagine"; Artist := "John Lennon" |}.

(** A provider answering every request with [status] and [body]; the
    redirect URI parses to its host and path, the listener binds unless
    [bindFails]. *)
Definition provider (status : Z) (body : string) (bindFails : bool) : spotify.World :=
  {| http_NewRequest := fun _ _ => true;
     http_Do := fun _ => Resp status body;
     url_Parse := fun _ => Ok {| Host := "127.0.0.1:8888"; Path := "/callback" |};
     net_Listen := fun _ => negb bindFails;
     mux_accepts := fun _ => true |}.


(** A refresh response without a refresh_token. *)
Definition refreshedBody : string :=
  q "{'access_token':'new','token_type':'Bearer','expires_in':3600,'scope':'s'}".

(** The provider's answer to a revoked refresh token (status 400). *)
Definition deniedBody : string :=
  q "{'error':'invalid_grant','error_description':'Refresh token revoked'}".

Definition client : Client := spoc cfg.

(** A persisted record with an empty access_token. *)
Definition emptyAccessRecord : string := q "{'access_token':'','refresh_token':'r1'}".


(** A callback that carries a code and a state that is not the client's. *)
Definition forgedQuery : Values := [("code", "abc"); ("state", "forged")].

(** A persisted record whose access_token holds the byte FF, which is
    not valid UTF-8. *)
Definition binaryRecord : string :=
  (q "{'access_token':'" ++ String "255"%char (q "','refresh_token':'r1'}"))%string.

(** A callback that carries a code and the client's state. *)
Definition goodQuery : Values := [("code", "abc"); ("state", "some-random-state")].

(** A run of [AuthCode] in which a forged request comes first: the
    listener starts, the browser opens, the forged request is answered,
    the good one is served, its code received and exchanged, and the
    server shut down. *)
Definition happySchedule : list label :=
  [DoRegister; DoListen; DoOpenBrowser;
   DoRequest forgedQuery; DoHandler 0; DoHandler 0;
   DoRequest goodQuery; DoHandler 1; DoReceive 1; DoHandler 1;
   DoExchange; DoTimer].

(** The state that run ends in. *)
Definition returnedState : state :=
  {| main := MReturned
               (Some {| AccessToken := "new"; RefreshToken := ""; ExpiresIn := 3600;
                        TokenType := "Bearer"; Scope := "s" |}) None;
     listener := LShutdown;
     handlers := [[]; []];
     timers := 0;
     events :=
       [EvServerShutdown; EvExchange "abc"; EvReceive "abc";
        EvWrite "Authorization successful! You can close this tab.";
        EvWrite (String.append "state mismatch" newline);
        EvWriteHeader 400;
        EvOpenBrowser
          (buildAuthURL (ClientID client) (RedirectURI client) (Scopes client)
             (State client));
        EvListen "127.0.0.1:8888" true; EvHandleFunc "/callback"] |}.

Definition disk (content : option string) : FS :=
  {| files := match content with
              | Some c => {[ tokenFile := c ]}
              | None => ∅
              end;
     createDenied := fun _ => false |}.

(** A disk that holds token.json and lets nothing be created. *)
Definition readOnlyDisk (content : string) : FS :=
  {| files := {[ tokenFile := content ]}; createDenied := fun _ => true |}.

Definition world (sw : spotify.World) (auth : AuthOutcome) : orchestrator.World :=
  {| spotifyWorld := sw; authCode := auth;
     SearchTrack := fun _ _ => Ok "spotify:track:7pKfPomDEeI4TPT6EOYjn9";
     PlayTrack := fun _ _ => None |}.

(** A world in which the search is answered with status 404. *)
Definition searchFails : orchestrator.World :=
  {| spotifyWorld := provider 200 refreshedBody false; authCode := AuthBlocks;
     SearchTrack := fun _ _ => Err (ErrStatus "search failed: status" 404);
     PlayTrack := fun _ _ => None |}.

Definition freshToken : Token :=
  {| AccessToken := "fresh"; RefreshToken := "r2"; ExpiresIn := 3600;
     TokenType := "Bearer"; Scope := "user-read-private" |}.

(** A token whose access_token is the single byte FF, not valid UTF-8. *)
Definition binaryToken : Token :=
  {| AccessToken := String "255"%char EmptyString; RefreshToken := "r";
     ExpiresIn := 3600; TokenType := "Bearer"; Scope := "" |}.

(** A configuration file with a key in capitals, a key that names no
    field and a null. *)
Definition configText : string :=
  q ("{'bridge_ip':'10.0.0.2', 'USERNAME':'u', 'default_light':'1', 'note':7, "
     ++ "'openai_api_key':'k', 'spotify_client_id':'id', "
     ++ "'spotify_client_secret':'sec', 'username':null} ").

Definition configDisk (path : string) : FS :=
  {| files := {[ path := configText ]}; createDenied := fun _ => false |}.

(** A bridge that answers every attempt with 200. *)
Definition bridgeOK : hue.World :=
  {| hue.url_JoinPath := fun _ _ => Ok "http://10.0.0.2/api/u/groups/1/action";
     hue.http_NewRequest := fun _ _ => true;
     hue.http_Do := fun _ => hue.Resp 200 "[]" |}.

Definition machine (args : list string) : saturday.Machine :=
  {| saturday.CONFIG := EmptyString;
     saturday.Args := args;
     saturday.openaiWorld := {| openai.completion := fun _ _ => Ok imagine |};
     saturday.hueWorld := bridgeOK;
     saturday.spotifyStage := world (provider 200 refreshedBody false) AuthBlocks |}.

End samples.

(** ** Tactics of the proofs *)
Module tactics.

Import utf8 spotify.

(** Turning the boolean tests of the decoders into facts for [lia]. *)
Ltac bool_facts :=
  repeat match goal with
    | H : (_ && _) = true |- _ => apply andb_true_iff in H; destruct H
    | H : (_ || _) = false |- _ => apply orb_false_iff in H; destruct H
    | H : negb _ = true |- _ => apply negb_true_iff in H
    | H : negb _ = false |- _ => apply negb_false_iff in H
    | H : (_ <=? _) = true |- _ => apply Z.leb_le in H
    | H : (_ <=? _) = false |- _ => apply Z.leb_gt in H
    | H : (_ <? _) = true |- _ => apply Z.ltb_lt in H
    | H : (_ <? _) = false |- _ => apply Z.ltb_ge in H
    | H : (_ =? _) = true |- _ => apply Z.eqb_eq in H
    | H : (_ =? _) = false |- _ => apply Z.eqb_neq in H
    end.

(** Settling a boolean test from the facts at hand. *)
Ltac prove_bool :=
  repeat match goal with
    | |- (_ && _) = true => apply andb_true_iff; split
    | |- (_ || _) = false => apply orb_false_iff; split
    | |- (_ && _) = false => apply andb_false_iff
    | |- (_ || _) = true => apply orb_true_iff
    | |- negb _ = true => apply negb_true_iff
    | |- negb _ = false => apply negb_false_iff
    | |- (_ <=? _) = true => apply Z.leb_le
    | |- (_ <=? _) = false => apply Z.leb_gt
    | |- (_ <? _) = true => apply Z.ltb_lt
    | |- (_ <? _) = false => apply Z.ltb_ge
    | |- (_ =? _) = true => apply Z.eqb_eq
    | |- (_ =? _) = false => apply Z.eqb_neq
    end;
  unfold RuneSelf, RuneError, MaxRune, surrogateMin, surrogateMax in *; lia.

Ltac settle b v := replace b with v by (symmetry; prove_bool).

Ltac unresolved_goal :=
  unfold unresolved; cbn; repeat split; auto; try discriminate;
  try (constructor; [cbn; auto; reflexivity | assumption]).

End tactics.

(** * Properties *)

(** ** UTF-8, string literals and integers: writing then reading *)
Module json_facts.

Import utf8 json tactics.
#[local] Arguments String.append : simpl nomatch.

(** *** Bytes *)

Lemma byteZ_range (c : ascii) : 0 <= byteZ c < 256.
Proof.
  unfold byteZ. pose proof (N_ascii_bounded c) as H. lia.
Qed.

Lemma Zbyte_byteZ (c : ascii) : Zbyte (byteZ c) = c.
Proof.
  unfold Zbyte, byteZ. rewrite N2Z.id. apply ascii_N_embedding.
Qed.

Lemma byteZ_Zbyte (z : Z) : 0 <= z < 256 -> byteZ (Zbyte z) = z.
Proof.
  intros H. unfold Zbyte, byteZ. rewrite N_ascii_embedding by lia. lia.
Qed.

Lemma Zbyte_eq (z : Z) (c : ascii) : z = byteZ c -> Zbyte z = c.
Proof. intros ->. apply Zbyte_byteZ. Qed.

(** *** Runes *)

Lemma first_cases (p0 : Z) (sz : nat) (lo hi : Z) :
  first p0 = Some (sz, lo, hi) ->
  (sz = 2%nat /\ 0xC2 <= p0 <= 0xDF /\ lo = 0x80 /\ hi = 0xBF)
  \/ (sz = 3%nat /\ 0xE0 <= p0 <= 0xEF /\ 0x80 <= lo /\ hi <= 0xBF
      /\ (p0 = 0xE0 -> 0xA0 <= lo) /\ (p0 = 0xED -> hi <= 0x9F))
  \/ (sz = 4%nat /\ 0xF0 <= p0 <= 0xF4 /\ 0x80 <= lo /\ hi <= 0xBF
      /\ (p0 = 0xF0 -> 0x90 <= lo) /\ (p0 = 0xF4 -> hi <= 0x8F)).
Proof.
  unfold first. intros H.
  repeat match type of H with
         | (if ?b then _ else _) = _ => destruct b eqn:?
         end;
    inversion H; subst; clear H; bool_facts;
    [left | right; left | right; left | right; left | right; left
     | right; right | right; right | right; right]; lia.
Qed.

(** What [DecodeRuneInString] answers on a string that starts with a byte
    outside ASCII: an error of width 1, or an accepted sequence, which it
    recognises whatever follows. *)
Lemma DecodeRuneInString_cases (c : ascii) (t : string) :
  RuneSelf <= byteZ c ->
  DecodeRuneInString (String c t) = (RuneError, 1%nat)
  \/ exists bs r t',
       rune_bytes bs r
       /\ String c t = bs ++ t'
       /\ forall x, DecodeRuneInString (bs ++ x) = (r, String.length bs).
Proof.
  intros Hc. unfold RuneSelf in Hc.
  unfold DecodeRuneInString at 1.
  destruct (byteZ c <? RuneSelf) eqn:E0; [unfold RuneSelf in E0; bool_facts; lia|].
  destruct (first (byteZ c)) as [[[sz lo] hi]|] eqn:Ef; [|left; reflexivity].
  destruct t as [|c1 t1]; [left; reflexivity|].
  destruct ((byteZ c1 <? lo) || (hi <? byteZ c1)) eqn:E1; [left; reflexivity|].
  bool_facts.
  destruct (first_cases _ _ _ _ Ef) as [(-> & Hp0 & -> & ->) | [(-> & Hp0 & Hlo & Hhi & Ha & Hb) | (-> & Hp0 & Hlo & Hhi & Ha & Hb)]].
  - right. exists (String c (String c1 EmptyString)), ((byteZ c - 0xC0) * 64 + (byteZ c1 - 0x80)), t1.
    split; [apply rune2; lia|]. split; [reflexivity|].
    intros x. cbn [String.append DecodeRuneInString].
    settle (byteZ c <? RuneSelf) false. rewrite Ef.
    settle ((byteZ c1 <? 128) || (191 <? byteZ c1)) false.
    reflexivity.
  - cbn [Nat.leb].
    destruct t1 as [|c2 t2]; [left; reflexivity|].
    destruct (cont (byteZ c2)) eqn:E2; [|left; reflexivity].
    unfold cont in E2. bool_facts. cbn [negb].
    right. exists (String c (String c1 (String c2 EmptyString))),
      ((byteZ c - 0xE0) * 4096 + (byteZ c1 - 0x80) * 64 + (byteZ c2 - 0x80)), t2.
    split; [apply rune3; lia|]. split; [reflexivity|].
    intros x. cbn [String.append DecodeRuneInString].
    settle (byteZ c <? RuneSelf) false. rewrite Ef.
    settle ((byteZ c1 <? lo) || (hi <? byteZ c1)) false.
    cbn [Nat.leb]. unfold cont.
    settle ((128 <=? byteZ c2) && (byteZ c2 <=? 191)) true.
    reflexivity.
  - cbn [Nat.leb].
    destruct t1 as [|c2 t2]; [left; reflexivity|].
    destruct (cont (byteZ c2)) eqn:E2; [|left; reflexivity].
    cbn [negb].
    destruct t2 as [|c3 t3]; [left; reflexivity|].
    destruct (cont (byteZ c3)) eqn:E3; [|left; reflexivity].
    unfold cont in E2, E3. bool_facts. cbn [negb].
    right. exists (String c (String c1 (String c2 (String c3 EmptyString)))),
      ((byteZ c - 0xF0) * 262144 + (byteZ c1 - 0x80) * 4096
       + (byteZ c2 - 0x80) * 64 + (byteZ c3 - 0x80)), t3.
    split; [apply rune4; lia|]. split; [reflexivity|].
    intros x. cbn [String.append DecodeRuneInString].
    settle (byteZ c <? RuneSelf) false. rewrite Ef.
    settle ((byteZ c1 <? lo) || (hi <? byteZ c1)) false.
    cbn [Nat.leb]. unfold cont.
    settle ((128 <=? byteZ c2) && (byteZ c2 <=? 191)) true.
    settle ((128 <=? byteZ c3) && (byteZ c3 <=? 191)) true.
    reflexivity.
Qed.

Lemma EncodeRune_rune_bytes (bs : string) (r : Z) :
  rune_bytes bs r -> EncodeRune r = bs.
Proof.
  intros H. destruct H as [c0 c1 H0 H1 | c0 c1 c2 H0 H1 Ha Hb H2 | c0 c1 c2 c3 H0 H1 Ha Hb H2 H3].
  - remember ((byteZ c0 - 0xC0) * 64 + (byteZ c1 - 0x80)) as r eqn:Hr.
    unfold EncodeRune.
    settle ((0 <=? r) && (r <=? 0x7F)) false.
    settle ((0 <=? r) && (r <=? 0x7FF)) true.
    f_equal; [|f_equal]; apply Zbyte_eq; subst r;
      generalize dependent (byteZ c0); generalize dependent (byteZ c1); intros;
      Z.div_mod_to_equations; lia.
  - remember ((byteZ c0 - 0xE0) * 4096 + (byteZ c1 - 0x80) * 64 + (byteZ c2 - 0x80))
      as r eqn:Hr.
    unfold EncodeRune, encode3.
    settle ((0 <=? r) && (r <=? 0x7F)) false.
    settle ((0 <=? r) && (r <=? 0x7FF)) false.
    settle ((r <? 0) || (MaxRune <? r) || ((surrogateMin <=? r) && (r <=? surrogateMax))) false.
    settle (r <=? 0xFFFF) true.
    f_equal; [|f_equal; [|f_equal]]; apply Zbyte_eq; subst r;
      generalize dependent (byteZ c0); generalize dependent (byteZ c1);
      generalize dependent (byteZ c2); intros;
      Z.div_mod_to_equations; lia.
  - remember ((byteZ c0 - 0xF0) * 262144 + (byteZ c1 - 0x80) * 4096
              + (byteZ c2 - 0x80) * 64 + (byteZ c3 - 0x80)) as r eqn:Hr.
    unfold EncodeRune.
    settle ((0 <=? r) && (r <=? 0x7F)) false.
    settle ((0 <=? r) && (r <=? 0x7FF)) false.
    settle ((r <? 0) || (MaxRune <? r) || ((surrogateMin <=? r) && (r <=? surrogateMax))) false.
    settle (r <=? 0xFFFF) false.
    f_equal; [|f_equal; [|f_equal; [|f_equal]]]; apply Zbyte_eq; subst r;
      generalize dependent (byteZ c0); generalize dependent (byteZ c1);
      generalize dependent (byteZ c2); generalize dependent (byteZ c3); intros;
      Z.div_mod_to_equations; lia.
Qed.

Lemma rune_bytes_shape (bs : string) (r : Z) :
  rune_bytes bs r ->
  exists c0 c1 bs',
    bs = String c0 (String c1 bs') /\ RuneSelf <= byteZ c0 /\ RuneSelf <= r
    /\ (r = 0x2028 \/ r = 0x2029 -> String.length bs = 3%nat).
Proof.
  intros H. destruct H as [c0 c1 H0 H1 | c0 c1 c2 H0 H1 Ha Hb H2 | c0 c1 c2 c3 H0 H1 Ha Hb H2 H3];
    eexists _, _, _; (split; [reflexivity|]); unfold RuneSelf;
    repeat split; try lia; try reflexivity; intros; cbn [String.length]; lia.
Qed.

(** *** Strings *)

Lemma append_assoc (a b c : string) : ((a ++ b) ++ c)%string = (a ++ (b ++ c))%string.
Proof. induction a as [|x a IH]; cbn; [reflexivity|]. rewrite IH. reflexivity. Qed.

Lemma append_empty_r (a : string) : (a ++ "")%string = a.
Proof. induction a as [|x a IH]; cbn; [reflexivity|]. rewrite IH. reflexivity. Qed.

Lemma substring_prefix (a b : string) : substring 0 (String.length a) (a ++ b) = a.
Proof.
  induction a as [|x a IH]; cbn.
  - destruct b; reflexivity.
  - rewrite IH. reflexivity.
Qed.

(** Passing the bytes of a rune already dealt with. *)
Lemma valid_from_skip (pre x : string) :
  valid_from (String.length pre) (pre ++ x) = valid_from 0 x.
Proof. induction pre as [|c pre IH]; cbn [String.length String.append valid_from]; auto. Qed.

Lemma quoteFrom_skip (pre x : string) :
  quoteFrom (String.length pre) (pre ++ x) = quoteFrom 0 x.
Proof. induction pre as [|c pre IH]; cbn [String.length String.append quoteFrom]; auto. Qed.

Lemma inString_skip (pre x : string) :
  inString (String.length pre) (pre ++ x) = inString 0 x.
Proof. induction pre as [|c pre IH]; cbn [String.length String.append inString]; auto. Qed.

(** An ASCII byte: written as itself or as an escape, read back as
    itself. *)
Lemma ascii_step (c : ascii) :
  byteZ c < RuneSelf ->
  (forall t, valid_from 0 (String c t) = valid_from 0 t)
  /\ exists out,
       (forall t, quoteFrom 0 (String c t) = (out ++ quoteFrom 0 t)%string)
       /\ reads_back (String c EmptyString) out.
Proof.
  destruct c as [b0 b1 b2 b3 b4 b5 b6 b7]. destruct b7.
  - intros H. exfalso.
    destruct b0, b1, b2, b3, b4, b5, b6; vm_compute in H; discriminate H.
  - intros _.
    destruct b0, b1, b2, b3, b4, b5, b6;
      (split; [intros t; reflexivity|]);
      eexists; (split; [intros t; cbn [quoteFrom]; reflexivity|]);
      intros x; reflexivity.
Qed.

(** A rune outside ASCII: written as its bytes, or as an escape for
    U+2028 and U+2029, and read back as its bytes. *)
Lemma rune_step (bs : string) (r : Z) :
  rune_bytes bs r ->
  (forall x, DecodeRuneInString (bs ++ x) = (r, String.length bs)) ->
  (forall t, valid_from 0 (bs ++ t) = valid_from 0 t)
  /\ exists out,
       (forall t, quoteFrom 0 (bs ++ t) = (out ++ quoteFrom 0 t)%string)
       /\ reads_back bs out.
Proof.
  intros Hb Hdec.
  pose proof (EncodeRune_rune_bytes bs r Hb) as Henc.
  destruct (rune_bytes_shape bs r Hb) as (c0 & c1 & bs' & -> & Hc0 & Hr & Hsep).
  clear Hb. set (tl := String c1 bs') in *.
  assert (Hlen : String.length (String c0 tl) = S (String.length tl)) by reflexivity.
  split.
  - intros t. specialize (Hdec t). cbn [String.append] in Hdec |- *.
    cbn [valid_from]. rewrite Hdec, Hlen.
    replace ((String.length tl =? 0)%nat) with false by reflexivity.
    rewrite andb_false_r. apply valid_from_skip.
  - destruct ((r =? 0x2028) || (r =? 0x2029)) eqn:Esep.
    + (* written as an escape *)
      exists (esc (String "u" (String "2" (String "0" (String "2"
                (String (hex (r mod 16)) EmptyString)))))).
      split.
      * intros t. specialize (Hdec t). cbn [String.append] in Hdec |- *.
        cbn [quoteFrom]. unfold quoteStep.
        settle (byteZ c0 <? RuneSelf) false.
        rewrite Hdec, Hlen.
        replace ((S (String.length tl) =? 1)%nat) with false by reflexivity.
        rewrite andb_false_r, Esep.
        replace (S (String.length tl) - 1)%nat with (String.length tl) by lia.
        rewrite quoteFrom_skip. reflexivity.
      * intros x. rewrite <- Henc.
        apply orb_true_iff in Esep. destruct Esep as [E|E]; apply Z.eqb_eq in E;
          subst r; reflexivity.
    + (* written as it is *)
      exists (String c0 tl). split.
      * intros t. specialize (Hdec t). cbn [String.append] in Hdec |- *.
        cbn [quoteFrom]. unfold quoteStep.
        settle (byteZ c0 <? RuneSelf) false.
        rewrite Hdec, Hlen.
        replace ((S (String.length tl) =? 1)%nat) with false by reflexivity.
        rewrite andb_false_r, Esep.
        replace (S (String.length tl) - 1)%nat with (String.length tl) by lia.
        rewrite quoteFrom_skip.
        change (String c0 (tl ++ t)) with (String c0 tl ++ t)%string.
        rewrite <- Hlen, substring_prefix. reflexivity.
      * intros x. specialize (Hdec x). cbn [String.append] in Hdec |- *.
        cbn [inString]. unfold unquoteStep.
        settle (byteZ c0 =? 0x22) false.
        settle (byteZ c0 =? 0x5C) false.
        settle (byteZ c0 <? 0x20) false.
        settle (byteZ c0 <? RuneSelf) false.
        rewrite Hdec, Hlen, Henc.
        replace (S (String.length tl) - 1)%nat with (String.length tl) by lia.
        rewrite inString_skip.
        destruct (inString 0 x) as [[v rest]|e]; reflexivity.
Qed.

(** Reading the literal written for a string of valid UTF-8 gives the
    string back, and stops after the closing quote. *)
Lemma inString_quoteFrom (n : nat) :
  forall s rest,
    (String.length s <= n)%nat ->
    ValidString s = true ->
    inString 0 (quoteFrom 0 s ++ String dquote rest) = Ok (s, rest).
Proof.
  unfold ValidString.
  induction n as [|n IH]; intros s rest Hlen Hv.
  - destruct s; [reflexivity | cbn in Hlen; lia].
  - destruct s as [|c t]; [reflexivity|].
    destruct (Z.lt_ge_cases (byteZ c) RuneSelf) as [Hc|Hc].
    + destruct (ascii_step c Hc) as (Hval & out & Hq & Hback).
      rewrite Hval in Hv. rewrite Hq, append_assoc, Hback.
      rewrite (IH t rest) by (cbn in Hlen; lia || exact Hv). reflexivity.
    + destruct (DecodeRuneInString_cases c t Hc) as [Hbad | (bs & r & t' & Hb & Hs & Hdec)].
      * cbn [valid_from] in Hv. rewrite Hbad in Hv. discriminate Hv.
      * destruct (rune_step bs r Hb Hdec) as (Hval & out & Hq & Hback).
        rewrite Hs in *. rewrite Hval in Hv. rewrite Hq, append_assoc, Hback.
        assert (Hshort : (String.length t' <= n)%nat).
        { destruct (rune_bytes_shape bs r Hb) as (c0 & c1 & bs' & -> & _).
          cbn [String.append String.length] in Hlen.
          assert (String.length (bs' ++ t') >= String.length t')%nat.
          { clear. induction bs'; cbn; lia. }
          lia. }
        rewrite (IH t' rest Hshort Hv). reflexivity.
Qed.

(** Reading what [appendString] wrote. *)
Lemma inString_appendString (s rest : string) :
  ValidString s = true ->
  exists body,
    (appendString s ++ rest)%string = String dquote body
    /\ inString 0 body = Ok (s, rest).
Proof.
  intros Hv. exists (quoteFrom 0 s ++ String dquote rest)%string. split.
  - unfold appendString. cbn [String.append]. rewrite append_assoc. reflexivity.
  - apply (inString_quoteFrom (String.length s)); [lia | exact Hv].
Qed.

(** *** Integers *)

Lemma digit_byte (d : Z) : 0 <= d < 10 -> byteZ (digit d) = 48 + d.
Proof. intros H. unfold digit. apply byteZ_Zbyte. lia. Qed.

Lemma isDigit_digit (d : Z) : 0 <= d < 10 -> isDigit (digit d) = true.
Proof. intros H. unfold isDigit. rewrite (digit_byte d H). prove_bool. Qed.

Lemma allDigits_app (a b : string) :
  allDigits (a ++ b) = allDigits a && allDigits b.
Proof.
  induction a as [|c a IH]; cbn [String.append allDigits]; [reflexivity|].
  rewrite IH. apply andb_assoc.
Qed.

Lemma digitsValue_app (a b : string) :
  forall acc,
    digitsValue acc (a ++ b)
    = match digitsValue acc a with
      | Some v => digitsValue v b
      | None => None
      end.
Proof.
  induction a as [|c a IH]; intros acc; cbn [String.append digitsValue]; [reflexivity|].
  destruct (isDigit c); [apply IH | reflexivity].
Qed.

Lemma pow10_step (f : nat) (u : Z) :
  0 <= u < 10 ^ Z.of_nat (S f) -> 0 <= u / 10 < 10 ^ Z.of_nat f.
Proof.
  rewrite Nat2Z.inj_succ, Z.pow_succ_r by lia. intros H. split.
  - apply Z.div_pos; lia.
  - apply Z.div_lt_upper_bound; lia.
Qed.

Lemma formatBits_S (f : nat) (u : Z) :
  formatBits (S f) u
  = if u <? 10 then String (digit u) EmptyString
    else (formatBits f (u / 10) ++ String (digit (u mod 10)) EmptyString)%string.
Proof. reflexivity. Qed.

(** The digits [formatBits] writes for a number that fits its fuel: all
    digits, without a leading zero except for zero itself, of value [u]. *)
Lemma formatBits_spec (f : nat) :
  forall u,
    0 <= u < 10 ^ Z.of_nat (S f) ->
    exists d tl,
      formatBits (S f) u = String d tl
      /\ allDigits (String d tl) = true
      /\ (d = "0"%char -> tl = EmptyString /\ u = 0)
      /\ digitsValue 0 (String d tl) = Some u.
Proof.
  induction f as [|f IH]; intros u Hu.
  - change (10 ^ Z.of_nat 1) with 10 in Hu.
    exists (digit u), EmptyString. cbn [formatBits].
    settle (u <? 10) true. split; [reflexivity|].
    cbn [allDigits digitsValue]. rewrite (isDigit_digit u Hu), (digit_byte u Hu).
    split; [reflexivity|]. split; [|f_equal; lia].
    intros Hd. split; [reflexivity|].
    assert (byteZ (digit u) = byteZ "0"%char) as Hb by (rewrite Hd; reflexivity).
    rewrite (digit_byte u Hu) in Hb. change (byteZ "0"%char) with 48 in Hb. lia.
  - rewrite formatBits_S. destruct (u <? 10) eqn:E; bool_facts.
    + assert (Hu' : 0 <= u < 10) by lia.
      exists (digit u), EmptyString. split; [reflexivity|].
      cbn [allDigits digitsValue]. rewrite (isDigit_digit u Hu'), (digit_byte u Hu').
      split; [reflexivity|]. split; [|f_equal; lia].
      intros Hd. split; [reflexivity|].
      assert (byteZ (digit u) = byteZ "0"%char) as Hb by (rewrite Hd; reflexivity).
      rewrite (digit_byte u Hu') in Hb. change (byteZ "0"%char) with 48 in Hb. lia.
    + destruct (IH (u / 10) (pow10_step (S f) u Hu)) as (d & tl & Hf & Hall & Hz & Hval).
      assert (Hm : 0 <= u mod 10 < 10) by (apply Z.mod_pos_bound; lia).
      exists d, (tl ++ String (digit (u mod 10)) EmptyString)%string.
      rewrite Hf. split; [reflexivity|].
      change (String d (tl ++ String (digit (u mod 10)) ""))
        with (String d tl ++ String (digit (u mod 10)) "")%string.
      rewrite allDigits_app, Hall, digitsValue_app, Hval.
      cbn [allDigits digitsValue]. rewrite (isDigit_digit _ Hm), (digit_byte _ Hm).
      split; [reflexivity|]. split.
      * intros Hd. destruct (Hz Hd) as [_ Hq].
        assert (u < 10) by (Z.div_mod_to_equations; lia). lia.
      * f_equal. Z.div_mod_to_equations. lia.
Qed.

Lemma spanDigits_all (ds : string) (c : ascii) (rest : string) :
  allDigits ds = true -> isDigit c = false ->
  spanDigits (ds ++ String c rest) = (ds, String c rest).
Proof.
  intros Hds Hc. induction ds as [|d ds IH]; cbn [String.append spanDigits].
  - rewrite Hc. reflexivity.
  - cbn [allDigits] in Hds. apply andb_true_iff in Hds. destruct Hds as [Hd Hds].
    rewrite Hd, (IH Hds). reflexivity.
Qed.

Lemma digit_not (d c : ascii) :
  isDigit d = true -> isDigit c = false -> Ascii.eqb d c = false.
Proof.
  intros Hd Hc. destruct (Ascii.eqb_spec d c) as [->|]; [congruence | reflexivity].
Qed.

(** Scanning a number written in decimal, followed by a comma. *)
Lemma scanNumber_digits (d : ascii) (tl rest : string) :
  allDigits (String d tl) = true ->
  (d = "0"%char -> tl = EmptyString) ->
  scanNumber (String d tl ++ String "," rest) = Ok (String d tl, String ","%char rest)
  /\ scanNumber (String "-" (String d tl) ++ String "," rest)
     = Ok (String "-" (String d tl), String ","%char rest).
Proof.
  intros Hall Hz.
  assert (Hd : isDigit d = true)
    by (cbn [allDigits] in Hall; apply andb_true_iff in Hall; apply Hall).
  assert (Hcore :
            match
              (if Ascii.eqb d "0"%char then Ok ("0"%string, (tl ++ String "," rest)%string)
               else if isDigit d then Ok (spanDigits (String d (tl ++ String "," rest)))
                    else Err ErrSyntax)
            with
            | Ok (ip, s2) => ip = String d tl /\ s2 = String ","%char rest
            | Err _ => False
            end).
  { destruct (Ascii.eqb_spec d "0"%char) as [E|E].
    - rewrite (Hz E), E. split; reflexivity.
    - rewrite Hd.
      change (String d (tl ++ String "," rest)) with (String d tl ++ String "," rest)%string.
      rewrite (spanDigits_all (String d tl) ","%char rest Hall eq_refl). split; reflexivity. }
  split.
  - unfold scanNumber. cbn [String.append].
    rewrite (digit_not d "-"%char Hd eq_refl).
    cbv zeta.
    destruct (if Ascii.eqb d "0"%char then _ else _) as [[ip s2]|e]; [|contradiction].
    destruct Hcore as [-> ->]. cbn. rewrite append_empty_r. reflexivity.
  - unfold scanNumber. cbn [String.append].
    change (Ascii.eqb "-" "-") with true. cbv iota.
    cbv zeta.
    destruct (if Ascii.eqb d "0"%char then _ else _) as [[ip s2]|e]; [|contradiction].
    destruct Hcore as [-> ->]. cbn. rewrite append_empty_r. reflexivity.
Qed.

Lemma int64_digits (n : Z) :
  minInt64 <= n <= maxInt64 -> 0 <= Z.abs n < 10 ^ Z.of_nat 20.
Proof.
  unfold minInt64, maxInt64. intros H.
  change (10 ^ Z.of_nat 20) with 100000000000000000000.
  change (2 ^ 63) with 9223372036854775808 in H. lia.
Qed.

(** Scanning and parsing what [FormatInt] wrote. *)
Lemma FormatInt_read (n : Z) (rest : string) :
  minInt64 <= n <= maxInt64 ->
  scanNumber (FormatInt n ++ String "," rest) = Ok (FormatInt n, String ","%char rest)
  /\ ParseInt (FormatInt n) = Some n
  /\ exists c t, FormatInt n = String c t /\ (Ascii.eqb c "-"%char || isDigit c) = true.
Proof.
  intros Hn. pose proof (int64_digits n Hn) as Habs.
  destruct (formatBits_spec 19 (Z.abs n) Habs) as (d & tl & Hf & Hall & Hz & Hval).
  assert (Hd : isDigit d = true)
    by (cbn [allDigits] in Hall; apply andb_true_iff in Hall; apply Hall).
  destruct (scanNumber_digits d tl rest Hall (fun E => proj1 (Hz E))) as [Hpos Hneg].
  unfold FormatInt. destruct (n <? 0) eqn:E; bool_facts.
  - assert (Ha : Z.abs n = - n) by lia. rewrite Ha in Hf, Hval. rewrite Hf.
    split; [exact Hneg|]. split; [|eexists _, _; split; reflexivity].
    unfold ParseInt. change (Ascii.eqb "-" "+") with false.
    change (Ascii.eqb "-" "-") with true. cbv iota. rewrite Hval.
    settle ((minInt64 <=? - - n) && (- - n <=? maxInt64)) true.
    f_equal. lia.
  - assert (Ha : Z.abs n = n) by lia. rewrite Ha in Hf, Hval. rewrite Hf.
    split; [exact Hpos|].
    split; [|eexists _, _; split; [reflexivity|]; rewrite Hd; apply orb_true_r].
    unfold ParseInt.
    rewrite (digit_not d "+"%char Hd eq_refl), (digit_not d "-"%char Hd eq_refl).
    rewrite Hval.
    settle ((minInt64 <=? n) && (n <=? maxInt64)) true.
    reflexivity.
Qed.

(** *** Values and members *)

Lemma length_append (a b : string) :
  String.length (a ++ b) = (String.length a + String.length b)%nat.
Proof. induction a as [|c a IH]; cbn; [reflexivity|]. rewrite IH. reflexivity. Qed.

Lemma parseValue_string (d : nat) (s after : string) :
  ValidString s = true ->
  parseValue d (appendString s ++ after) = Ok (JString s, after).
Proof.
  intros Hv. destruct (inString_appendString s after Hv) as (body & -> & Hbody).
  destruct d; cbn [parseValue skipSpace]; change (isSpace dquote) with false; cbv iota;
    change (Ascii.eqb dquote "{") with false; change (Ascii.eqb dquote "[") with false;
    change (Ascii.eqb dquote dquote) with true; cbv iota; rewrite Hbody; reflexivity.
Qed.

Lemma byte_of (c : ascii) (z : Z) : byteZ c = z -> c = Zbyte z.
Proof. intros <-. symmetry. apply Zbyte_byteZ. Qed.

Lemma number_head (c : ascii) :
  (Ascii.eqb c "-"%char || isDigit c) = true ->
  isSpace c = false /\ Ascii.eqb c "{"%char = false /\ Ascii.eqb c "["%char = false
  /\ Ascii.eqb c dquote = false.
Proof.
  intros H.
  assert (Hne : forall x, (Ascii.eqb x "-"%char || isDigit x) = false -> Ascii.eqb c x = false).
  { intros x Hx. destruct (Ascii.eqb_spec c x) as [->|]; [congruence | reflexivity]. }
  repeat split; try (apply Hne; reflexivity).
  destruct (isSpace c) eqn:E; [|reflexivity].
  unfold isSpace in E.
  repeat (apply orb_true_iff in E; destruct E as [E|E]);
    apply Z.eqb_eq in E; apply byte_of in E; subst c; vm_compute in H; discriminate H.
Qed.

Lemma parseValue_int (d : nat) (n : Z) (rest : string) :
  minInt64 <= n <= maxInt64 ->
  parseValue d (FormatInt n ++ String "," rest)
  = Ok (JNumber (FormatInt n), String ","%char rest).
Proof.
  intros Hn. destruct (FormatInt_read n rest Hn) as (Hscan & _ & c & t & Hf & Hc).
  rewrite Hf in Hscan |- *.
  destruct (number_head c Hc) as (Hsp & H1 & H2 & H3).
  destruct d; cbn [parseValue skipSpace String.append]; rewrite Hsp, H1, H2, H3, Hc;
    cbn [String.append] in Hscan; rewrite Hscan; reflexivity.
Qed.

Section Members.

Variable pv : string -> result (value * string).

(** One member written by [Marshal]: its key, a colon, its value, and
    the comma or brace after it. *)
Lemma objectLoop_member (fuel : nat) (key vtext : string) (v : value) (c : ascii)
      (r4 : string) :
  ValidString key = true ->
  pv (vtext ++ String c r4) = Ok (v, String c r4) ->
  isSpace c = false ->
  objectLoop pv (S fuel) (appendString key ++ String ":" (vtext ++ String c r4))
  = if Ascii.eqb c ","%char then
      match objectLoop pv fuel r4 with
      | Ok (ms, r5) => Ok ((key, v) :: ms, r5)
      | Err e => Err e
      end
    else if Ascii.eqb c "}"%char then Ok ([(key, v)], r4)
    else Err ErrSyntax.
Proof.
  intros Hkey Hpv Hc.
  destruct (inString_appendString key (String ":" (vtext ++ String c r4)) Hkey)
    as (body & -> & Hbody).
  cbn [objectLoop skipSpace]. change (isSpace dquote) with false. cbv iota.
  change (Ascii.eqb dquote dquote) with true. cbn [negb]. rewrite Hbody.
  cbn [skipSpace]. change (isSpace ":") with false. cbv iota.
  change (Ascii.eqb ":" ":") with true. cbn [negb]. rewrite Hpv.
  cbn [skipSpace]. rewrite Hc. reflexivity.
Qed.

End Members.

(** *** The bound of the container loops is never what stops them *)

Lemma skipSpace_length (s : string) :
  (String.length (skipSpace s) <= String.length s)%nat.
Proof.
  induction s as [|c s IH]; cbn [skipSpace String.length]; [lia|].
  destruct (isSpace c); cbn [String.length]; lia.
Qed.

Lemma skipSpace_cons (s : string) (c : ascii) (t : string) :
  skipSpace s = String c t -> (String.length t < String.length s)%nat.
Proof.
  intros H. pose proof (skipSpace_length s) as Hl. rewrite H in Hl.
  cbn [String.length] in Hl. lia.
Qed.

Lemma inString_shrinks (s : string) :
  forall skip v r, inString skip s = Ok (v, r) -> (String.length r < String.length s)%nat.
Proof.
  induction s as [|c t IH]; intros skip v r H; cbn [inString] in H; [discriminate|].
  cbn [String.length]. destruct skip as [|k].
  - destruct (unquoteStep (String c t)) as [|out k|e]; try discriminate.
    + inversion H; subst. lia.
    + destruct (inString k t) as [[v' r']|e] eqn:E; [|discriminate].
      inversion H; subst. specialize (IH k v' r E). lia.
  - specialize (IH k v r H). lia.
Qed.

Lemma expect_length (lit : string) :
  forall s r, expect lit s = Ok r -> (String.length r <= String.length s)%nat.
Proof.
  induction lit as [|l lit IH]; intros s r H; cbn [expect] in H.
  - inversion H; subst. lia.
  - destruct s as [|c t]; [discriminate|].
    destruct (Ascii.eqb c l); [|discriminate].
    specialize (IH t r H). cbn [String.length]. lia.
Qed.

Lemma spanDigits_length (s : string) :
  (String.length (snd (spanDigits s)) <= String.length s)%nat.
Proof.
  induction s as [|c t IH]; cbn [spanDigits]; [cbn; lia|].
  destruct (isDigit c); [|cbn; lia].
  destruct (spanDigits t) as [ds r]. cbn [snd String.length] in *. lia.
Qed.

Lemma digits1_length (s ds r : string) :
  digits1 s = Ok (ds, r) -> (String.length r < String.length s)%nat.
Proof.
  unfold digits1. destruct s as [|c t]; [discriminate|].
  destruct (isDigit c) eqn:E; [|discriminate].
  cbn [spanDigits]. rewrite E. pose proof (spanDigits_length t) as Hl.
  destruct (spanDigits t) as [ds' r']. intros H. inversion H; subst.
  cbn [snd String.length] in *. lia.
Qed.

Lemma scanNumber_shrinks : shrinks scanNumber.
Proof.
  intros s lit r H. unfold scanNumber in H.
  set (p := match s with
            | String c t => if Ascii.eqb c "-"%char then ("-"%string, t) else (EmptyString, s)
            | EmptyString => (EmptyString, s)
            end) in H.
  assert (Hp : (String.length (snd p) <= String.length s)%nat).
  { subst p. destruct s as [|c t]; [cbn; lia|].
    destruct (Ascii.eqb c "-"%char); cbn [snd String.length]; lia. }
  destruct p as [sign s1]. cbn [snd] in Hp.
  destruct s1 as [|c t]; [discriminate|].
  set (ipart := if Ascii.eqb c "0"%char then Ok ("0"%string, t)
                else if isDigit c then Ok (spanDigits (String c t)) else Err ErrSyntax) in H.
  assert (Hi : forall ip s2, ipart = Ok (ip, s2) -> (String.length s2 <= String.length t)%nat).
  { subst ipart. intros ip s2 E. destruct (Ascii.eqb c "0"%char).
    - inversion E; subst. lia.
    - destruct (isDigit c) eqn:Ed; [|discriminate].
      cbn [spanDigits] in E. rewrite Ed in E. pose proof (spanDigits_length t) as Hl.
      destruct (spanDigits t) as [ds r']. inversion E; subst. exact Hl. }
  destruct ipart as [[ip s2]|e]; [|discriminate].
  specialize (Hi ip s2 eq_refl).
  set (fpart := match s2 with
                | String c2 t2 =>
                    if Ascii.eqb c2 "."%char then
                      match digits1 t2 with
                      | Ok (ds, r) => Ok (String c2 ds, r)
                      | Err e => Err e
                      end
                    else Ok (EmptyString, s2)
                | EmptyString => Ok (EmptyString, s2)
                end) in H.
  assert (Hf : forall fp s3, fpart = Ok (fp, s3) -> (String.length s3 <= String.length s2)%nat).
  { subst fpart. intros fp s3 E. destruct s2 as [|c2 t2]; [inversion E; subst; lia|].
    destruct (Ascii.eqb c2 "."%char); [|inversion E; subst; lia].
    destruct (digits1 t2) as [[ds r']|e] eqn:Ed; [|discriminate].
    inversion E; subst. pose proof (digits1_length _ _ _ Ed). cbn [String.length]. lia. }
  destruct fpart as [[fp s3]|e]; [|discriminate].
  specialize (Hf fp s3 eq_refl).
  set (epart := match s3 with
                | String c3 t3 => _
                | EmptyString => Ok (EmptyString, s3)
                end) in H.
  assert (He : forall ep s4, epart = Ok (ep, s4) -> (String.length s4 <= String.length s3)%nat).
  { subst epart. intros ep s4 E. destruct s3 as [|c3 t3]; [inversion E; subst; lia|].
    destruct (Ascii.eqb c3 "e"%char || Ascii.eqb c3 "E"%char); [|inversion E; subst; lia].
    set (q4 := match t3 with
               | String c4 t4 =>
                   if Ascii.eqb c4 "+"%char || Ascii.eqb c4 "-"%char
                   then (String c4 EmptyString, t4) else (EmptyString, t3)
               | EmptyString => (EmptyString, t3)
               end) in E.
    assert (Hq : (String.length (snd q4) <= String.length t3)%nat).
    { subst q4. destruct t3 as [|c4 t4]; [cbn; lia|].
      destruct (Ascii.eqb c4 "+"%char || Ascii.eqb c4 "-"%char); cbn [snd String.length]; lia. }
    destruct q4 as [sg t4]. cbn [snd] in Hq.
    destruct (digits1 t4) as [[ds r']|e] eqn:Ed; [|discriminate].
    inversion E; subst. pose proof (digits1_length _ _ _ Ed). cbn [String.length]. lia. }
  destruct epart as [[ep s4]|e]; [|discriminate].
  specialize (He ep s4 eq_refl).
  inversion H; subst. cbn [String.length] in Hp. lia.
Qed.

Section Loops.

Variable pv : string -> result (value * string).
Hypothesis pv_shrinks : shrinks pv.

Lemma arrayLoop_shrinks (fuel : nat) : shrinks (arrayLoop pv fuel).
Proof.
  induction fuel as [|fuel IH]; intros s vs r H; cbn [arrayLoop] in H; [discriminate|].
  destruct (pv s) as [[v r1]|e] eqn:Ev; [|discriminate].
  pose proof (pv_shrinks s v r1 Ev) as H1.
  destruct (skipSpace r1) as [|c r2] eqn:Es; [discriminate|].
  pose proof (skipSpace_cons r1 c r2 Es) as H2.
  destruct (Ascii.eqb c ","%char).
  - destruct (arrayLoop pv fuel r2) as [[vs' r3]|e] eqn:El; [|discriminate].
    inversion H; subst. pose proof (IH r2 vs' r El). lia.
  - destruct (Ascii.eqb c "]"%char); [|discriminate].
    inversion H; subst. lia.
Qed.

Lemma objectLoop_shrinks (fuel : nat) : shrinks (objectLoop pv fuel).
Proof.
  induction fuel as [|fuel IH]; intros s ms r H; cbn [objectLoop] in H; [discriminate|].
  destruct (skipSpace s) as [|c t] eqn:E0; [discriminate|].
  pose proof (skipSpace_cons s c t E0) as H0.
  destruct (negb (Ascii.eqb c dquote)); [discriminate|].
  destruct (inString 0 t) as [[key r1]|e] eqn:Ek; [|discriminate].
  pose proof (inString_shrinks t 0 key r1 Ek) as H1.
  destruct (skipSpace r1) as [|c1 r2] eqn:E1; [discriminate|].
  pose proof (skipSpace_cons r1 c1 r2 E1) as H2.
  destruct (negb (Ascii.eqb c1 ":"%char)); [discriminate|].
  destruct (pv r2) as [[v r3]|e] eqn:Ev; [|discriminate].
  pose proof (pv_shrinks r2 v r3 Ev) as H3.
  destruct (skipSpace r3) as [|c2 r4] eqn:E3; [discriminate|].
  pose proof (skipSpace_cons r3 c2 r4 E3) as H4.
  destruct (Ascii.eqb c2 ","%char).
  - destruct (objectLoop pv fuel r4) as [[ms' r5]|e] eqn:El; [|discriminate].
    inversion H; subst. pose proof (IH r4 ms' r El). lia.
  - destruct (Ascii.eqb c2 "}"%char); [|discriminate].
    inversion H; subst. lia.
Qed.

(** With a bound of at least the length of the input (and at least one),
    the loops do not depend on the bound. *)
Lemma arrayLoop_fuel (f1 : nat) :
  forall f2 s,
    (String.length s <= f1)%nat -> (1 <= f1)%nat ->
    (String.length s <= f2)%nat -> (1 <= f2)%nat ->
    arrayLoop pv f1 s = arrayLoop pv f2 s.
Proof.
  induction f1 as [|f1 IH]; intros f2 s Hs1 Hp1 Hs2 Hp2; [lia|].
  destruct f2 as [|f2]; [lia|]. cbn [arrayLoop].
  destruct (pv s) as [[v r1]|e] eqn:Ev; [|reflexivity].
  pose proof (pv_shrinks s v r1 Ev) as H1.
  destruct (skipSpace r1) as [|c r2] eqn:Es; [reflexivity|].
  pose proof (skipSpace_cons r1 c r2 Es) as H2.
  destruct (Ascii.eqb c ","%char); [|reflexivity].
  rewrite (IH f2 r2) by lia. reflexivity.
Qed.

Lemma objectLoop_fuel (f1 : nat) :
  forall f2 s,
    (String.length s <= f1)%nat -> (1 <= f1)%nat ->
    (String.length s <= f2)%nat -> (1 <= f2)%nat ->
    objectLoop pv f1 s = objectLoop pv f2 s.
Proof.
  induction f1 as [|f1 IH]; intros f2 s Hs1 Hp1 Hs2 Hp2; [lia|].
  destruct f2 as [|f2]; [lia|]. cbn [objectLoop].
  destruct (skipSpace s) as [|c t] eqn:E0; [reflexivity|].
  pose proof (skipSpace_cons s c t E0) as H0.
  destruct (negb (Ascii.eqb c dquote)); [reflexivity|].
  destruct (inString 0 t) as [[key r1]|e] eqn:Ek; [|reflexivity].
  pose proof (inString_shrinks t 0 key r1 Ek) as H1.
  destruct (skipSpace r1) as [|c1 r2] eqn:E1; [reflexivity|].
  pose proof (skipSpace_cons r1 c1 r2 E1) as H2.
  destruct (negb (Ascii.eqb c1 ":"%char)); [reflexivity|].
  destruct (pv r2) as [[v r3]|e] eqn:Ev; [|reflexivity].
  pose proof (pv_shrinks r2 v r3 Ev) as H3.
  destruct (skipSpace r3) as [|c2 r4] eqn:E3; [reflexivity|].
  pose proof (skipSpace_cons r3 c2 r4 E3) as H4.
  destruct (Ascii.eqb c2 ","%char); [|reflexivity].
  rewrite (IH f2 r4) by lia. reflexivity.
Qed.

End Loops.

Lemma parseValue_shrinks (depth : nat) : shrinks (parseValue depth).
Proof.
  induction depth as [|d IH]; intros s v r H; cbn [parseValue] in H;
    destruct (skipSpace s) as [|c t] eqn:E0; try discriminate;
    pose proof (skipSpace_cons s c t E0) as H0;
    repeat match type of H with
      | (if ?b then _ else _) = _ => destruct b eqn:?
      end;
    try discriminate;
    try (destruct (skipSpace t) as [|c' t'] eqn:E1; [discriminate|];
         pose proof (skipSpace_cons t c' t' E1);
         destruct (Ascii.eqb c' _); [inversion H; subst; lia|]);
    repeat match type of H with
      | match ?x with Ok _ => _ | Err _ => _ end = _ => destruct x as [[? ?]|?] eqn:?
      | match ?x with Ok _ => _ | Err _ => _ end = _ => destruct x as [?|?] eqn:?
      end;
    try discriminate; inversion H; subst;
    repeat match goal with
      | E : inString _ _ = Ok _ |- _ => apply inString_shrinks in E
      | E : scanNumber _ = Ok _ |- _ => apply scanNumber_shrinks in E
      | E : expect _ _ = Ok _ |- _ => apply expect_length in E
      | E : objectLoop _ _ _ = Ok _ |- _ => apply (objectLoop_shrinks _ IH) in E
      | E : arrayLoop _ _ _ = Ok _ |- _ => apply (arrayLoop_shrinks _ IH) in E
      end;
    cbn [String.length] in *; lia.
Qed.

(** The bound [parseValue] gives the loops, the length of the input after
    the opening bracket, can be replaced by any larger one: it is never what
    ends a loop. *)
Lemma container_bound_irrelevant (depth fuel : nat) (s : string) :
  (String.length s <= fuel)%nat -> (1 <= String.length s)%nat ->
  objectLoop (parseValue depth) (String.length s) s = objectLoop (parseValue depth) fuel s
  /\ arrayLoop (parseValue depth) (String.length s) s = arrayLoop (parseValue depth) fuel s.
Proof.
  intros Hf Hs. split.
  - apply (objectLoop_fuel _ (parseValue_shrinks depth)); lia.
  - apply (arrayLoop_fuel _ (parseValue_shrinks depth)); lia.
Qed.

(** *** What reading produces is valid UTF-8 *)

Lemma rune_bytes_decode (bs : string) (r : Z) :
  rune_bytes bs r ->
  forall x, DecodeRuneInString (bs ++ x) = (r, String.length bs).
Proof.
  intros H x.
  destruct H as [c0 c1 H0 H1 | c0 c1 c2 H0 H1 Ha Hb H2 | c0 c1 c2 c3 H0 H1 Ha Hb H2 H3];
    cbn [String.append String.length]; unfold DecodeRuneInString, first, cont;
    settle (byteZ c0 <? RuneSelf) false;
    repeat match goal with
      | |- context [if ?b then _ else _] =>
          lazymatch b with
          | context [if _ then _ else _] => fail
          | _ => destruct b eqn:?
          end
      end;
    cbn [Nat.leb negb] in *;
    try reflexivity; exfalso; bool_facts; lia.
Qed.

Lemma EncodeRune_shape (r : Z) :
  (exists c, EncodeRune r = String c EmptyString /\ byteZ c < RuneSelf)
  \/ exists r', rune_bytes (EncodeRune r) r'.
Proof.
  assert (Herr : exists r', rune_bytes (encode3 RuneError) r').
  { eexists.
    change (encode3 RuneError) with (String "239" (String "191" (String "189" EmptyString))).
    apply rune3; change (byteZ "239") with 239; change (byteZ "191") with 191;
      change (byteZ "189") with 189; lia. }
  unfold EncodeRune.
  destruct ((0 <=? r) && (r <=? 0x7F)) eqn:E1.
  { left. exists (Zbyte r). split; [reflexivity|]. bool_facts.
    rewrite byteZ_Zbyte by lia. unfold RuneSelf. lia. }
  destruct ((0 <=? r) && (r <=? 0x7FF)) eqn:E2.
  { right. eexists. bool_facts.
    apply rune2; rewrite !byteZ_Zbyte by (Z.div_mod_to_equations; lia);
      Z.div_mod_to_equations; lia. }
  destruct ((r <? 0) || (MaxRune <? r) || ((surrogateMin <=? r) && (r <=? surrogateMax)))
    eqn:E3; [right; exact Herr|].
  unfold MaxRune, surrogateMin, surrogateMax in E3.
  destruct (r <=? 0xFFFF) eqn:E4.
  - right. eexists. unfold encode3.
    apply rune3; try intros ?; rewrite ?byteZ_Zbyte in * by (Z.div_mod_to_equations; lia);
      Z.div_mod_to_equations; lia.
  - right. eexists.
    apply rune4; try intros ?; rewrite ?byteZ_Zbyte in * by (Z.div_mod_to_equations; lia);
      Z.div_mod_to_equations; lia.
Qed.

Lemma ascii_valid (c : ascii) (x : string) :
  byteZ c < RuneSelf -> valid_from 0 (String c EmptyString ++ x) = valid_from 0 x.
Proof. intros H. cbn [String.append]. apply (proj1 (ascii_step c H)). Qed.

Lemma EncodeRune_valid (r : Z) (x : string) :
  valid_from 0 (EncodeRune r ++ x) = valid_from 0 x.
Proof.
  destruct (EncodeRune_shape r) as [(c & -> & Hc) | (r' & Hb)].
  - apply ascii_valid. exact Hc.
  - apply (proj1 (rune_step _ r' Hb (rune_bytes_decode _ r' Hb))).
Qed.

Lemma escapeStep_valid (t out : string) (k : nat) :
  escapeStep t = Emit out k -> forall x, valid_from 0 (out ++ x) = valid_from 0 x.
Proof.
  unfold escapeStep. intros H x. destruct t as [|e t1]; [discriminate|].
  repeat match type of H with
    | (if ?b then _ else _) = _ => destruct b eqn:?
    | match ?m with _ => _ end = _ => destruct m eqn:?
    end;
    try discriminate; inversion H; subst; clear H;
    try apply EncodeRune_valid;
    apply ascii_valid; unfold RuneSelf;
    try (rewrite byteZ_Zbyte; lia);
    repeat match goal with
      | E : (_ || _) = true |- _ => apply orb_true_iff in E; destruct E
      end; bool_facts; lia.
Qed.

Lemma unquoteStep_valid (s out : string) (k : nat) :
  unquoteStep s = Emit out k -> forall x, valid_from 0 (out ++ x) = valid_from 0 x.
Proof.
  unfold unquoteStep. intros H x. destruct s as [|c t]; [discriminate|].
  destruct (byteZ c =? 0x22); [discriminate|].
  destruct (byteZ c =? 0x5C); [apply (escapeStep_valid t out k H)|].
  destruct (byteZ c <? 0x20); [discriminate|].
  destruct (byteZ c <? RuneSelf) eqn:E.
  - inversion H; subst. apply ascii_valid. bool_facts. exact E.
  - destruct (DecodeRuneInString (String c t)) as [rr size].
    inversion H; subst. apply EncodeRune_valid.
Qed.

(** Whatever text a string literal is read from, the string read is valid
    UTF-8. *)
Lemma inString_valid (s : string) :
  forall skip v r, inString skip s = Ok (v, r) -> ValidString v = true.
Proof.
  unfold ValidString.
  induction s as [|c t IH]; intros skip v r H; cbn [inString] in H; [discriminate|].
  destruct skip as [|k]; [|apply (IH k v r H)].
  destruct (unquoteStep (String c t)) as [|out k|e] eqn:Es; try discriminate.
  - inversion H; subst. reflexivity.
  - destruct (inString k t) as [[v' r']|e] eqn:E; [|discriminate].
    inversion H; subst. rewrite (unquoteStep_valid _ _ _ Es). apply (IH k v' r E).
Qed.

Lemma ParseInt_range (s : string) (n : Z) :
  ParseInt s = Some n -> minInt64 <= n <= maxInt64.
Proof.
  unfold ParseInt. destruct s as [|c t]; [discriminate|].
  destruct (if Ascii.eqb c "+"%char then _ else _) as [neg body].
  destruct body; [discriminate|].
  destruct (digitsValue 0 _) as [un|]; [|discriminate].
  destruct (_ && _) eqn:E; [|discriminate].
  intros H. inversion H; subst. bool_facts. lia.
Qed.

Lemma parseValue_string_valid (depth : nat) (s x r : string) :
  parseValue depth s = Ok (JString x, r) -> ValidString x = true.
Proof.
  intros H.
  destruct depth; cbn [parseValue] in H;
    destruct (skipSpace s) as [|c t]; try discriminate;
    repeat match type of H with
      | (if ?b then _ else _) = _ => destruct b eqn:?
      end;
    try discriminate;
    try (destruct (skipSpace t) as [|c' t']; [discriminate|];
         destruct (Ascii.eqb c' _); [discriminate|]);
    repeat match type of H with
      | match ?m with Ok _ => _ | Err _ => _ end = _ => destruct m as [[? ?]|?] eqn:?
      | match ?m with Ok _ => _ | Err _ => _ end = _ => destruct m as [?|?] eqn:?
      end;
    try discriminate; inversion H; subst;
    eapply inString_valid; eassumption.
Qed.

Lemma objectLoop_valid (pv : string -> result (value * string)) (fuel : nat) :
  (forall s x r, pv s = Ok (JString x, r) -> ValidString x = true) ->
  forall s ms r, objectLoop pv fuel s = Ok (ms, r) -> memberStringsValid ms.
Proof.
  intros Hpv. unfold memberStringsValid.
  induction fuel as [|fuel IH]; intros s ms r H; cbn [objectLoop] in H; [discriminate|].
  destruct (skipSpace s) as [|c t]; [discriminate|].
  destruct (negb (Ascii.eqb c dquote)); [discriminate|].
  destruct (inString 0 t) as [[key r1]|e]; [|discriminate].
  destruct (skipSpace r1) as [|c1 r2]; [discriminate|].
  destruct (negb (Ascii.eqb c1 ":"%char)); [discriminate|].
  destruct (pv r2) as [[v r3]|e] eqn:Ev; [|discriminate].
  assert (Hv : forall x, snd (key, v) = JString x -> ValidString x = true).
  { cbn [snd]. intros x ->. apply (Hpv r2 x r3 Ev). }
  destruct (skipSpace r3) as [|c2 r4]; [discriminate|].
  destruct (Ascii.eqb c2 ","%char).
  - destruct (objectLoop pv fuel r4) as [[ms' r5]|e] eqn:El; [|discriminate].
    inversion H; subst. constructor; [exact Hv | apply (IH r4 ms' r El)].
  - destruct (Ascii.eqb c2 "}"%char); [|discriminate].
    inversion H; subst. constructor; [exact Hv | constructor].
Qed.

(** The strings of the members of a scanned object are valid UTF-8. *)
Lemma readValue_object_valid (input : string) (ms : list (string * value)) :
  readValue input = Ok (JObject ms) -> memberStringsValid ms.
Proof.
  unfold readValue. destruct (skipSpace input) as [|c0 t0]; [discriminate|].
  destruct (parseValue maxNestingDepth input) as [[v r]|e] eqn:Ep; [|discriminate].
  intros H. inversion H; subst. clear H.
  destruct maxNestingDepth as [|d]; cbn [parseValue] in Ep;
    destruct (skipSpace input) as [|c t]; try discriminate;
    repeat match type of Ep with
      | (if ?b then _ else _) = _ => destruct b eqn:?
      end;
    try discriminate;
    try (destruct (skipSpace t) as [|c' t']; [discriminate|];
         destruct (Ascii.eqb c' _); [inversion Ep; subst; constructor|]);
    repeat match type of Ep with
      | match ?m with Ok _ => _ | Err _ => _ end = _ => destruct m as [[? ?]|?] eqn:?
      | match ?m with Ok _ => _ | Err _ => _ end = _ => destruct m as [?|?] eqn:?
      end;
    try discriminate; inversion Ep; subst;
    eapply (objectLoop_valid (parseValue d)); try eassumption;
    apply parseValue_string_valid.
Qed.

End json_facts.

(** ** The lighting client's retry loop *)
Module hue_facts.

Import hue.

Lemma attempts_non_ok (w : World) (url : string) (p : payload) (n : nat) (a : Z)
      (last : option error) (st : Z) (body : string) :
  http_NewRequest w "PUT" url = true ->
  http_Do w a = Resp st body ->
  st <> StatusOK ->
  attempts w url p (S n) a last
  = (Put a url p :: Sleep (a * 500 * Millisecond)
       :: fst (attempts w url p n (a + 1)
                 (Some (ErrWrapped "received non-OK HTTP status" a (ErrStatus body st)))),
     snd (attempts w url p n (a + 1)
            (Some (ErrWrapped "received non-OK HTTP status" a (ErrStatus body st))))).
Proof.
  intros Hreq Hdo Hst. cbn [attempts]. rewrite Hreq, Hdo. cbn [negb].
  apply Z.eqb_neq in Hst. rewrite Hst. cbn [negb].
  destruct (attempts w url p n (a + 1) _) as [tr e]. reflexivity.
Qed.

(** C5, as the code has it: when the bridge answers every attempt with a
    status other than 200, [SetState] makes exactly three requests,
    waits attempt x 500ms after each of them, the third included, and
    returns the error of the third attempt. *)
Theorem SetState_all_non_ok (w : World) (c : Client) (on : bool) (bri : Z)
        (xy : list float64) (url : string) :
  url_JoinPath w "http://" [BridgeIP c; "api"; Username c; "groups"; DefaultLight c; "action"]
  = Ok url ->
  forallb isFinite xy = true ->
  http_NewRequest w "PUT" url = true ->
  (forall a, exists st body, http_Do w a = Resp st body /\ st <> StatusOK) ->
  exists st body,
    http_Do w 3 = Resp st body
    /\ SetState w c on bri xy
       = ([Put 1 url {| p_on := on; p_bri := bri; p_xy := xy |};
           Sleep (1 * 500 * Millisecond);
           Put 2 url {| p_on := on; p_bri := bri; p_xy := xy |};
           Sleep (2 * 500 * Millisecond);
           Put 3 url {| p_on := on; p_bri := bri; p_xy := xy |};
           Sleep (3 * 500 * Millisecond)],
          Some (ErrWrapped "received non-OK HTTP status" 3 (ErrStatus body st)))
    /\ List.length (requests (fst (SetState w c on bri xy))) = 3%nat
    /\ sleeps (fst (SetState w c on bri xy))
       = [1 * 500 * Millisecond; 2 * 500 * Millisecond; 3 * 500 * Millisecond].
Proof.
  intros Hurl Hxy Hreq Hdo.
  destruct (Hdo 1) as (st1 & b1 & H1 & N1).
  destruct (Hdo 2) as (st2 & b2 & H2 & N2).
  destruct (Hdo 3) as (st3 & b3 & H3 & N3).
  exists st3, b3. split; [exact H3|].
  assert (E : SetState w c on bri xy
              = ([Put 1 url {| p_on := on; p_bri := bri; p_xy := xy |};
                  Sleep (1 * 500 * Millisecond);
                  Put 2 url {| p_on := on; p_bri := bri; p_xy := xy |};
                  Sleep (2 * 500 * Millisecond);
                  Put 3 url {| p_on := on; p_bri := bri; p_xy := xy |};
                  Sleep (3 * 500 * Millisecond)],
                 Some (ErrWrapped "received non-OK HTTP status" 3 (ErrStatus b3 st3)))).
  { unfold SetState. rewrite Hurl. unfold json_Marshal. cbn [p_xy]. rewrite Hxy.
    unfold maxRetries.
    rewrite (attempts_non_ok w url _ 2 1 None st1 b1 Hreq H1 N1).
    change (1 + 1) with 2.
    rewrite (attempts_non_ok w url _ 1 2 _ st2 b2 Hreq H2 N2).
    change (2 + 1) with 3.
    rewrite (attempts_non_ok w url _ 0 3 _ st3 b3 Hreq H3 N3).
    reflexivity. }
  rewrite E. repeat split.
Qed.

Lemma SetState_all_non_ok_witness :
  exists st body,
    http_Do (always 500) 3 = Resp st body
    /\ SetState (always 500) samples.bridge true 80 []
       = ([Put 1 "http://10.0.0.2/api/u/groups/1/action" {| p_on := true; p_bri := 80; p_xy := [] |};
           Sleep (1 * 500 * Millisecond);
           Put 2 "http://10.0.0.2/api/u/groups/1/action" {| p_on := true; p_bri := 80; p_xy := [] |};
           Sleep (2 * 500 * Millisecond);
           Put 3 "http://10.0.0.2/api/u/groups/1/action" {| p_on := true; p_bri := 80; p_xy := [] |};
           Sleep (3 * 500 * Millisecond)],
          Some (ErrWrapped "received non-OK HTTP status" 3 (ErrStatus body st)))
    /\ List.length (requests (fst (SetState (always 500) samples.bridge true 80 []))) = 3%nat
    /\ sleeps (fst (SetState (always 500) samples.bridge true 80 []))
       = [1 * 500 * Millisecond; 2 * 500 * Millisecond; 3 * 500 * Millisecond].
Proof.
  apply (SetState_all_non_ok (always 500) samples.bridge true 80 []
           "http://10.0.0.2/api/u/groups/1/action").
  - reflexivity.
  - reflexivity.
  - reflexivity.
  - intros a. exists 500, EmptyString. split; [reflexivity | discriminate].
Defined.

(** C5 as stated fails: with a bridge that answers 500 to every attempt,
    three requests are made and an error is returned, but the run also
    waits 1500ms after the third attempt. *)
Lemma SetState_waits_after_last_attempt :
  (forall a, http_Do (always 500) a = Resp 500 EmptyString)
  /\ List.length (requests (fst (SetState (always 500) samples.bridge true 80 []))) = 3%nat
  /\ snd (SetState (always 500) samples.bridge true 80 []) <> None
  /\ ~ waits_between_attempts_only (fst (SetState (always 500) samples.bridge true 80 [])).
Proof.
  split; [reflexivity|]. split; [reflexivity|]. split; [discriminate|].
  intros [Hs He]. vm_compute in He. discriminate.
Qed.

(** *** Every run of the loop *)

Lemma answeredOK_dec (w : World) (a : Z) :
  answeredOK w a
  \/ (http_Do w a = DoErr \/ exists st body, http_Do w a = Resp st body /\ st <> StatusOK).
Proof.
  unfold answeredOK. destruct (http_Do w a) as [|st body]; [right; left; reflexivity|].
  destruct (Z.eq_dec st StatusOK) as [->|Hne].
  - left. exists body. reflexivity.
  - right. right. exists st, body. split; [reflexivity | exact Hne].
Qed.

(** One turn of the loop, by what the bridge answers. *)
Lemma attempts_step (w : World) (url : string) (p : payload) (n : nat) (a : Z)
      (last : option error) :
  http_NewRequest w "PUT" url = true ->
  (answeredOK w a /\ attempts w url p (S n) a last = ([Put a url p], None))
  \/ (~ answeredOK w a
      /\ exists last',
           attempts w url p (S n) a last
           = (Put a url p :: Sleep (a * 500 * Millisecond)
                :: fst (attempts w url p n (a + 1) (Some last')),
              snd (attempts w url p n (a + 1) (Some last')))).
Proof.
  intros Hreq. cbn [attempts]. rewrite Hreq. cbn [negb]. unfold answeredOK.
  destruct (http_Do w a) as [|st body].
  - right. split; [intros (b & Hb); discriminate Hb|].
    exists (ErrWrapped "failed to send HTTP request" a ErrNet).
    destruct (attempts w url p n (a + 1) _) as [tr e]. reflexivity.
  - destruct (Z.eqb_spec st StatusOK) as [->|Hne]; cbn [negb].
    + left. split; [exists body; reflexivity | reflexivity].
    + right. split; [intros (b & Hb); inversion Hb; contradiction|].
      exists (ErrWrapped "received non-OK HTTP status" a (ErrStatus body st)).
      destruct (attempts w url p n (a + 1) _) as [tr e]. reflexivity.
Qed.

(** X1: whatever the bridge and the inputs, [SetState] makes at most three
    requests, each a PUT of the given state numbered 1 to 3, and waits
    at most 3000ms in all. *)
Theorem SetState_bounded (w : World) (c : Client) (on : bool) (bri : Z) (xy : list float64) :
  (List.length (requests (fst (SetState w c on bri xy))) <= 3)%nat
  /\ (forall a url body,
        In (Put a url body) (fst (SetState w c on bri xy)) ->
        1 <= a <= 3
        /\ body = {| p_on := on; p_bri := bri; p_xy := xy |}
        /\ url_JoinPath w "http://"
             [BridgeIP c; "api"; Username c; "groups"; DefaultLight c; "action"] = Ok url)
  /\ 0 <= totalSleep (fst (SetState w c on bri xy)) <= 3000 * Millisecond.
Proof.
  assert (Hnone : forall P : Z -> string -> payload -> Prop,
             (0 <= 3)%nat
             /\ (forall a url body, In (Put a url body) [] -> P a url body)
             /\ 0 <= totalSleep [] <= 3000 * Millisecond).
  { intros P. split; [lia|]. split; [intros a u b []|]. unfold totalSleep, Millisecond. cbn. lia. }
  unfold SetState.
  destruct (url_JoinPath w _ _) as [url|e] eqn:Hurl; [|apply Hnone].
  unfold json_Marshal. cbn [p_xy].
  destruct (forallb isFinite xy); [|apply Hnone].
  unfold maxRetries.
  destruct (http_NewRequest w "PUT" url) eqn:Hreq.
  2: { cbn [attempts]. rewrite Hreq. apply Hnone. }
  set (p := {| p_on := on; p_bri := bri; p_xy := xy |}).
  assert (Hin : forall tr : list event,
             Forall (fun e => match e with
                              | Put a u b => 1 <= a <= 3 /\ b = p /\ Ok url = Ok u
                              | Sleep _ => True
                              end) tr ->
             forall a u b, In (Put a u b) tr ->
                           1 <= a <= 3 /\ b = p /\ @Ok string url = Ok u).
  { intros tr Hall a u b H. rewrite Forall_forall in Hall.
    apply list_elem_of_In in H. apply (Hall _ H). }
  destruct (attempts_step w url p 2 1 None Hreq) as [[_ ->]|[_ (l1 & ->)]].
  { cbn [fst]. split; [apply Nat.leb_le; reflexivity|]. split.
    - apply Hin. repeat constructor; lia.
    - unfold totalSleep, Millisecond. cbn. lia. }
  change (1 + 1) with 2.
  destruct (attempts_step w url p 1 2 (Some l1) Hreq) as [[_ ->]|[_ (l2 & ->)]].
  { cbn [fst]. split; [apply Nat.leb_le; reflexivity|]. split.
    - apply Hin. repeat constructor; lia.
    - unfold totalSleep, Millisecond. cbn. lia. }
  change (2 + 1) with 3.
  destruct (attempts_step w url p 0 3 (Some l2) Hreq) as [[_ ->]|[_ (l3 & ->)]].
  { cbn [fst]. split; [apply Nat.leb_le; reflexivity|]. split.
    - apply Hin. repeat constructor; lia.
    - unfold totalSleep, Millisecond. cbn. lia. }
  cbn [attempts fst]. split; [apply Nat.leb_le; reflexivity|]. split.
  - apply Hin. repeat constructor; lia.
  - unfold totalSleep, Millisecond. cbn. lia.
Qed.

(** X2: [SetState] returns nil exactly when the URL and the payload
    could be built, the request could be created, and one of the first
    three attempts was answered with status 200; the loop then stopped at
    that answer, without a wait after it. *)
Theorem SetState_succeeds_iff (w : World) (c : Client) (on : bool) (bri : Z)
        (xy : list float64) :
  (snd (SetState w c on bri xy) = None
   <-> exists url,
         url_JoinPath w "http://"
           [BridgeIP c; "api"; Username c; "groups"; DefaultLight c; "action"] = Ok url
         /\ forallb isFinite xy = true
         /\ http_NewRequest w "PUT" url = true
         /\ (answeredOK w 1 \/ answeredOK w 2 \/ answeredOK w 3))
  /\ (snd (SetState w c on bri xy) = None ->
      ends_with_sleep (fst (SetState w c on bri xy)) = false
      /\ exists a, answeredOK w a
                   /\ Z.of_nat (List.length (requests (fst (SetState w c on bri xy)))) = a
                   /\ forall a', 1 <= a' < a -> ~ answeredOK w a').
Proof.
  unfold SetState.
  destruct (url_JoinPath w _ _) as [url|e] eqn:Hurl.
  2: { split; [split|]; try discriminate. intros (u & Hu & _). discriminate Hu. }
  unfold json_Marshal. cbn [p_xy].
  destruct (forallb isFinite xy) eqn:Hxy.
  2: { split; [split|]; try discriminate. intros (u & _ & Hf & _). discriminate Hf. }
  unfold maxRetries.
  destruct (http_NewRequest w "PUT" url) eqn:Hreq.
  2: { cbn [attempts]. rewrite Hreq. cbn [negb snd fst].
       split; [split|]; try discriminate.
       intros (u & Hu & _ & Hr & _). inversion Hu; subst. congruence. }
  set (p := {| p_on := on; p_bri := bri; p_xy := xy |}).
  assert (Hsetup : forall Q : Prop, Q ->
            exists u, Ok url = Ok u /\ true = true
                      /\ http_NewRequest w "PUT" u = true /\ Q).
  { intros Q HQ. exists url. auto. }
  assert (Hsteps : forall a', 1 <= a' < 1 -> ~ answeredOK w a') by (intros; lia).
  destruct (attempts_step w url p 2 1 None Hreq) as [[H1 ->]|[H1 (l1 & ->)]].
  { cbn [snd fst]. split; [split; auto|]. intros _. split; [reflexivity|].
    exists 1. repeat split; auto. }
  change (1 + 1) with 2.
  destruct (attempts_step w url p 1 2 (Some l1) Hreq) as [[H2 ->]|[H2 (l2 & ->)]].
  { cbn [snd fst]. split; [split; auto|]. intros _. split; [reflexivity|].
    exists 2. repeat split; auto. intros a' Ha. replace a' with 1 by lia. exact H1. }
  change (2 + 1) with 3.
  destruct (attempts_step w url p 0 3 (Some l2) Hreq) as [[H3 ->]|[H3 (l3 & ->)]].
  { cbn [snd fst]. split; [split; auto|]. intros _. split; [reflexivity|].
    exists 3. repeat split; auto. intros a' Ha.
    assert (a' = 1 \/ a' = 2) as [->| ->] by lia; assumption. }
  cbn [attempts snd fst]. split; [split|]; try discriminate.
  intros (u & _ & _ & _ & [H|[H|H]]); contradiction.
Qed.

End hue_facts.

(** ** The OAuth client: refresh and the callback listener *)
Module spotify_facts.

Import json spotify tactics.
Local Open Scope list_scope.

(** *** Refresh *)

Lemma store_keeps_RefreshToken (f : field) (v : value) (t : Token) :
  f <> FRefreshToken -> RefreshToken (fst (store f v t)) = RefreshToken t.
Proof.
  intros Hf. unfold store.
  destruct v; destruct f; try reflexivity; try congruence.
  destruct (ParseInt literal); reflexivity.
Qed.

Lemma storeMembers_keeps_RefreshToken (ms : list (string * value)) :
  (forall k v, In (k, v) ms -> lookupField k <> Some FRefreshToken) ->
  forall t saved,
    RefreshToken (fst (storeMembers ms t saved)) = RefreshToken t.
Proof.
  induction ms as [|[k v] ms IH]; intros Hms t saved; [reflexivity|].
  cbn [storeMembers].
  assert (Hk : lookupField k <> Some FRefreshToken) by (apply (Hms k v); left; reflexivity).
  assert (Hrest : forall k' v', In (k', v') ms -> lookupField k' <> Some FRefreshToken)
    by (intros k' v' Hin; apply (Hms k' v'); right; exact Hin).
  destruct (lookupField k) as [f|].
  - pose proof (store_keeps_RefreshToken f v t) as Hst.
    destruct (store f v t) as [t' e]. cbn [fst] in Hst.
    rewrite (IH Hrest). apply Hst. congruence.
  - apply (IH Hrest).
Qed.

(** A response whose object has no member stored in the refresh_token
    field decodes to a token with an empty refresh_token. *)
Lemma Decode_lacking_refresh_token (body : string) (ms : list (string * value)) :
  readValue body = Ok (JObject ms) ->
  (forall k v, In (k, v) ms -> lookupField k <> Some FRefreshToken) ->
  RefreshToken (fst (Decode body)) = EmptyString.
Proof.
  intros Hread Hms. unfold Decode. rewrite Hread. cbn [unmarshal].
  rewrite (storeMembers_keeps_RefreshToken ms Hms). reflexivity.
Qed.

(** C1: when the provider's response decodes, without error, to a token
    with an empty refresh_token, [RefreshAccessToken] returns that token
    with the refresh_token it was called with; the result's refresh_token
    is not empty when the input is not. *)
Theorem RefreshAccessToken_backfills (w : World) (c : Client) (refreshToken : string)
        (status : Z) (body : string) (decoded : Token) :
  http_NewRequest w "POST" tokenURL = true ->
  http_Do w (refreshRequest c refreshToken) = Resp status body ->
  Decode body = (decoded, None) ->
  RefreshToken decoded = EmptyString ->
  refreshToken <> EmptyString ->
  exists token,
    RefreshAccessToken w c refreshToken = Ok token
    /\ RefreshToken token = refreshToken
    /\ RefreshToken token <> EmptyString
    /\ AccessToken token = AccessToken decoded
    /\ ExpiresIn token = ExpiresIn decoded
    /\ TokenType token = TokenType decoded
    /\ Scope token = Scope decoded.
Proof.
  intros Hreq Hdo Hdec Hempty Hin.
  exists (withRefreshToken refreshToken decoded).
  unfold RefreshAccessToken. rewrite Hreq, Hdo, Hdec, Hempty. cbn.
  repeat split; exact Hin.
Qed.

Lemma RefreshAccessToken_backfills_witness :
  exists token,
    RefreshAccessToken (samples.provider 200 samples.refreshedBody false) samples.client "r1"
    = Ok token
    /\ RefreshToken token = "r1"
    /\ RefreshToken token <> EmptyString
    /\ AccessToken token = "new"
    /\ ExpiresIn token = 3600
    /\ TokenType token = "Bearer"
    /\ Scope token = "s".
Proof.
  apply (RefreshAccessToken_backfills
           (samples.provider 200 samples.refreshedBody false) samples.client "r1"
           200 samples.refreshedBody
           {| AccessToken := "new"; RefreshToken := ""; ExpiresIn := 3600;
              TokenType := "Bearer"; Scope := "s" |}).
  - reflexivity.
  - reflexivity.
  - vm_compute. reflexivity.
  - reflexivity.
  - discriminate.
Defined.

(** *** The callback handler *)

Lemma callbackHandler_mismatch (c : Client) (query : Values) :
  Get query "state" <> State c ->
  callbackHandler c query = [WriteHeader StatusBadRequest; Write mismatchBody].
Proof.
  intros H. unfold callbackHandler.
  destruct (String.eqb_spec (Get query "state") (State c)) as [E|E]; [contradiction|].
  reflexivity.
Qed.

Lemma step_unresolved (w : World) (c : Client) (s s' : state) (l : label) :
  (forall query, l = DoRequest query -> Get query "state" <> State c) ->
  unresolved s -> step w c s l = Some s' -> unresolved s'.
Proof.
  intros Hl (Hm & Hl' & Ht & Hh & He) Hstep.
  destruct l; cbn [step] in Hstep.
  - destruct (main s) eqn:E; try discriminate.
    destruct (mux_accepts w _); inversion Hstep; subst; clear Hstep; unresolved_goal.
  - destruct (listener s) eqn:E; try discriminate.
    inversion Hstep; subst; clear Hstep. unresolved_goal.
    destruct (net_Listen w _); discriminate.
  - destruct (main s) eqn:E; try discriminate.
    inversion Hstep; subst; clear Hstep. unresolved_goal.
  - destruct (listener s) eqn:E; try discriminate.
    inversion Hstep; subst; clear Hstep. unresolved_goal.
    apply Forall_app; split; [exact Hh|].
    constructor; [|constructor].
    left. apply callbackHandler_mismatch. apply Hl. reflexivity.
  - destruct (handlers s !! i) as [acts|] eqn:E; [|discriminate].
    pose proof (Forall_lookup_1 _ _ _ _ Hh E) as Hr.
    destruct Hr as [Hr|[Hr|Hr]]; subst acts; inversion Hstep; subst; clear Hstep;
      unresolved_goal.
    + apply Forall_insert; [exact Hh|]. right; left; reflexivity.
    + apply Forall_insert; [exact Hh|]. right; right; reflexivity.
  - destruct (main s) eqn:E; try discriminate.
    destruct (handlers s !! i) as [acts|] eqn:E'; [|discriminate].
    pose proof (Forall_lookup_1 _ _ _ _ Hh E') as Hr.
    destruct Hr as [Hr|[Hr|Hr]]; subst acts; discriminate.
  - rewrite Ht in Hstep. discriminate.
  - destruct (main s) eqn:E; try discriminate.
    destruct Hm.
Qed.

Lemma run_unresolved (w : World) (c : Client) (ls : list label) :
  forall s s',
    Forall (fun query => Get query "state" <> State c) (requestsOf ls) ->
    unresolved s -> run w c s ls = Some s' -> unresolved s'.
Proof.
  induction ls as [|l ls IH]; intros s s' Hreq Hs Hrun.
  - inversion Hrun; subst. exact Hs.
  - cbn [run] in Hrun. destruct (step w c s l) as [s1|] eqn:E; [|discriminate].
    apply (IH s1 s'); [| |exact Hrun].
    + destruct l; cbn [requestsOf] in Hreq; try exact Hreq.
      inversion Hreq; assumption.
    + apply (step_unresolved w c s s1 l); [|exact Hs|exact E].
      intros query ->. cbn [requestsOf] in Hreq. inversion Hreq; assumption.
Qed.

Lemma init_unresolved : unresolved init.
Proof. unfold unresolved, init; cbn. repeat split; auto. Qed.

Lemma insert_last {A} (l : list A) (x y : A) :
  <[List.length l := y]> (l ++ [x]) = l ++ [y].
Proof.
  rewrite (insert_app_r_alt l [x] (List.length l) y) by lia.
  rewrite Nat.sub_diag. reflexivity.
Qed.

(** Serving a request with a wrong state to its end, from any state in
    which the server runs. *)
Lemma serve_mismatch (w : World) (c : Client) (query : Values) (s : state) :
  Get query "state" <> State c ->
  listener s = LServing ->
  run w c s [DoRequest query; DoHandler (List.length (handlers s));
             DoHandler (List.length (handlers s))]
  = Some {| main := main s; listener := listener s;
            handlers := handlers s ++ [[]];
            timers := timers s;
            events := EvWrite mismatchBody :: EvWriteHeader StatusBadRequest :: events s |}.
Proof.
  intros Hq Hl. cbn [run step]. rewrite Hl.
  rewrite (callbackHandler_mismatch c query Hq).
  cbn [handlers main listener timers events].
  rewrite (list_lookup_middle (handlers s) [] _ (List.length (handlers s)) eq_refl).
  cbn [handlers main listener timers events].
  rewrite insert_last.
  rewrite (list_lookup_middle (handlers s) [] _ (List.length (handlers s)) eq_refl).
  cbn [handlers main listener timers events].
  rewrite insert_last. reflexivity.
Qed.

(** C4: a callback request whose state differs from the client's is
    answered with status 400; its handler neither sends on the code
    channel nor schedules the shutdown of the server, so serving it
    leaves the main flow, the listener and the timers as they were, and
    nothing can be received from it; and as long as every request
    delivered has a wrong state, [AuthCode] stays before or in its
    receive and the server is not shut down. *)
Theorem state_mismatch_never_resolves (w : World) (c : Client) (query : Values) :
  Get query "state" <> State c ->
  responseStatus (callbackHandler c query) = Some StatusBadRequest
  /\ existsb isSend (callbackHandler c query) = false
  /\ existsb isShutdown (callbackHandler c query) = false
  /\ (forall s, listener s = LServing ->
        exists s',
          run w c s [DoRequest query; DoHandler (List.length (handlers s));
                     DoHandler (List.length (handlers s))] = Some s'
          /\ main s' = main s /\ listener s' = listener s /\ timers s' = timers s
          /\ events s' = EvWrite mismatchBody :: EvWriteHeader StatusBadRequest :: events s
          /\ step w c s' (DoReceive (List.length (handlers s))) = None)
  /\ (forall ls s,
        In query (requestsOf ls) ->
        Forall (fun query' => Get query' "state" <> State c) (requestsOf ls) ->
        run w c init ls = Some s ->
        waiting (main s) /\ listener s <> LShutdown
        /\ forall code, ~ In (EvReceive code) (events s)).
Proof.
  intros Hq. rewrite (callbackHandler_mismatch c query Hq).
  split; [reflexivity|]. split; [reflexivity|]. split; [reflexivity|]. split.
  - intros s Hl. eexists. split; [apply (serve_mismatch w c query s Hq Hl)|].
    cbn [main listener timers events handlers step].
    repeat split.
    rewrite (list_lookup_middle (handlers s) [] _ (List.length (handlers s)) eq_refl).
    destruct (main s); reflexivity.
  - intros ls s _ Hall Hrun.
    destruct (run_unresolved w c ls init s Hall init_unresolved Hrun)
      as (Hm & Hl & _ & _ & He).
    split; [exact Hm|]. split; [exact Hl|].
    intros code Hin.
    rewrite Forall_forall in He. apply list_elem_of_In in Hin. apply (He _ Hin).
Qed.

Lemma state_mismatch_never_resolves_witness :
  responseStatus (callbackHandler samples.client samples.forgedQuery) = Some StatusBadRequest
  /\ existsb isSend (callbackHandler samples.client samples.forgedQuery) = false
  /\ existsb isShutdown (callbackHandler samples.client samples.forgedQuery) = false
  /\ (forall s, listener s = LServing ->
        exists s',
          run (samples.provider 200 samples.refreshedBody false) samples.client s
            [DoRequest samples.forgedQuery; DoHandler (List.length (handlers s));
             DoHandler (List.length (handlers s))] = Some s'
          /\ main s' = main s /\ listener s' = listener s /\ timers s' = timers s
          /\ events s' = EvWrite mismatchBody :: EvWriteHeader StatusBadRequest :: events s
          /\ step (samples.provider 200 samples.refreshedBody false) samples.client s'
               (DoReceive (List.length (handlers s))) = None)
  /\ (forall ls s,
        In samples.forgedQuery (requestsOf ls) ->
        Forall (fun query' => Get query' "state" <> State samples.client) (requestsOf ls) ->
        run (samples.provider 200 samples.refreshedBody false) samples.client init ls = Some s ->
        waiting (main s) /\ listener s <> LShutdown
        /\ forall code, ~ In (EvReceive code) (events s)).
Proof.
  apply (state_mismatch_never_resolves
           (samples.provider 200 samples.refreshedBody false) samples.client
           samples.forgedQuery).
  vm_compute. discriminate.
Defined.

(** *** The listener *)

Lemma step_parked (w : World) (c : Client) (s s' : state) (l : label) :
  net_Listen w (getHostPort w (RedirectURI c)) = false ->
  parked s -> step w c s l = Some s' -> parked s'.
Proof.
  intros Hbind (Hm & Hh & Ht & Hl1 & Hl2) Hstep.
  destruct l; cbn [step] in Hstep.
  - destruct (main s) eqn:E; try discriminate.
    destruct (mux_accepts w _); inversion Hstep; subst; clear Hstep;
      unfold parked; cbn; repeat split; auto; discriminate.
  - destruct (listener s) eqn:E; try discriminate.
    inversion Hstep; subst; clear Hstep. rewrite Hbind.
    unfold parked; cbn; repeat split; auto; discriminate.
  - destruct (main s) eqn:E; try discriminate.
    inversion Hstep; subst; clear Hstep.
    unfold parked; cbn; repeat split; auto.
  - destruct (listener s) eqn:E; try discriminate. contradiction.
  - rewrite Hh in Hstep. rewrite lookup_nil in Hstep. discriminate.
  - rewrite Hh in Hstep. rewrite lookup_nil in Hstep.
    destruct (main s); discriminate.
  - rewrite Ht in Hstep. discriminate.
  - destruct (main s) eqn:E; try discriminate. destruct Hm.
Qed.

Lemma run_parked (w : World) (c : Client) (ls : list label) :
  net_Listen w (getHostPort w (RedirectURI c)) = false ->
  forall s s', parked s -> run w c s ls = Some s' -> parked s'.
Proof.
  intros Hbind. induction ls as [|l ls IH]; intros s s' Hs Hrun.
  - inversion Hrun; subst. exact Hs.
  - cbn [run] in Hrun. destruct (step w c s l) as [s1|] eqn:E; [|discriminate].
    apply (IH s1 s'); [|exact Hrun].
    apply (step_parked w c s s1 l Hbind Hs E).
Qed.

Lemma init_parked : parked init.
Proof. unfold parked, init; cbn. repeat split; auto; discriminate. Qed.

(** When the address of the redirect URI cannot be bound, the listener
    goroutine returns and drops the error: [AuthCode] never gets past its
    receive, so it returns nothing, be it a token or an error. *)
Lemma bind_failure_never_returns (w : World) (c : Client) :
  net_Listen w (getHostPort w (RedirectURI c)) = false ->
  forall token err, ~ AuthCode_returns w c token err.
Proof.
  intros Hbind token err (s & (ls & Hrun) & Hmain).
  destruct (run_parked w c ls Hbind init s init_parked Hrun) as (Hm & _).
  rewrite Hmain in Hm. exact Hm.
Qed.

(** C8 fails on the code: on the sample provider with an address that
    cannot be bound, [AuthCode] returns no error in any execution; the
    execution that starts the listener and opens the browser ends in a
    state where the main flow waits for a code, the listener goroutine is
    gone, and no move is possible. *)
Theorem bind_failure_blocks_AuthCode :
  net_Listen (samples.provider 200 samples.refreshedBody true)
    (getHostPort (samples.provider 200 samples.refreshedBody true)
       (RedirectURI samples.client)) = false
  /\ (forall token err,
        ~ AuthCode_returns (samples.provider 200 samples.refreshedBody true)
            samples.client token err)
  /\ exists s,
       run (samples.provider 200 samples.refreshedBody true) samples.client init
         [DoRegister; DoListen; DoOpenBrowser] = Some s
       /\ main s = MAwaitingCode
       /\ listener s = LBindFailed
       /\ forall l,
            step (samples.provider 200 samples.refreshedBody true) samples.client s l = None.
Proof.
  split; [reflexivity|]. split.
  - apply bind_failure_never_returns. reflexivity.
  - eexists. split; [reflexivity|]. split; [reflexivity|]. split; [reflexivity|].
    intros l. destruct l; try reflexivity.
Qed.





(** *** Where the code comes from *)

Lemma delivers_more (c : Client) (d1 d2 : list Values) (code : string) :
  delivers c d1 code -> delivers c (d1 ++ d2) code.
Proof.
  intros (q & Hin & Hs & Hc). exists q. split; [apply in_or_app; left; exact Hin | auto].
Qed.

Lemma justified_more (w : World) (c : Client) (d1 d2 : list Values) (s : state) :
  justified w c d1 s -> justified w c (d1 ++ d2) s.
Proof.
  intros [Hh Hm]. split.
  - eapply Forall_impl; [exact Hh|]. intros acts Ha code Hin.
    apply delivers_more. apply (Ha code Hin).
  - destruct (main s); auto.
    + apply delivers_more. exact Hm.
    + destruct Hm as (code & Hd & He). exists code. split; [apply delivers_more; exact Hd | exact He].
Qed.

Lemma sendsDelivered_tail (c : Client) (d : list Values) (a : action) (rest : list action) :
  sendsDelivered c d (a :: rest) -> sendsDelivered c d rest.
Proof. intros H code Hin. apply (H code). right. exact Hin. Qed.

Lemma sendsDelivered_new (c : Client) (d : list Values) (query : Values) :
  sendsDelivered c (d ++ [query]) (callbackHandler c query).
Proof.
  intros code Hin. unfold callbackHandler in Hin.
  destruct (String.eqb_spec (Get query "state") (State c)) as [E|E]; cbn in Hin.
  - destruct Hin as [H|[H|[H|[]]]]; try discriminate H. inversion H; subst.
    exists query. split; [apply in_or_app; right; left; reflexivity | auto].
  - destruct Hin as [H|[H|[]]]; discriminate H.
Qed.

Lemma step_justified (w : World) (c : Client) (d : list Values) (s s' : state) (l : label) :
  justified w c d s -> step w c s l = Some s' -> justified w c (d ++ requestsOf [l]) s'.
Proof.
  intros Hj Hstep.
  destruct l; cbn [requestsOf]; try rewrite app_nil_r.
  all: try (destruct Hj as [Hh Hm]; cbn [step] in Hstep).
  - destruct (main s) eqn:E; try discriminate.
    destruct (mux_accepts w _); inversion Hstep; subst; clear Hstep; split; cbn; auto.
  - destruct (listener s) eqn:E; try discriminate.
    inversion Hstep; subst; clear Hstep. split; cbn; auto.
  - destruct (main s) eqn:E; try discriminate.
    inversion Hstep; subst; clear Hstep. split; cbn; auto.
  - destruct (justified_more w c d [query] s (conj Hh Hm)) as [Hh' Hm'].
    destruct (listener s) eqn:E; try discriminate.
    inversion Hstep; subst; clear Hstep. split; cbn [handlers main]; [|exact Hm'].
    apply Forall_app. split; [exact Hh'|].
    constructor; [apply sendsDelivered_new | constructor].
  - destruct (handlers s !! i) as [acts|] eqn:E; [|discriminate].
    pose proof (Forall_lookup_1 _ _ _ _ Hh E) as Ha.
    destruct acts as [|[st|b|code|dl] rest]; try discriminate;
      inversion Hstep; subst; clear Hstep; split; cbn [handlers main]; auto;
      apply Forall_insert; auto; apply (sendsDelivered_tail _ _ _ _ Ha).
  - destruct (main s) eqn:E; try discriminate.
    destruct (handlers s !! i) as [acts|] eqn:E'; [|discriminate].
    pose proof (Forall_lookup_1 _ _ _ _ Hh E') as Ha.
    destruct acts as [|[st|b|code|dl] rest]; try discriminate.
    inversion Hstep; subst; clear Hstep. split; cbn [handlers main].
    + apply Forall_insert; auto. apply (sendsDelivered_tail _ _ _ _ Ha).
    + apply (Ha code). left. reflexivity.
  - destruct (timers s); [discriminate|].
    inversion Hstep; subst; clear Hstep. split; cbn; auto.
  - destruct (main s) eqn:E; try discriminate.
    destruct (exchangeCodeForToken w _ _ _ code) as [token err] eqn:Ex.
    inversion Hstep; subst; clear Hstep. split; cbn [handlers main]; [exact Hh|].
    exists code. split; [exact Hm | exact Ex].
Qed.

Lemma requestsOf_cons (l : label) (ls : list label) :
  requestsOf (l :: ls) = requestsOf [l] ++ requestsOf ls.
Proof. destruct l; reflexivity. Qed.

Lemma run_justified (w : World) (c : Client) (ls : list label) :
  forall d s s',
    justified w c d s -> run w c s ls = Some s' -> justified w c (d ++ requestsOf ls) s'.
Proof.
  induction ls as [|l ls IH]; intros d s s' Hj Hrun.
  - inversion Hrun; subst. cbn. rewrite app_nil_r. exact Hj.
  - cbn [run] in Hrun. destruct (step w c s l) as [s1|] eqn:E; [|discriminate].
    rewrite requestsOf_cons, app_assoc.
    apply (IH _ s1 s'); [|exact Hrun]. apply (step_justified w c d s s1 l Hj E).
Qed.

(** X3: [AuthCode] only ever exchanges, and so only ever returns the
    exchange of, a code that arrived in a request carrying the client's
    state: whatever the schedule and the other requests, the returned pair
    is [exchangeCodeForToken] of the code parameter of such a request. *)
Theorem AuthCode_returns_exchange_of_accepted_code (w : World) (c : Client)
        (ls : list label) (s : state) :
  run w c init ls = Some s ->
  (forall code,
      main s = MExchanging code ->
      exists query,
        In query (requestsOf ls) /\ Get query "state" = State c
        /\ Get query "code" = code)
  /\ (forall token err,
        main s = MReturned token err ->
        exists query,
          In query (requestsOf ls) /\ Get query "state" = State c
          /\ exchangeCodeForToken w (ClientID c) (ClientSecret c) (RedirectURI c)
               (Get query "code") = (token, err)).
Proof.
  intros Hrun.
  assert (Hinit : justified w c [] init) by (split; cbn; auto).
  destruct (run_justified w c ls [] init s Hinit Hrun) as [_ Hm]. cbn [app] in Hm.
  split.
  - intros code E. rewrite E in Hm. exact Hm.
  - intros token err E. rewrite E in Hm.
    destruct Hm as (code & (q & Hin & Hs & Hc) & Hex).
    exists q. rewrite Hc. auto.
Qed.

Lemma AuthCode_returns_exchange_of_accepted_code_witness :
  (forall code,
      main samples.returnedState = MExchanging code ->
      exists query,
        In query (requestsOf samples.happySchedule)
        /\ Get query "state" = State samples.client /\ Get query "code" = code)
  /\ (forall token err,
        main samples.returnedState = MReturned token err ->
        exists query,
          In query (requestsOf samples.happySchedule)
          /\ Get query "state" = State samples.client
          /\ exchangeCodeForToken (samples.provider 200 samples.refreshedBody false)
               (ClientID samples.client) (ClientSecret samples.client)
               (RedirectURI samples.client) (Get query "code") = (token, err)).
Proof.
  apply (AuthCode_returns_exchange_of_accepted_code
           (samples.provider 200 samples.refreshedBody false) samples.client
           samples.happySchedule samples.returnedState).
  vm_compute. reflexivity.
Defined.

(** *** One receive, and the shutdown after it *)

Lemma guarded_callbackHandler (c : Client) (query : Values) :
  guarded (callbackHandler c query) = true.
Proof. unfold callbackHandler. destruct (negb _); reflexivity. Qed.

Lemma receives_length_cons (e : event) (evs : list event) :
  (forall code, e <> EvReceive code) -> receives (e :: evs) = receives evs.
Proof. intros H. destruct e; try reflexivity. exfalso. apply (H code). reflexivity. Qed.

Lemma step_ordered (w : World) (c : Client) (s s' : state) (l : label) :
  ordered s -> step w c s l = Some s' -> ordered s'.
Proof.
  unfold ordered. intros Ho Hstep.
  destruct l; cbn [step] in Hstep.
  - destruct (main s) eqn:E; try discriminate.
    destruct Ho as (Ht & Hl & Hh & Hr & Hs).
    destruct (mux_accepts w _); inversion Hstep; subst; clear Hstep; cbn;
      repeat split; auto; discriminate.
  - destruct (listener s) eqn:E; try discriminate.
    inversion Hstep; subst; clear Hstep. cbn [main listener timers handlers events].
    destruct (main s); auto; destruct Ho as (Ht & Hl & Hh & Hr & Hs);
      repeat split; auto; destruct (net_Listen w _); discriminate.
  - destruct (main s) eqn:E; try discriminate.
    destruct Ho as (Ht & Hl & Hh & Hr & Hs).
    inversion Hstep; subst; clear Hstep. cbn. repeat split; auto.
  - destruct (listener s) eqn:E; try discriminate.
    inversion Hstep; subst; clear Hstep. cbn [main listener timers handlers events].
    destruct (main s); auto; destruct Ho as (Ht & Hl & Hh & Hr & Hs);
      repeat split; auto; try (rewrite E; discriminate);
      apply Forall_app; (split; [exact Hh|]);
      (constructor; [apply guarded_callbackHandler | constructor]).
  - destruct (handlers s !! i) as [acts|] eqn:E; [|discriminate].
    destruct acts as [|[st|b|code|dl] rest]; try discriminate;
      inversion Hstep; subst; clear Hstep; cbn [main listener timers handlers events];
      destruct (main s) eqn:Em; auto;
      destruct Ho as (Ht & Hl & Hh & Hr & Hs);
      pose proof (Forall_lookup_1 _ _ _ _ Hh E) as Hg; cbn [guarded] in Hg;
      try discriminate Hg;
      repeat split; auto; apply Forall_insert; auto.
  - destruct (main s) eqn:Em; try discriminate.
    destruct (handlers s !! i) as [acts|] eqn:E; [|discriminate].
    destruct acts as [|[st|b|code|dl] rest]; try discriminate.
    destruct Ho as (Ht & Hl & Hh & Hr & Hs).
    inversion Hstep; subst; clear Hstep. cbn [main events receives]. rewrite Hr. reflexivity.
  - destruct (timers s) as [|n] eqn:Et; [discriminate|].
    inversion Hstep; subst; clear Hstep. cbn [main listener timers handlers events].
    destruct (main s); auto; destruct Ho as (Ht & _); discriminate Ht.
  - destruct (main s) eqn:Em; try discriminate.
    destruct (exchangeCodeForToken w _ _ _ code) as [token err].
    inversion Hstep; subst; clear Hstep. cbn [main events receives]. exact Ho.
Qed.

Lemma run_ordered (w : World) (c : Client) (ls : list label) :
  forall s s', ordered s -> run w c s ls = Some s' -> ordered s'.
Proof.
  induction ls as [|l ls IH]; intros s s' Hs Hrun.
  - inversion Hrun; subst. exact Hs.
  - cbn [run] in Hrun. destruct (step w c s l) as [s1|] eqn:E; [|discriminate].
    apply (IH s1 s'); [|exact Hrun]. apply (step_ordered w c s s1 l Hs E).
Qed.

(** X4: in every execution of [AuthCode] a code is received at most
    once, however many requests with the right state arrive; and the
    server is shut down, or a shutdown is pending, only after that one
    receive. *)
Theorem AuthCode_receives_once (w : World) (c : Client) (ls : list label) (s : state) :
  run w c init ls = Some s ->
  (List.length (receives (events s)) <= 1)%nat
  /\ (listener s = LShutdown \/ (0 < timers s)%nat
      \/ existsb isServerShutdown (events s) = true ->
      List.length (receives (events s)) = 1%nat /\ ~ waiting (main s)).
Proof.
  intros Hrun.
  assert (Hinit : ordered init) by (cbn; repeat split; auto; discriminate).
  pose proof (run_ordered w c ls init s Hinit Hrun) as Ho.
  unfold ordered in Ho. unfold waiting.
  destruct (main s); try (rewrite Ho; split; [lia | intros _; split; [reflexivity | auto]]);
    destruct Ho as (Ht & Hl & _ & Hr & Hs); rewrite Hr; (split; [cbn; lia|]);
    intros [H|[H|H]]; try contradiction; try lia; congruence.
Qed.

Lemma AuthCode_receives_once_witness :
  (List.length (receives (events samples.returnedState)) <= 1)%nat
  /\ (listener samples.returnedState = LShutdown \/ (0 < timers samples.returnedState)%nat
      \/ existsb isServerShutdown (events samples.returnedState) = true ->
      List.length (receives (events samples.returnedState)) = 1%nat
      /\ ~ waiting (main samples.returnedState)).
Proof.
  apply (AuthCode_receives_once (samples.provider 200 samples.refreshedBody false)
           samples.client samples.happySchedule samples.returnedState).
  vm_compute. reflexivity.
Defined.

(** *** A run that returns *)

(** X5: when the pattern is accepted and the address can be bound, a
    request that carries the client's state makes [AuthCode] return: there
    is an execution in which it returns what [exchangeCodeForToken] gives
    for the request's code parameter, the empty string when the request
    has none. *)
Theorem AuthCode_can_return (w : World) (c : Client) (query : Values) :
  mux_accepts w (getPath w (RedirectURI c)) = true ->
  net_Listen w (getHostPort w (RedirectURI c)) = true ->
  Get query "state" = State c ->
  AuthCode_returns w c
    (fst (exchangeCodeForToken w (ClientID c) (ClientSecret c) (RedirectURI c)
            (Get query "code")))
    (snd (exchangeCodeForToken w (ClientID c) (ClientSecret c) (RedirectURI c)
            (Get query "code"))).
Proof.
  intros Hmux Hbind Hstate.
  set (r := exchangeCodeForToken w (ClientID c) (ClientSecret c) (RedirectURI c)
              (Get query "code")).
  exists {| main := MReturned (fst r) (snd r); listener := LServing;
            handlers := [[GoShutdown (1 * Second)]]; timers := 0;
            events := [EvExchange (Get query "code"); EvReceive (Get query "code");
                       EvWrite "Authorization successful! You can close this tab.";
                       EvOpenBrowser (buildAuthURL (ClientID c) (RedirectURI c) (Scopes c)
                                        (State c));
                       EvListen (getHostPort w (RedirectURI c)) true;
                       EvHandleFunc (getPath w (RedirectURI c))] |}.
  split; [|reflexivity].
  exists [DoRegister; DoListen; DoOpenBrowser; DoRequest query; DoHandler 0; DoReceive 0;
          DoExchange].
  cbn [run step init main listener handlers timers events]. rewrite Hmux.
  cbn [run step init main listener handlers timers events]. rewrite Hbind.
  cbn [run step init main listener handlers timers events app].
  unfold callbackHandler. rewrite Hstate, String.eqb_refl.
  cbn [negb lookup list_lookup]. cbn.
  fold r. destruct r as [token err]. reflexivity.
Qed.

Lemma AuthCode_can_return_witness :
  AuthCode_returns (samples.provider 200 samples.refreshedBody false) samples.client
    (fst (exchangeCodeForToken (samples.provider 200 samples.refreshedBody false)
            (ClientID samples.client) (ClientSecret samples.client)
            (RedirectURI samples.client) (Get samples.goodQuery "code")))
    (snd (exchangeCodeForToken (samples.provider 200 samples.refreshedBody false)
            (ClientID samples.client) (ClientSecret samples.client)
            (RedirectURI samples.client) (Get samples.goodQuery "code"))).
Proof.
  apply (AuthCode_can_return (samples.provider 200 samples.refreshedBody false)
           samples.client samples.goodQuery); reflexivity.
Defined.

(** *** The authorization URL *)

Lemma occurrences_append (c : ascii) (a b : string) :
  occurrences c (a ++ b) = (occurrences c a + occurrences c b)%nat.
Proof.
  induction a as [|x a IH]; [reflexivity|].
  change (String x a ++ b)%string with (String x (a ++ b)).
  cbn [occurrences]. rewrite IH. destruct (Ascii.eqb c x); reflexivity.
Qed.

Lemma upperhex_unreserved (a : ascii) :
  shouldEscape (upperhex (utf8.byteZ a / 16)) = false
  /\ shouldEscape (upperhex (utf8.byteZ a mod 16)) = false.
Proof.
  destruct a as [[] [] [] [] [] [] [] []]; vm_compute; split; reflexivity.
Qed.

Lemma occurrences_QueryEscape (c : ascii) (s : string) :
  shouldEscape c = true -> c <> "%"%char -> c <> "+"%char ->
  occurrences c (QueryEscape s) = O.
Proof.
  intros Hc Hpercent Hplus.
  assert (Hne : forall x, shouldEscape x = false -> Ascii.eqb c x = false).
  { intros x Hx. apply Ascii.eqb_neq. intros ->. congruence. }
  induction s as [|a s IH]; [reflexivity|].
  cbn [QueryEscape].
  destruct (Ascii.eqb a " "%char).
  - cbn [occurrences]. rewrite (proj2 (Ascii.eqb_neq c "+"%char) Hplus). exact IH.
  - destruct (shouldEscape a) eqn:Ha.
    + destruct (upperhex_unreserved a) as [Hhi Hlo].
      cbn [occurrences].
      rewrite (proj2 (Ascii.eqb_neq c "%"%char) Hpercent), (Hne _ Hhi), (Hne _ Hlo).
      exact IH.
    + cbn [occurrences]. rewrite (Hne _ Ha). exact IH.
Qed.

Lemma occurrences_between (c : ascii) (p1 p2 p3 p4 a b st d : string) :
  occurrences c a = O -> occurrences c b = O -> occurrences c d = O ->
  occurrences c (p1 ++ a ++ p2 ++ b ++ p3 ++ st ++ p4 ++ d)
  = (occurrences c (p1 ++ EmptyString ++ p2 ++ EmptyString ++ p3 ++ EmptyString
                    ++ p4 ++ EmptyString)
     + occurrences c st)%nat.
Proof.
  intros Ha Hb Hd. rewrite !occurrences_append, Ha, Hb, Hd.
  change (occurrences c EmptyString) with O. lia.
Qed.

(** X13: of the parameters of the authorization URL only the state is
    inserted as it is.  Let [c] be a byte that [QueryEscape] escapes and
    that is neither [%] nor [+], the two bytes escaping itself writes
    (so [c] is not a letter, a digit, [-], [_], [.], [~], [%] or [+]; it
    may be [&], [=], [#], [?], [/] or a space).  Then [c] occurs in the
    URL as often as in the URL built from empty parameters plus as often
    as in the state, whatever the client ID, the redirect URI and the
    scopes hold. *)
Theorem buildAuthURL_separators (clientID redirectURI : string) (scopes : list string)
        (state : string) (c : ascii) :
  shouldEscape c = true -> c <> "%"%char -> c <> "+"%char ->
  occurrences c (buildAuthURL clientID redirectURI scopes state)
  = (occurrences c (buildAuthURL EmptyString EmptyString [] EmptyString)
     + occurrences c state)%nat.
Proof.
  intros Hc Hpercent Hplus.
  exact (occurrences_between c _ _ _ _ _ _ state _
           (occurrences_QueryEscape c clientID Hc Hpercent Hplus)
           (occurrences_QueryEscape c redirectURI Hc Hpercent Hplus)
           (occurrences_QueryEscape c (String.concat " " scopes) Hc Hpercent Hplus)).
Qed.

Lemma buildAuthURL_separators_witness :
  occurrences "&"%char
    (buildAuthURL "id&x" "http://127.0.0.1:8888/callback?a=1&b=2"
       ["user-read-private"; "a&b"] "st&scope=all")
  = (occurrences "&"%char (buildAuthURL EmptyString EmptyString [] EmptyString)
     + occurrences "&"%char "st&scope=all")%nat.
Proof.
  apply (buildAuthURL_separators "id&x" "http://127.0.0.1:8888/callback?a=1&b=2"
           ["user-read-private"; "a&b"] "st&scope=all" "&"%char).
  - reflexivity.
  - discriminate.
  - discriminate.
Defined.

(** X19: the query of a search adds no separator to the search URL.
    Let [c] be a byte that [QueryEscape] escapes and that is neither [%]
    nor [+], the two bytes escaping itself writes (so [c] is not a
    letter, a digit, [-], [_], [.], [~], [%] or [+]; it may be [&], [=],
    [#], [?], [/] or a space).  Then [c] occurs in the URL of
    [SearchTrack] exactly as often as in the URL of the empty query. *)
Theorem searchURL_separators (query : string) (c : ascii) :
  shouldEscape c = true -> c <> "%"%char -> c <> "+"%char ->
  occurrences c (searchURL query) = occurrences c (searchURL EmptyString).
Proof.
  intros Hc Hpercent Hplus. unfold searchURL.
  rewrite !occurrences_append, !(occurrences_QueryEscape c _ Hc Hpercent Hplus).
  reflexivity.
Qed.

Lemma searchURL_separators_witness :
  occurrences "&"%char (searchURL "Imagine&limit=50 John Lennon")
  = occurrences "&"%char (searchURL EmptyString).
Proof.
  apply (searchURL_separators "Imagine&limit=50 John Lennon" "&"%char).
  - reflexivity.
  - discriminate.
  - discriminate.
Defined.

(** X20: a refresh never loses the refresh token: when
    [RefreshAccessToken] is called with a non-empty refresh token and
    returns a token, that token's refresh token is not empty either. *)
Theorem RefreshAccessToken_keeps_a_refresh_token (w : World) (c : Client)
        (refreshToken : string) (t : Token) :
  refreshToken <> EmptyString ->
  RefreshAccessToken w c refreshToken = Ok t ->
  RefreshToken t <> EmptyString.
Proof.
  intros Hne. unfold RefreshAccessToken.
  destruct (negb (http_NewRequest w "POST" tokenURL)); [discriminate|].
  destruct (http_Do w (refreshRequest c refreshToken)) as [|status body]; [discriminate|].
  destruct (Decode body) as [token [e|]]; [discriminate|].
  destruct (String.eqb (RefreshToken token) EmptyString) eqn:E;
    intros H; inversion H; subst.
  - exact Hne.
  - apply String.eqb_neq. exact E.
Qed.

Lemma RefreshAccessToken_keeps_a_refresh_token_witness :
  RefreshToken {| AccessToken := "new"; RefreshToken := "r1"; ExpiresIn := 3600;
                  TokenType := "Bearer"; Scope := "s" |} <> EmptyString.
Proof.
  apply (RefreshAccessToken_keeps_a_refresh_token
           (samples.provider 200 samples.refreshedBody false) samples.client "r1").
  - discriminate.
  - vm_compute. reflexivity.
Defined.

End spotify_facts.

(** ** Token persistence: saving then loading *)
Module persistence_facts.

Import utf8 json spotify tactics json_facts.
#[local] Arguments String.append : simpl nomatch.

(** The text [Encode] writes, member by member. *)
Lemma Encode_members (t : Token) :
  Encode t
  = String "{"
      (appendString "access_token" ++ String ":"
         (appendString (AccessToken t) ++ String ","
            (appendString "refresh_token" ++ String ":"
               (appendString (RefreshToken t) ++ String ","
                  (appendString "expires_in" ++ String ":"
                     (FormatInt (ExpiresIn t) ++ String ","
                        (appendString "token_type" ++ String ":"
                           (appendString (TokenType t) ++ String ","
                              (appendString "scope" ++ String ":"
                                 (appendString (Scope t) ++ String "}" newline)))))))))).
Proof.
  unfold Encode, Marshal. rewrite !append_assoc. reflexivity.
Qed.

Lemma maxNestingDepth_succ : maxNestingDepth = S (Z.to_nat 9999).
Proof.
  unfold maxNestingDepth. change 10000 with (Z.succ 9999).
  apply Z2Nat.inj_succ. lia.
Qed.

(** Scanning what [Encode] wrote: an object of the five members, then
    the newline. *)
Lemma readValue_Encode (t : Token) :
  wellFormed t ->
  readValue (Encode t)
  = Ok (JObject [("access_token", JString (AccessToken t));
                 ("refresh_token", JString (RefreshToken t));
                 ("expires_in", JNumber (FormatInt (ExpiresIn t)));
                 ("token_type", JString (TokenType t));
                 ("scope", JString (Scope t))]).
Proof.
  intros (Ha & Hr & He & Ht & Hs).
  rewrite Encode_members. unfold readValue. cbn [skipSpace].
  change (isSpace "{") with false. cbv iota.
  rewrite maxNestingDepth_succ. set (d := Z.to_nat 9999).
  cbn [parseValue skipSpace]. change (isSpace "{") with false. cbv iota.
  change (Ascii.eqb "{" "{") with true. cbv iota.
  match goal with
  | |- context [objectLoop _ (String.length ?x) ?x] => set (X := x)
  end.
  assert (Hfuel : exists m, String.length X = S (S (S (S (S m))))).
  { exists (String.length X - 5)%nat. subst X.
    rewrite !length_append. cbn [String.length]. rewrite !length_append.
    cbn [String.length]. rewrite !length_append. cbn [String.length].
    rewrite !length_append. cbn [String.length]. rewrite !length_append.
    cbn [String.length]. lia. }
  destruct Hfuel as (m & ->).
  assert (Hhead : exists body, X = String dquote body).
  { subst X. unfold appendString at 1. cbn [String.append]. eexists. reflexivity. }
  destruct Hhead as (body & Hbody). rewrite Hbody at 1.
  cbn [skipSpace]. change (isSpace dquote) with false. cbv iota.
  change (Ascii.eqb dquote "}") with false. cbv iota.
  subst X.
  rewrite (objectLoop_member (parseValue d) _ "access_token" _ (JString (AccessToken t)))
    by (try reflexivity; apply parseValue_string; assumption).
  change (Ascii.eqb "," ",") with true. cbv iota.
  rewrite (objectLoop_member (parseValue d) _ "refresh_token" _ (JString (RefreshToken t)))
    by (try reflexivity; apply parseValue_string; assumption).
  change (Ascii.eqb "," ",") with true. cbv iota.
  rewrite (objectLoop_member (parseValue d) _ "expires_in" _
             (JNumber (FormatInt (ExpiresIn t))))
    by (try reflexivity; apply parseValue_int; assumption).
  change (Ascii.eqb "," ",") with true. cbv iota.
  rewrite (objectLoop_member (parseValue d) _ "token_type" _ (JString (TokenType t)))
    by (try reflexivity; apply parseValue_string; assumption).
  change (Ascii.eqb "," ",") with true. cbv iota.
  rewrite (objectLoop_member (parseValue d) _ "scope" _ (JString (Scope t)))
    by (try reflexivity; apply parseValue_string; assumption).
  reflexivity.
Qed.

(** Decoding what [Encode] wrote gives the token back, without error. *)
Lemma Decode_Encode (t : Token) : wellFormed t -> Decode (Encode t) = (t, None).
Proof.
  intros Hw. unfold Decode. rewrite (readValue_Encode t Hw).
  destruct Hw as (_ & _ & He & _ & _).
  destruct (FormatInt_read (ExpiresIn t) EmptyString He) as (_ & Hparse & _).
  cbn [unmarshal storeMembers].
  change (lookupField "access_token") with (Some FAccessToken).
  change (lookupField "refresh_token") with (Some FRefreshToken).
  change (lookupField "expires_in") with (Some FExpiresIn).
  change (lookupField "token_type") with (Some FTokenType).
  change (lookupField "scope") with (Some FScope).
  cbn [store]. rewrite Hparse. destruct t; reflexivity.
Qed.

Lemma SaveToken_writes (fs : FS) (filename : string) (t : Token) :
  snd (SaveToken fs filename t) = None ->
  os_Open (fst (SaveToken fs filename t)) filename = Ok (Encode t).
Proof.
  unfold SaveToken, os_Create, os_Open, write.
  destruct (createDenied fs filename); [discriminate|]. intros _.
  cbn [fst files]. rewrite !lookup_insert_eq. reflexivity.
Qed.

(** C7, as the code has it: a token whose strings are valid UTF-8 (and
    whose expires_in is a 64-bit int) that [SaveToken] saved without error
    is what [LoadToken] returns from the same file: the five fields are
    the same. *)
Theorem SaveToken_LoadToken (fs : FS) (filename : string) (t : Token) :
  wellFormed t ->
  snd (SaveToken fs filename t) = None ->
  LoadToken (fst (SaveToken fs filename t)) filename = Ok t.
Proof.
  intros Hw Hsave. unfold LoadToken.
  rewrite (SaveToken_writes fs filename t Hsave), (Decode_Encode t Hw). reflexivity.
Qed.

Lemma SaveToken_LoadToken_witness :
  LoadToken (fst (SaveToken (samples.disk None) orchestrator.tokenFile samples.freshToken))
    orchestrator.tokenFile
  = Ok samples.freshToken.
Proof.
  apply (SaveToken_LoadToken (samples.disk None) orchestrator.tokenFile samples.freshToken).
  - unfold wellFormed, minInt64, maxInt64.
    repeat split; try (vm_compute; reflexivity); vm_compute; discriminate.
  - vm_compute. reflexivity.
Defined.

(** C7 as stated fails: Go strings are byte strings, and [Encode] writes
    a byte that is not valid UTF-8 as the escape of U+FFFD.  The token
    with access_token FF is saved without error and loaded with
    access_token EF BF BD. *)
Lemma SaveToken_LoadToken_invalid_utf8 :
  snd (SaveToken (samples.disk None) orchestrator.tokenFile samples.binaryToken) = None
  /\ LoadToken (fst (SaveToken (samples.disk None) orchestrator.tokenFile samples.binaryToken))
       orchestrator.tokenFile
     = Ok {| AccessToken := String "239" (String "191" (String "189" EmptyString));
             RefreshToken := "r"; ExpiresIn := 3600; TokenType := "Bearer"; Scope := "" |}
  /\ LoadToken (fst (SaveToken (samples.disk None) orchestrator.tokenFile samples.binaryToken))
       orchestrator.tokenFile
     <> Ok samples.binaryToken.
Proof.
  split; [vm_compute; reflexivity|].
  assert (H : LoadToken
                (fst (SaveToken (samples.disk None) orchestrator.tokenFile samples.binaryToken))
                orchestrator.tokenFile
              = Ok {| AccessToken := String "239" (String "191" (String "189" EmptyString));
                      RefreshToken := "r"; ExpiresIn := 3600; TokenType := "Bearer";
                      Scope := "" |}) by (vm_compute; reflexivity).
  split; [exact H|]. rewrite H. discriminate.
Qed.

(** *** What decoding produces *)

Lemma wellFormed_zero : wellFormed zeroToken.
Proof. unfold wellFormed, minInt64, maxInt64. cbn. repeat split; lia. Qed.

Lemma store_wellFormed (f : field) (v : value) (t : Token) :
  wellFormed t ->
  (forall x, v = JString x -> ValidString x = true) ->
  wellFormed (fst (store f v t)).
Proof.
  intros Hw Hv. unfold store.
  destruct v as [|b|lit|x|vs|ms]; try (destruct f; exact Hw).
  - destruct f; try exact Hw.
    destruct (ParseInt lit) as [n|] eqn:Ep; [|exact Hw].
    destruct Hw as (Ha & Hr & He & Ht & Hs). cbn [fst]. unfold wellFormed. cbn.
    pose proof (ParseInt_range lit n Ep) as [Hlo Hhi].
    repeat split; auto.
  - pose proof (Hv x eq_refl) as Hx.
    destruct Hw as (Ha & Hr & (He1 & He2) & Ht & Hs).
    destruct f; cbn [fst]; unfold wellFormed; cbn; repeat split; auto.
Qed.

Lemma storeMembers_wellFormed (ms : list (string * value)) :
  memberStringsValid ms ->
  forall t saved, wellFormed t -> wellFormed (fst (storeMembers ms t saved)).
Proof.
  unfold memberStringsValid.
  induction ms as [|[k v] ms IH]; intros Hms t saved Ht; [exact Ht|].
  inversion Hms as [|? ? Hv Hrest]; subst. cbn [storeMembers].
  destruct (lookupField k) as [f|]; [|apply (IH Hrest); exact Ht].
  pose proof (store_wellFormed f v t Ht Hv) as Hst.
  destruct (store f v t) as [t' e]. apply (IH Hrest). exact Hst.
Qed.

(** Whatever the input, the token the decoder leaves has strings of valid
    UTF-8 and an expires_in of 64 bits. *)
Lemma Decode_wellFormed (input : string) : wellFormed (fst (Decode input)).
Proof.
  unfold Decode. destruct (readValue input) as [v|e] eqn:Er; [|apply wellFormed_zero].
  destruct v; cbn [unmarshal fst]; try apply wellFormed_zero.
  apply storeMembers_wellFormed; [|apply wellFormed_zero].
  apply (readValue_object_valid input members Er).
Qed.

(** Members whose key names no field are skipped. *)
Lemma storeMembers_unknown (ms : list (string * value)) :
  (forall k v, In (k, v) ms -> lookupField k = None) ->
  forall t saved, storeMembers ms t saved = (t, saved).
Proof.
  induction ms as [|[k v] ms IH]; intros Hms t saved; [reflexivity|].
  cbn [storeMembers]. rewrite (Hms k v) by (left; reflexivity).
  apply IH. intros k' v' Hin. apply (Hms k' v'). right. exact Hin.
Qed.

(** X6: what [LoadToken] returns can always be saved and loaded again
    unchanged, to any file that can be created: a loaded token has
    strings of valid UTF-8, whatever bytes the record held. *)
Theorem LoadToken_SaveToken_LoadToken (fs fs' : FS) (filename filename' : string)
        (t : Token) :
  LoadToken fs filename = Ok t ->
  snd (SaveToken fs' filename' t) = None ->
  wellFormed t
  /\ LoadToken (fst (SaveToken fs' filename' t)) filename' = Ok t.
Proof.
  intros Hload Hsave.
  assert (Hw : wellFormed t).
  { unfold LoadToken in Hload. destruct (os_Open fs filename) as [content|e]; [|discriminate].
    pose proof (Decode_wellFormed content) as Hd.
    destruct (Decode content) as [t' [e|]]; [discriminate|].
    inversion Hload; subst. exact Hd. }
  split; [exact Hw|].
  unfold LoadToken. rewrite (SaveToken_writes fs' filename' t Hsave), (Decode_Encode t Hw).
  reflexivity.
Qed.

Lemma LoadToken_SaveToken_LoadToken_witness :
  wellFormed
    {| AccessToken := String "239" (String "191" (String "189" EmptyString));
       RefreshToken := "r1"; ExpiresIn := 0; TokenType := ""; Scope := "" |}
  /\ LoadToken
       (fst (SaveToken (samples.disk None) "copy.json"
               {| AccessToken := String "239" (String "191" (String "189" EmptyString));
                  RefreshToken := "r1"; ExpiresIn := 0; TokenType := ""; Scope := "" |}))
       "copy.json"
     = Ok {| AccessToken := String "239" (String "191" (String "189" EmptyString));
             RefreshToken := "r1"; ExpiresIn := 0; TokenType := ""; Scope := "" |}.
Proof.
  apply (LoadToken_SaveToken_LoadToken (samples.disk (Some samples.binaryRecord))
           (samples.disk None) orchestrator.tokenFile "copy.json").
  - vm_compute. reflexivity.
  - vm_compute. reflexivity.
Defined.

Lemma LoadToken_wellFormed (fs : FS) (filename : string) (t : Token) :
  LoadToken fs filename = Ok t -> wellFormed t.
Proof.
  unfold LoadToken. destruct (os_Open fs filename) as [content|e]; [|discriminate].
  pose proof (Decode_wellFormed content) as Hd.
  destruct (Decode content) as [t' [e|]]; [discriminate|].
  intros H. inversion H; subst. exact Hd.
Qed.

Lemma RefreshAccessToken_wellFormed (w : World) (c : Client) (refreshToken : string)
      (t : Token) :
  ValidString refreshToken = true ->
  RefreshAccessToken w c refreshToken = Ok t -> wellFormed t.
Proof.
  intros Hv. unfold RefreshAccessToken.
  destruct (negb _); [discriminate|].
  destruct (http_Do w _) as [|status body]; [discriminate|].
  pose proof (Decode_wellFormed body) as Hd.
  destruct (Decode body) as [t' [e|]]; [discriminate|]. cbn [fst] in Hd.
  destruct Hd as (Ha & Hr & He & Ht & Hs).
  destruct (String.eqb _ _); intros H; inversion H; subst;
    unfold wellFormed; cbn; repeat split; auto; apply He.
Qed.

Lemma exchangeCodeForToken_wellFormed (w : World) (id secret uri code : string)
      (t : Token) (err : option error) :
  exchangeCodeForToken w id secret uri code = (Some t, err) -> wellFormed t.
Proof.
  unfold exchangeCodeForToken. destruct (negb _); [discriminate|].
  destruct (http_Do w _) as [|status body]; [discriminate|].
  pose proof (Decode_wellFormed body) as Hd.
  destruct (Decode body) as [t' e]. intros H. inversion H; subst. exact Hd.
Qed.

Lemma AuthCode_returns_wellFormed (w : World) (c : Client) (t : Token) (err : option error) :
  AuthCode_returns w c (Some t) err -> wellFormed t.
Proof.
  intros (s & (ls & Hrun) & Hmain).
  assert (Hinit : justified w c [] init) by (split; cbn; auto).
  destruct (spotify_facts.run_justified w c ls [] init s Hinit Hrun) as [_ Hm].
  rewrite Hmain in Hm. destruct Hm as (code & _ & Hex).
  apply (exchangeCodeForToken_wellFormed _ _ _ _ _ _ _ Hex).
Qed.

(** X7: [exchangeCodeForToken] does not look at the status of the
    response, and an object none of whose members names a field of [Token]
    decodes without error: for such a body, a provider's error object for
    one, it returns the zero token and a nil error. *)
Theorem exchangeCodeForToken_takes_any_object (w : World) (id secret uri code : string)
        (status : Z) (body : string) (ms : list (string * value)) :
  http_NewRequest w "POST" tokenURL = true ->
  http_Do w (exchangeRequest id secret uri code) = Resp status body ->
  readValue body = Ok (JObject ms) ->
  (forall k v, In (k, v) ms -> lookupField k = None) ->
  exchangeCodeForToken w id secret uri code = (Some zeroToken, None).
Proof.
  intros Hreq Hdo Hread Hms. unfold exchangeCodeForToken, Decode.
  rewrite Hreq, Hdo, Hread. cbn [negb unmarshal].
  rewrite (storeMembers_unknown ms Hms). reflexivity.
Qed.

Lemma exchangeCodeForToken_takes_any_object_witness :
  exchangeCodeForToken (samples.provider 400 samples.deniedBody false)
    "id" "sec" "http://127.0.0.1:8888/callback" "abc"
  = (Some zeroToken, None).
Proof.
  apply (exchangeCodeForToken_takes_any_object
           (samples.provider 400 samples.deniedBody false)
           "id" "sec" "http://127.0.0.1:8888/callback" "abc" 400 samples.deniedBody
           [("error", JString "invalid_grant");
            ("error_description", JString "Refresh token revoked")]).
  - reflexivity.
  - reflexivity.
  - vm_compute. reflexivity.
  - intros k v [H|[H|[]]]; inversion H; subst; vm_compute; reflexivity.
Defined.

End persistence_facts.

(** ** Session acquisition and the search-and-play stage *)
Module orchestrator_facts.

Import json spotify orchestrator.
Local Open Scope list_scope.

Lemma calls_saveAndWarn (fs : FS) (token : Token) :
  calls (fst (saveAndWarn fs token)) = [CallSaveToken tokenFile token].
Proof.
  unfold saveAndWarn. destruct (SaveToken fs tokenFile token) as [fs' [e|]]; reflexivity.
Qed.

Lemma calls_app (a b : list event) : calls (a ++ b) = calls a ++ calls b.
Proof. unfold calls. apply filter_app. Qed.

(** The calls of [authorize]: what came before, then [AuthCode], then
    the save when [AuthCode] returned a token. *)
Lemma calls_authorize (w : World) (fs : FS) (before : list event) :
  calls (trace (authorize w fs before))
  = calls before ++ CallAuthCode
      :: match authCode w with
         | AuthOk token => [CallSaveToken tokenFile token]
         | _ => []
         end.
Proof.
  unfold authorize, trace.
  destruct (authCode w) as [token|e| |].
  - pose proof (calls_saveAndWarn fs token) as Hs.
    destruct (saveAndWarn fs token) as [tr fs']. cbn [fst] in *.
    rewrite !calls_app, Hs. reflexivity.
  - cbn [fst]. rewrite calls_app. reflexivity.
  - cbn [fst]. rewrite calls_app. reflexivity.
  - cbn [fst]. rewrite calls_app. reflexivity.
Qed.

(** The calls of session acquisition, by what [LoadToken] and
    [RefreshAccessToken] return. *)
Lemma calls_acquireSession (w : World) (cfg : Config) (fs : FS) :
  calls (trace (acquireSession w cfg fs))
  = match LoadToken fs tokenFile with
    | Err _ =>
        CallLoadToken tokenFile :: CallAuthCode
          :: match authCode w with
             | AuthOk token => [CallSaveToken tokenFile token]
             | _ => []
             end
    | Ok token =>
        CallLoadToken tokenFile :: CallRefreshAccessToken (RefreshToken token)
          :: match RefreshAccessToken (spotifyWorld w) (spoc cfg) (RefreshToken token) with
             | Ok token' => [CallSaveToken tokenFile token']
             | Err _ =>
                 CallAuthCode
                   :: match authCode w with
                      | AuthOk token' => [CallSaveToken tokenFile token']
                      | _ => []
                      end
             end
    end.
Proof.
  unfold acquireSession.
  destruct (LoadToken fs tokenFile) as [token|e].
  - destruct (RefreshAccessToken _ _ _) as [token'|e].
    + pose proof (calls_saveAndWarn fs token') as Hs.
      destruct (saveAndWarn fs token') as [tr fs']. cbn [fst] in Hs.
      unfold trace. cbn [fst]. rewrite calls_app, Hs. reflexivity.
    + rewrite calls_authorize. reflexivity.
  - rewrite calls_authorize. reflexivity.
Qed.

(** C6: when a persisted token with a non-empty refresh_token loads,
    the first call after the load is [RefreshAccessToken] with that
    refresh_token, and no call of [AuthCode], the only place a browser or
    listener is opened, comes before it; when the load fails, no refresh
    is called and the first call after the load is [AuthCode]. *)
Theorem refresh_before_authorization (w : World) (cfg : Config) (fs : FS) :
  (forall token,
      LoadToken fs tokenFile = Ok token ->
      RefreshToken token <> EmptyString ->
      exists rest,
        calls (trace (acquireSession w cfg fs))
        = CallLoadToken tokenFile :: CallRefreshAccessToken (RefreshToken token) :: rest)
  /\ (forall err,
        LoadToken fs tokenFile = Err err ->
        existsb isRefresh (trace (acquireSession w cfg fs)) = false
        /\ exists rest,
             calls (trace (acquireSession w cfg fs))
             = CallLoadToken tokenFile :: CallAuthCode :: rest).
Proof.
  split.
  - intros token Hload _. rewrite calls_acquireSession, Hload. eexists. reflexivity.
  - intros err Hload. split.
    + unfold acquireSession. rewrite Hload. unfold authorize, trace.
      destruct (authCode w) as [token|e| |]; try reflexivity.
      unfold saveAndWarn.
      destruct (SaveToken fs tokenFile token) as [fs' [e|]]; reflexivity.
    + rewrite calls_acquireSession, Hload. eexists. reflexivity.
Qed.

Lemma refresh_before_authorization_witness :
  (exists rest,
      calls (trace (acquireSession
                      (samples.world (samples.provider 200 samples.refreshedBody false)
                         AuthBlocks)
                      samples.cfg (samples.disk (Some (Encode samples.freshToken)))))
      = CallLoadToken tokenFile :: CallRefreshAccessToken "r2" :: rest)
  /\ (existsb isRefresh
        (trace (acquireSession
                  (samples.world (samples.provider 200 samples.refreshedBody false)
                     (AuthOk samples.freshToken))
                  samples.cfg (samples.disk None))) = false
      /\ exists rest,
           calls (trace (acquireSession
                           (samples.world (samples.provider 200 samples.refreshedBody false)
                              (AuthOk samples.freshToken))
                           samples.cfg (samples.disk None)))
           = CallLoadToken tokenFile :: CallAuthCode :: rest).
Proof.
  split.
  - apply (proj1 (refresh_before_authorization
                    (samples.world (samples.provider 200 samples.refreshedBody false)
                       AuthBlocks)
                    samples.cfg (samples.disk (Some (Encode samples.freshToken))))
             samples.freshToken).
    + vm_compute. reflexivity.
    + discriminate.
  - apply (proj2 (refresh_before_authorization
                    (samples.world (samples.provider 200 samples.refreshedBody false)
                       (AuthOk samples.freshToken))
                    samples.cfg (samples.disk None))
             (ErrOS "open" tokenFile)).
    vm_compute. reflexivity.
Defined.

(** *** A refresh the provider denies *)

(** [RefreshAccessToken] fails exactly when the request cannot be built
    or sent, or the body does not decode; the status is not looked at. *)
Lemma RefreshAccessToken_fails_iff (w : spotify.World) (c : Client) (refreshToken : string) :
  is_ok (RefreshAccessToken w c refreshToken) = false
  <-> (http_NewRequest w "POST" tokenURL = false
       \/ http_Do w (refreshRequest c refreshToken) = DoErr
       \/ exists status body err,
            http_Do w (refreshRequest c refreshToken) = Resp status body
            /\ snd (Decode body) = Some err).
Proof.
  unfold RefreshAccessToken. split.
  - destruct (http_NewRequest w "POST" tokenURL); [|left; reflexivity].
    cbn [negb]. right.
    destruct (http_Do w (refreshRequest c refreshToken)) as [|status body].
    + left; reflexivity.
    + right. exists status, body.
      destruct (Decode body) as [token [err|]].
      * exists err. split; reflexivity.
      * destruct (String.eqb _ _); discriminate.
  - intros [H|[H|(status & body & err & H & Hd)]].
    + rewrite H. reflexivity.
    + destruct (http_NewRequest w "POST" tokenURL); [|reflexivity].
      cbn [negb]. rewrite H. reflexivity.
    + destruct (http_NewRequest w "POST" tokenURL); [|reflexivity].
      cbn [negb]. rewrite H.
      destruct (Decode body) as [token e]. cbn [snd] in Hd. subst e. reflexivity.
Qed.

(** When [RefreshAccessToken] does return an error, the flow falls back
    to [AuthCode] and, when that returns a token and the file can be
    created, overwrites the persisted file with it. *)
Lemma refresh_error_falls_back (w : World) (cfg : Config) (fs : FS)
      (token fresh : Token) (err : error) :
  LoadToken fs tokenFile = Ok token ->
  RefreshAccessToken (spotifyWorld w) (spoc cfg) (RefreshToken token) = Err err ->
  authCode w = AuthOk fresh ->
  createDenied fs tokenFile = false ->
  calls (trace (acquireSession w cfg fs))
  = [CallLoadToken tokenFile; CallRefreshAccessToken (RefreshToken token);
     CallAuthCode; CallSaveToken tokenFile fresh]
  /\ files (disk (acquireSession w cfg fs)) !! tokenFile = Some (Encode fresh)
  /\ outcome (acquireSession w cfg fs) = Session fresh.
Proof.
  intros Hload Hrefresh Hauth Hcreate. split.
  - rewrite calls_acquireSession, Hload, Hrefresh, Hauth. reflexivity.
  - unfold acquireSession. rewrite Hload, Hrefresh.
    unfold authorize. rewrite Hauth. unfold saveAndWarn, SaveToken, os_Create.
    rewrite Hcreate. unfold disk, outcome, write. cbn.
    rewrite !lookup_insert_eq. split; reflexivity.
Qed.

(** C2 fails on the code: the provider answers a revoked refresh token
    with status 400 and an error object; the object decodes as a token
    with no field set, so [RefreshAccessToken] returns a token with an
    empty access_token and no error, and the flow does not call
    [AuthCode]: it saves that token over the persisted one. *)
Theorem denied_refresh_returns_no_error :
  http_Do (samples.provider 400 samples.deniedBody false)
    (refreshRequest samples.client "r2")
  = Resp 400 samples.deniedBody
  /\ RefreshAccessToken (samples.provider 400 samples.deniedBody false) samples.client "r2"
     = Ok {| AccessToken := ""; RefreshToken := "r2"; ExpiresIn := 0;
             TokenType := ""; Scope := "" |}
  /\ calls (trace (acquireSession
                    (samples.world (samples.provider 400 samples.deniedBody false)
                       (AuthOk samples.freshToken))
                    samples.cfg (samples.disk (Some (Encode samples.freshToken)))))
     = [CallLoadToken tokenFile; CallRefreshAccessToken "r2";
        CallSaveToken tokenFile
          {| AccessToken := ""; RefreshToken := "r2"; ExpiresIn := 0;
             TokenType := ""; Scope := "" |}]
  /\ files (disk (acquireSession
                   (samples.world (samples.provider 400 samples.deniedBody false)
                      (AuthOk samples.freshToken))
                   samples.cfg (samples.disk (Some (Encode samples.freshToken)))))
       !! tokenFile
     = Some (Encode {| AccessToken := ""; RefreshToken := "r2"; ExpiresIn := 0;
                       TokenType := ""; Scope := "" |}).
Proof.
  split; [reflexivity|]. split; [vm_compute; reflexivity|].
  split; vm_compute; reflexivity.
Qed.

(** *** Trusting the persisted record *)

(** C3 fails on the code: a record with an empty access_token loads
    without error and its refresh_token is used for a refresh. *)
Lemma empty_access_token_is_trusted :
  LoadToken (samples.disk (Some samples.emptyAccessRecord)) tokenFile
  = Ok {| AccessToken := ""; RefreshToken := "r1"; ExpiresIn := 0;
          TokenType := ""; Scope := "" |}
  /\ calls (trace (acquireSession
                    (samples.world (samples.provider 200 samples.refreshedBody false)
                       AuthBlocks)
                    samples.cfg (samples.disk (Some samples.emptyAccessRecord))))
     = [CallLoadToken tokenFile; CallRefreshAccessToken "r1";
        CallSaveToken tokenFile
          {| AccessToken := "new"; RefreshToken := "r1"; ExpiresIn := 3600;
             TokenType := "Bearer"; Scope := "s" |}].
Proof. split; vm_compute; reflexivity. Qed.

(** C3, as the code has it: the persisted record is trusted whenever it
    decodes, whatever its access_token: [LoadToken] returns the decoded
    token and the flow refreshes with its refresh_token; the token is
    treated as absent, and the flow goes to [AuthCode], only when the
    file cannot be opened or its content does not decode. *)
Theorem persisted_record_trusted_when_it_decodes (w : World) (cfg : Config) (fs : FS) :
  match files fs !! tokenFile with
  | Some content =>
      match Decode content with
      | (token, None) =>
          LoadToken fs tokenFile = Ok token
          /\ exists rest,
               calls (trace (acquireSession w cfg fs))
               = CallLoadToken tokenFile :: CallRefreshAccessToken (RefreshToken token) :: rest
      | (_, Some err) =>
          LoadToken fs tokenFile = Err err
          /\ exists rest,
               calls (trace (acquireSession w cfg fs))
               = CallLoadToken tokenFile :: CallAuthCode :: rest
      end
  | None =>
      LoadToken fs tokenFile = Err (ErrOS "open" tokenFile)
      /\ exists rest,
           calls (trace (acquireSession w cfg fs))
           = CallLoadToken tokenFile :: CallAuthCode :: rest
  end.
Proof.
  rewrite calls_acquireSession. unfold LoadToken, os_Open.
  destruct (files fs !! tokenFile) as [content|].
  - destruct (Decode content) as [token [err|]]; split; try reflexivity;
      eexists; reflexivity.
  - split; [reflexivity|]. eexists; reflexivity.
Qed.

(** *** Search and playback *)

Lemma nonEmpty_true (s : string) : nonEmpty s = true <-> s <> EmptyString.
Proof.
  unfold nonEmpty. destruct (String.eqb_spec s EmptyString) as [E|E]; cbn;
    split; auto; try discriminate; intros H; contradiction.
Qed.

Lemma nonEmpty_false (s : string) : nonEmpty s = false <-> s = EmptyString.
Proof.
  unfold nonEmpty. destruct (String.eqb_spec s EmptyString) as [E|E]; cbn;
    split; auto; try discriminate; intros H; contradiction.
Qed.

(** C10 as stated fails: with a song title and an artist, and a search
    that returns an error, the search is attempted but playback is not:
    the process exits with status 1 right after the search. *)
Lemma failed_search_skips_playback :
  (SongTitle samples.imagine <> EmptyString \/ Artist samples.imagine <> EmptyString)
  /\ existsb isSearch (fst (playStage samples.searchFails samples.freshToken samples.imagine))
     = true
  /\ existsb isPlay (fst (playStage samples.searchFails samples.freshToken samples.imagine))
     = false
  /\ playStage samples.searchFails samples.freshToken samples.imagine
     = ([CallSearchTrack "fresh" "Imagine John Lennon";
         Log "ERROR" "Failed to search for track"], Exit 1).
Proof.
  split; [left; discriminate|]. repeat split; vm_compute; reflexivity.
Qed.

(** When the search is attempted, when playback is, and with which
    query. *)
Lemma playStage_attempts (w : World) (token : Token) (result : Result) :
  (existsb isSearch (fst (playStage w token result)) = true
   <-> (SongTitle result <> EmptyString \/ Artist result <> EmptyString))
  /\ (existsb isPlay (fst (playStage w token result)) = true
      <-> ((SongTitle result <> EmptyString \/ Artist result <> EmptyString)
           /\ is_ok (SearchTrack w (AccessToken token) (searchQuery result)) = true))
  /\ ((SongTitle result <> EmptyString \/ Artist result <> EmptyString) ->
      exists rest,
        fst (playStage w token result)
        = CallSearchTrack (AccessToken token) (searchQuery result) :: rest)
  /\ (SongTitle result <> EmptyString -> Artist result <> EmptyString ->
      searchQuery result = (SongTitle result ++ " " ++ Artist result)%string)
  /\ (SongTitle result <> EmptyString -> Artist result = EmptyString ->
      searchQuery result = SongTitle result)
  /\ (SongTitle result = EmptyString -> Artist result <> EmptyString ->
      searchQuery result = Artist result).
Proof.
  unfold playStage, searchQuery.
  destruct (nonEmpty (SongTitle result)) eqn:Et; destruct (nonEmpty (Artist result)) eqn:Ea;
    cbn [orb andb];
    try apply nonEmpty_true in Et; try apply nonEmpty_true in Ea;
    try apply nonEmpty_false in Et; try apply nonEmpty_false in Ea.
  4: { repeat split; try discriminate; try tauto; intros [H|H]; contradiction. }
  all: destruct (SearchTrack w (AccessToken token) _) as [uri|e];
    [destruct (PlayTrack w (AccessToken token) uri) as [e|]|];
    cbn; repeat split; auto; try tauto; try discriminate; try congruence;
    try (intros [_ H]; discriminate); try (eexists; reflexivity).
Qed.

(** Playback is attempted only with the session's access token and the
    track the search returned. *)
Lemma playStage_plays_the_search_result (w : World) (token : Token) (result : Result)
      (a uri : string) :
  In (CallPlayTrack a uri) (fst (playStage w token result)) ->
  a = AccessToken token
  /\ SearchTrack w (AccessToken token) (searchQuery result) = Ok uri.
Proof.
  unfold playStage.
  destruct (nonEmpty (SongTitle result) || nonEmpty (Artist result)); [|intros []].
  destruct (SearchTrack w (AccessToken token) (searchQuery result)) as [uri'|e];
    [destruct (PlayTrack w (AccessToken token) uri')|]; cbn [fst In];
    intros H; repeat (destruct H as [H|H]; try discriminate); try contradiction;
    inversion H; subst; auto.
Qed.

(** C10, as the code has it: the search is attempted if and only if
    song_title or artist is non-empty, and then it is the first thing
    done, with the query song_title, a space, artist when both are
    non-empty, and the non-empty one alone otherwise; playback is
    attempted, with the search's result, exactly when the search was
    attempted and succeeded. *)
Theorem search_iff_song_or_artist (w : World) (token : Token) (result : Result) :
  (existsb isSearch (fst (playStage w token result)) = true
   <-> (SongTitle result <> EmptyString \/ Artist result <> EmptyString))
  /\ (existsb isPlay (fst (playStage w token result)) = true
      <-> ((SongTitle result <> EmptyString \/ Artist result <> EmptyString)
           /\ is_ok (SearchTrack w (AccessToken token) (searchQuery result)) = true))
  /\ (forall a uri,
        In (CallPlayTrack a uri) (fst (playStage w token result)) ->
        a = AccessToken token
        /\ SearchTrack w (AccessToken token) (searchQuery result) = Ok uri)
  /\ ((SongTitle result <> EmptyString \/ Artist result <> EmptyString) ->
      exists rest,
        fst (playStage w token result)
        = CallSearchTrack (AccessToken token) (searchQuery result) :: rest)
  /\ (SongTitle result <> EmptyString -> Artist result <> EmptyString ->
      searchQuery result = (SongTitle result ++ " " ++ Artist result)%string)
  /\ (SongTitle result <> EmptyString -> Artist result = EmptyString ->
      searchQuery result = SongTitle result)
  /\ (SongTitle result = EmptyString -> Artist result <> EmptyString ->
      searchQuery result = Artist result).
Proof.
  destruct (playStage_attempts w token result) as (Hs & Hp & Hfirst & Hboth & Htitle & Hartist).
  exact (conj Hs (conj Hp (conj (playStage_plays_the_search_result w token result)
           (conj Hfirst (conj Hboth (conj Htitle Hartist)))))).
Qed.

(** *** A listener that cannot bind *)

(** With no persisted token and an address that cannot be bound, the run
    does not end with the fatal "Auth failed": it stays in [AuthCode]. *)
Lemma bind_failure_stops_the_run (w : World) (cfg : Config) (fs : FS) (err : error) :
  authCodeSound w cfg ->
  net_Listen (spotifyWorld w) (getHostPort (spotifyWorld w) (RedirectURI (spoc cfg))) = false ->
  LoadToken fs tokenFile = Err err ->
  outcome (acquireSession w cfg fs) = Stop Blocked
  \/ outcome (acquireSession w cfg fs) = Stop Panicked.
Proof.
  intros Hsound Hbind Hload.
  pose proof (spotify_facts.bind_failure_never_returns (spotifyWorld w) (spoc cfg) Hbind)
    as Hnever.
  unfold acquireSession. rewrite Hload. unfold authorize, authCodeSound in *.
  destruct (authCode w) as [token|e| |].
  - exfalso. apply (Hnever _ _ Hsound).
  - exfalso. destruct Hsound as (token & Hret). apply (Hnever _ _ Hret).
  - left. reflexivity.
  - right. reflexivity.
Qed.

(** *** What session acquisition leaves behind *)

Lemma saveAndWarn_disk (fs : FS) (token : Token) :
  (createDenied fs tokenFile = false ->
   snd (SaveToken fs tokenFile token) = None
   /\ snd (saveAndWarn fs token) = fst (SaveToken fs tokenFile token))
  /\ (createDenied fs tokenFile = true -> snd (saveAndWarn fs token) = fs)
  /\ (forall f, f <> tokenFile ->
                files (snd (saveAndWarn fs token)) !! f = files fs !! f)
  /\ createDenied (snd (saveAndWarn fs token)) = createDenied fs.
Proof.
  unfold saveAndWarn, SaveToken, os_Create, write.
  destruct (createDenied fs tokenFile); cbn [fst snd files createDenied].
  - repeat split; auto; discriminate.
  - repeat split; auto; try discriminate.
    intros f Hf. rewrite !lookup_insert_ne by congruence. reflexivity.
Qed.

(** The three ways session acquisition ends with a token. *)
Lemma session_cases (w : World) (cfg : Config) (fs : FS) (token : Token) :
  outcome (acquireSession w cfg fs) = Session token ->
  disk (acquireSession w cfg fs) = snd (saveAndWarn fs token)
  /\ ((exists loaded,
         LoadToken fs tokenFile = Ok loaded
         /\ RefreshAccessToken (spotifyWorld w) (spoc cfg) (RefreshToken loaded) = Ok token)
      \/ authCode w = AuthOk token).
Proof.
  unfold acquireSession, authorize, outcome, disk.
  destruct (LoadToken fs tokenFile) as [loaded|e] eqn:Hl.
  - destruct (RefreshAccessToken _ _ _) as [token'|e] eqn:Hr.
    + destruct (saveAndWarn fs token') as [tr fs'] eqn:Hs. cbn [fst snd].
      intros H. inversion H; subst. rewrite Hs. split; [reflexivity|].
      left. exists loaded. auto.
    + destruct (authCode w) as [token'|e'| |]; cbn [fst snd]; try discriminate.
      destruct (saveAndWarn fs token') as [tr fs'] eqn:Hs. cbn [fst snd].
      intros H. inversion H; subst. rewrite Hs. auto.
  - destruct (authCode w) as [token'|e'| |]; cbn [fst snd]; try discriminate.
    destruct (saveAndWarn fs token') as [tr fs'] eqn:Hs. cbn [fst snd].
    intros H. inversion H; subst. rewrite Hs. auto.
Qed.

Lemma session_wellFormed (w : World) (cfg : Config) (fs : FS) (token : Token) :
  authCodeSound w cfg ->
  outcome (acquireSession w cfg fs) = Session token ->
  wellFormed token.
Proof.
  intros Hsound Hout.
  destruct (session_cases w cfg fs token Hout) as [_ [(loaded & Hl & Hr) | Ha]].
  - apply (persistence_facts.RefreshAccessToken_wellFormed _ _ _ _
             (proj1 (proj2 (persistence_facts.LoadToken_wellFormed _ _ _ Hl))) Hr).
  - unfold authCodeSound in Hsound. rewrite Ha in Hsound.
    apply (persistence_facts.AuthCode_returns_wellFormed _ _ _ _ Hsound).
Qed.

(** X8: when session acquisition ends with a token and token.json can
    be created, loading token.json afterwards gives that very token: what
    the next run starts from is what this run used. *)
Theorem persisted_session_reloads (w : World) (cfg : Config) (fs : FS) (token : Token) :
  authCodeSound w cfg ->
  createDenied fs tokenFile = false ->
  outcome (acquireSession w cfg fs) = Session token ->
  LoadToken (disk (acquireSession w cfg fs)) tokenFile = Ok token.
Proof.
  intros Hsound Hcreate Hout.
  pose proof (session_wellFormed w cfg fs token Hsound Hout) as Hw.
  destruct (session_cases w cfg fs token Hout) as [-> _].
  destruct (saveAndWarn_disk fs token) as (Hok & _).
  destruct (Hok Hcreate) as [Hsave ->].
  unfold LoadToken.
  rewrite (persistence_facts.SaveToken_writes fs tokenFile token Hsave),
    (persistence_facts.Decode_Encode token Hw).
  reflexivity.
Qed.

Lemma persisted_session_reloads_witness :
  LoadToken
    (disk (acquireSession
             (samples.world (samples.provider 200 samples.refreshedBody false) AuthBlocks)
             samples.cfg (samples.disk (Some (Encode samples.freshToken)))))
    tokenFile
  = Ok {| AccessToken := "new"; RefreshToken := "r2"; ExpiresIn := 3600;
          TokenType := "Bearer"; Scope := "s" |}.
Proof.
  apply (persisted_session_reloads
           (samples.world (samples.provider 200 samples.refreshedBody false) AuthBlocks)
           samples.cfg (samples.disk (Some (Encode samples.freshToken)))).
  - exact I.
  - reflexivity.
  - vm_compute. reflexivity.
Defined.

(** X9: session acquisition writes nothing but token.json, and writes
    that only when it ends with a token: every other file is as before,
    and when the process stops instead, the whole file system is. *)
Theorem acquireSession_touches_only_the_token_file (w : World) (cfg : Config) (fs : FS) :
  (forall f, f <> tokenFile ->
             files (disk (acquireSession w cfg fs)) !! f = files fs !! f)
  /\ (forall t, outcome (acquireSession w cfg fs) = Stop t ->
                disk (acquireSession w cfg fs) = fs
                /\ existsb isSave (trace (acquireSession w cfg fs)) = false).
Proof.
  unfold acquireSession, authorize, outcome, disk, trace.
  destruct (LoadToken fs tokenFile) as [loaded|e].
  - destruct (RefreshAccessToken _ _ _) as [token'|e'].
    + destruct (saveAndWarn_disk fs token') as (_ & _ & Hframe & _).
      destruct (saveAndWarn fs token') as [tr fs']. cbn [fst snd] in *.
      split; [exact Hframe | discriminate].
    + destruct (authCode w) as [token'|e''| |]; cbn [fst snd];
        try (split; [reflexivity | intros t _; split; reflexivity]).
      destruct (saveAndWarn_disk fs token') as (_ & _ & Hframe & _).
      destruct (saveAndWarn fs token') as [tr fs']. cbn [fst snd] in *.
      split; [exact Hframe | discriminate].
  - destruct (authCode w) as [token'|e''| |]; cbn [fst snd];
      try (split; [reflexivity | intros t _; split; reflexivity]).
    destruct (saveAndWarn_disk fs token') as (_ & _ & Hframe & _).
    destruct (saveAndWarn fs token') as [tr fs']. cbn [fst snd] in *.
    split; [exact Hframe | discriminate].
Qed.

(** X10: a failure to save is never fatal: how session acquisition ends,
    with which token, and the calls it makes, do not depend on whether
    token.json can be created; when it cannot, the file system is left as
    it was and a warning is logged after the save. *)
Theorem save_failure_is_not_fatal (w : World) (cfg : Config) (fs fs' : FS) :
  files fs = files fs' ->
  outcome (acquireSession w cfg fs) = outcome (acquireSession w cfg fs')
  /\ calls (trace (acquireSession w cfg fs)) = calls (trace (acquireSession w cfg fs'))
  /\ (createDenied fs tokenFile = true ->
      disk (acquireSession w cfg fs) = fs
      /\ forall token,
           outcome (acquireSession w cfg fs) = Session token ->
           exists before,
             trace (acquireSession w cfg fs)
             = before ++ [CallSaveToken tokenFile token;
                          Log "WARN" "Warning: failed to save token"]).
Proof.
  intros Hfiles.
  assert (Hload : LoadToken fs tokenFile = LoadToken fs' tokenFile)
    by (unfold LoadToken, os_Open; rewrite Hfiles; reflexivity).
  split; [|split].
  - unfold acquireSession, authorize, outcome. rewrite <- Hload.
    destruct (LoadToken fs tokenFile) as [loaded|e].
    + destruct (RefreshAccessToken _ _ _) as [token'|e'].
      * destruct (saveAndWarn fs token'), (saveAndWarn fs' token'). reflexivity.
      * destruct (authCode w) as [token'|e''| |]; try reflexivity.
        destruct (saveAndWarn fs token'), (saveAndWarn fs' token'). reflexivity.
    + destruct (authCode w) as [token'|e''| |]; try reflexivity.
      destruct (saveAndWarn fs token'), (saveAndWarn fs' token'). reflexivity.
  - rewrite !calls_acquireSession, <- Hload. reflexivity.
  - intros Hdenied.
    assert (Hsw : forall token,
               saveAndWarn fs token
               = ([CallSaveToken tokenFile token;
                   Log "WARN" "Warning: failed to save token"], fs)).
    { intros token. unfold saveAndWarn, SaveToken, os_Create. rewrite Hdenied. reflexivity. }
    unfold acquireSession, authorize, outcome, disk, trace.
    destruct (LoadToken fs tokenFile) as [loaded|e].
    + destruct (RefreshAccessToken _ _ _) as [token'|e'].
      * rewrite Hsw. cbn [fst snd]. split; [reflexivity|].
        intros token H. inversion H; subst. eexists. reflexivity.
      * destruct (authCode w) as [token'|e''| |]; cbn [fst snd];
          try (split; [reflexivity | discriminate]).
        rewrite Hsw. cbn [fst snd]. split; [reflexivity|].
        intros token H. inversion H; subst.
        exists [CallLoadToken tokenFile; CallRefreshAccessToken (RefreshToken loaded);
                Log "PRINT" "Token refresh failed, need to re-authenticate:"; CallAuthCode].
        reflexivity.
    + destruct (authCode w) as [token'|e''| |]; cbn [fst snd];
        try (split; [reflexivity | discriminate]).
      rewrite Hsw. cbn [fst snd]. split; [reflexivity|].
      intros token H. inversion H; subst.
      exists [CallLoadToken tokenFile;
              Log "WARN" "Warning: failed to load token, will need to re-authenticate";
              CallAuthCode].
      reflexivity.
Qed.

Lemma save_failure_is_not_fatal_witness :
  outcome (acquireSession
             (samples.world (samples.provider 200 samples.refreshedBody false) AuthBlocks)
             samples.cfg (samples.readOnlyDisk (Encode samples.freshToken)))
  = outcome (acquireSession
               (samples.world (samples.provider 200 samples.refreshedBody false) AuthBlocks)
               samples.cfg (samples.disk (Some (Encode samples.freshToken)))).
Proof.
  apply (save_failure_is_not_fatal
           (samples.world (samples.provider 200 samples.refreshedBody false) AuthBlocks)
           samples.cfg (samples.readOnlyDisk (Encode samples.freshToken))
           (samples.disk (Some (Encode samples.freshToken)))).
  reflexivity.
Defined.

(** *** The run as a whole *)

Lemma acquireSession_never_exits_zero (w : World) (cfg : Config) (fs : FS) :
  outcome (acquireSession w cfg fs) <> Stop (Exit 0).
Proof.
  unfold acquireSession, authorize, outcome.
  destruct (LoadToken fs tokenFile) as [loaded|e].
  - destruct (RefreshAccessToken _ _ _) as [token'|e'].
    + destruct (saveAndWarn fs token'). discriminate.
    + destruct (authCode w) as [token'|e''| |]; try discriminate.
      destruct (saveAndWarn fs token'). discriminate.
  - destruct (authCode w) as [token'|e''| |]; try discriminate.
    destruct (saveAndWarn fs token'). discriminate.
Qed.



Lemma playStage_exits_zero_iff (w : World) (token : Token) (result : Result) :
  snd (playStage w token result) = Exit 0
  <-> ((SongTitle result = EmptyString /\ Artist result = EmptyString)
       \/ exists uri,
            SearchTrack w (AccessToken token) (searchQuery result) = Ok uri
            /\ PlayTrack w (AccessToken token) uri = None).
Proof.
  unfold playStage.
  destruct (nonEmpty (SongTitle result) || nonEmpty (Artist result)) eqn:Hne.
  - assert (Hno : ~ (SongTitle result = EmptyString /\ Artist result = EmptyString)).
    { intros [H1 H2]. apply nonEmpty_false in H1, H2. rewrite H1, H2 in Hne. discriminate. }
    destruct (SearchTrack w (AccessToken token) (searchQuery result)) as [uri|e].
    + destruct (PlayTrack w (AccessToken token) uri) as [e|] eqn:Hplay; cbn [snd].
      * split; [discriminate|]. intros [H|(uri' & H1 & H2)]; [contradiction|].
        inversion H1; subst. congruence.
      * split; [|reflexivity]. intros _. right. exists uri. auto.
    + cbn [snd]. split; [discriminate|].
      intros [H|(uri' & H1 & H2)]; [contradiction|discriminate].
  - apply orb_false_iff in Hne. destruct Hne as [H1 H2].
    apply nonEmpty_false in H1, H2. cbn [snd]. split; auto.
Qed.

(** X11: the process exits with status 0 exactly when session
    acquisition ends with a token and either the result names neither a
    song nor an artist, or the search gives a track and playing it gives
    no error. *)
Theorem main_exits_zero_iff (w : World) (cfg : Config) (fs : FS) (result : Result) :
  outcome (mainFromSpotify w cfg fs result) = Exit 0
  <-> exists token,
        outcome (acquireSession w cfg fs) = Session token
        /\ ((SongTitle result = EmptyString /\ Artist result = EmptyString)
            \/ exists uri,
                 SearchTrack w (AccessToken token) (searchQuery result) = Ok uri
                 /\ PlayTrack w (AccessToken token) uri = None).
Proof.
  pose proof (acquireSession_never_exits_zero w cfg fs) as Hnz.
  unfold mainFromSpotify, outcome in *.
  destruct (acquireSession w cfg fs) as [[tr fs'] [token|t]]; cbn [snd] in *.
  - pose proof (playStage_exits_zero_iff w token result) as Hps.
    destruct (playStage w token result) as [tr' t]. cbn [snd] in *.
    split.
    + intros H. exists token. split; [reflexivity|]. apply Hps, H.
    + intros (token' & Heq & H). inversion Heq; subst. apply Hps, H.
  - split.
    + intros ->. contradiction Hnz. reflexivity.
    + intros (token & Heq & _). discriminate.
Qed.


(** Session acquisition leaves every file but token.json as it was. *)
Lemma acquireSession_frame (w : World) (cfg : Config) (fs : FS) (f : string) :
  f <> tokenFile ->
  files (disk (acquireSession w cfg fs)) !! f = files fs !! f.
Proof.
  intros Hf. unfold acquireSession, authorize, disk.
  destruct (LoadToken fs tokenFile) as [loaded|e].
  - destruct (RefreshAccessToken _ _ _) as [token'|e'].
    + destruct (saveAndWarn_disk fs token') as (_ & _ & Hframe & _).
      destruct (saveAndWarn fs token') as [tr fs']. cbn [fst snd] in *. auto.
    + destruct (authCode w) as [token'|e''| |]; cbn [fst snd]; try reflexivity.
      destruct (saveAndWarn_disk fs token') as (_ & _ & Hframe & _).
      destruct (saveAndWarn fs token') as [tr fs']. cbn [fst snd] in *. auto.
  - destruct (authCode w) as [token'|e''| |]; cbn [fst snd]; try reflexivity.
    destruct (saveAndWarn_disk fs token') as (_ & _ & Hframe & _).
    destruct (saveAndWarn fs token') as [tr fs']. cbn [fst snd] in *. auto.
Qed.

Lemma mainFromSpotify_parts (w : World) (cfg : Config) (fs : FS) (result : Result) :
  disk (mainFromSpotify w cfg fs result) = disk (acquireSession w cfg fs)
  /\ exists rest,
       trace (mainFromSpotify w cfg fs result) = CallLoadToken tokenFile :: rest.
Proof.
  unfold mainFromSpotify, disk, trace.
  assert (H : exists rest, fst (fst (acquireSession w cfg fs)) = CallLoadToken tokenFile :: rest).
  { unfold acquireSession, authorize.
    destruct (LoadToken fs tokenFile) as [loaded|e].
    - destruct (RefreshAccessToken _ _ _) as [token'|e'].
      + destruct (saveAndWarn fs token') as [tr fs']. eexists. reflexivity.
      + destruct (authCode w) as [token'|e''| |]; try (eexists; reflexivity).
        destruct (saveAndWarn fs token') as [tr fs']. eexists. reflexivity.
    - destruct (authCode w) as [token'|e''| |]; try (eexists; reflexivity).
      destruct (saveAndWarn fs token') as [tr fs']. eexists. reflexivity. }
  destruct (acquireSession w cfg fs) as [[tr fs'] [token|t]]; cbn [fst snd] in *.
  - destruct (playStage w token result) as [tr' t]. cbn [fst snd].
    split; [reflexivity|]. destruct H as [rest ->]. eexists. reflexivity.
  - split; [reflexivity|exact H].
Qed.

End orchestrator_facts.

(** ** [loadCfg] and [main] as a whole *)
Module saturday_facts.

Import utf8 json spotify orchestrator saturday tactics.
#[local] Arguments String.append : simpl nomatch.

(** *** What [json.Unmarshal] stores in a [Config] *)

Lemma cfgGet_set (f g : cfgField) (s : string) (c : Config) :
  cfgGet f (setCfgString g s c) = if decide (f = g) then s else cfgGet f c.
Proof.
  destruct f, g; reflexivity.
Qed.

Lemma saveError_None (saved e : option error) :
  saveError saved e = None -> saved = None /\ e = None.
Proof.
  destruct saved; [discriminate|]. cbn. auto.
Qed.

(** When storing the members ends without an error, none was saved
    before, every member naming a field holds a string or null, and each
    field is as before or holds the string of a member naming it. *)
Lemma storeCfgMembers_ok (ms : list (string * value)) :
  forall c saved c',
    storeCfgMembers ms c saved = (c', None) ->
    saved = None
    /\ (forall key v f, In (key, v) ms -> lookupCfgField key = Some f ->
                        v = JNull \/ exists s, v = JString s)
    /\ (forall f, cfgGet f c' = cfgGet f c
                  \/ exists key, In (key, JString (cfgGet f c')) ms
                                 /\ lookupCfgField key = Some f).
Proof.
  induction ms as [|[k v] ms IH]; intros c saved c' H; cbn [storeCfgMembers] in H.
  - inversion H; subst. repeat split; auto. intros ? ? ? [].
  - destruct (lookupCfgField k) as [g|] eqn:Hk.
    + destruct (storeCfg g v c) as [c1 e] eqn:Hst.
      destruct (IH _ _ _ H) as (Hsaved & Htyped & Hget).
      apply saveError_None in Hsaved. destruct Hsaved as [-> ->].
      assert (Hv : (v = JNull /\ c1 = c) \/ exists s, v = JString s /\ c1 = setCfgString g s c).
      { unfold storeCfg in Hst. destruct v; inversion Hst; subst; eauto. }
      split; [reflexivity|]. split.
      * intros key v' f [Heq|Hin] Hf.
        -- inversion Heq; subst. destruct Hv as [[-> _]|(s & -> & _)]; eauto.
        -- eapply Htyped; eauto.
      * intros f. destruct (Hget f) as [Heq|(key & Hin & Hf)].
        -- destruct Hv as [[_ ->]|(s & -> & ->)]; [left; exact Heq|].
           rewrite cfgGet_set in Heq. destruct (decide (f = g)) as [->|Hne].
           ++ right. exists k. rewrite Heq. split; [left; reflexivity|exact Hk].
           ++ left. exact Heq.
        -- right. exists key. split; [right; exact Hin|exact Hf].
    + destruct (IH _ _ _ H) as (Hsaved & Htyped & Hget).
      split; [exact Hsaved|]. split.
      * intros key v' f [Heq|Hin] Hf.
        -- inversion Heq; subst. congruence.
        -- eapply Htyped; eauto.
      * intros f. destruct (Hget f) as [Heq|(key & Hin & Hf)]; [left; exact Heq|].
        right. exists key. split; [right; exact Hin|exact Hf].
Qed.

Lemma parseValue_object_valid (data rest : string) (ms : list (string * value)) :
  parseValue maxNestingDepth data = Ok (JObject ms, rest) -> memberStringsValid ms.
Proof.
  intros Hp. apply (json_facts.readValue_object_valid data).
  unfold readValue. rewrite Hp.
  destruct (skipSpace data) eqn:Hs; [|reflexivity].
  exfalso. destruct maxNestingDepth; cbn [parseValue] in Hp; rewrite Hs in Hp; discriminate.
Qed.

(** What a successful [loadCfg] has read. *)
Lemma loadCfg_inversion (getenv : string) (fs : FS) (cfg : Config) :
  loadCfg getenv fs = inl cfg ->
  exists data ms rest,
    files fs !! cfgPath getenv = Some data
    /\ parseValue maxNestingDepth data = Ok (JObject ms, rest)
    /\ skipSpace rest = EmptyString
    /\ storeCfgMembers ms zeroConfig None = (cfg, None)
    /\ forall f, cfgGet f cfg <> EmptyString.
Proof.
  unfold loadCfg, os_Open.
  destruct (files fs !! cfgPath getenv) as [data|] eqn:Hfile; [|discriminate].
  unfold Unmarshal.
  destruct (parseValue maxNestingDepth data) as [[v rest]|e] eqn:Hp; [|discriminate].
  destruct (skipSpace rest) eqn:Hrest; [|discriminate].
  assert (Hempty : forall c : Config,
             (if String.eqb (BridgeIP c) EmptyString || String.eqb (Username c) EmptyString
                 || String.eqb (DefaultLight c) EmptyString
                 || String.eqb (OpenAIKey c) EmptyString
                 || String.eqb (SpotifyClientID c) EmptyString
                 || String.eqb (SpotifyClientSecret c) EmptyString
              then inr ErrMissingFields else inl c) = inl cfg ->
             c = cfg /\ forall f, cfgGet f c <> EmptyString).
  { intros c H.
    destruct (String.eqb (BridgeIP c) EmptyString) eqn:E1; [discriminate|].
    destruct (String.eqb (Username c) EmptyString) eqn:E2; [discriminate|].
    destruct (String.eqb (DefaultLight c) EmptyString) eqn:E3; [discriminate|].
    destruct (String.eqb (OpenAIKey c) EmptyString) eqn:E4; [discriminate|].
    destruct (String.eqb (SpotifyClientID c) EmptyString) eqn:E5; [discriminate|].
    destruct (String.eqb (SpotifyClientSecret c) EmptyString) eqn:E6; [discriminate|].
    cbn [orb] in H. inversion H; subst. split; [reflexivity|].
    apply String.eqb_neq in E1, E2, E3, E4, E5, E6.
    intros f; destruct f; assumption. }
  destruct v as [|b|lit|x|vs|ms]; try discriminate.
  destruct (storeCfgMembers ms zeroConfig None) as [c [e|]] eqn:Hst; [discriminate|].
  intros H. destruct (Hempty c H) as [-> Hne].
  exists data, ms, rest. auto.
Qed.

(** X14: a configuration [loadCfg] returns has all six fields non-empty
    and of valid UTF-8, and was read from the file named by CONFIG, or
    from config.json when CONFIG is empty or not set. *)
Theorem loadCfg_validates (getenv : string) (fs : FS) (cfg : Config) :
  loadCfg getenv fs = inl cfg ->
  (exists data,
      files fs !! (if String.eqb getenv EmptyString then "config.json" else getenv)
      = Some data)
  /\ forall f, cfgGet f cfg <> EmptyString /\ ValidString (cfgGet f cfg) = true.
Proof.
  intros H.
  destruct (loadCfg_inversion getenv fs cfg H) as (data & ms & rest & Hfile & Hp & _ & Hst & Hne).
  split; [exists data; exact Hfile|].
  intros f. split; [apply Hne|].
  destruct (storeCfgMembers_ok ms _ _ _ Hst) as (_ & _ & Hget).
  destruct (Hget f) as [Heq|(key & Hin & _)].
  - exfalso. apply (Hne f). rewrite Heq. destruct f; reflexivity.
  - pose proof (parseValue_object_valid data rest ms Hp) as Hvalid.
    unfold memberStringsValid in Hvalid. rewrite Forall_forall in Hvalid.
    apply (Hvalid (key, JString (cfgGet f cfg))); [|reflexivity].
    apply list_elem_of_In. exact Hin.
Qed.

Lemma loadCfg_validates_witness :
  (exists data, files (samples.configDisk "config.json") !! "config.json" = Some data)
  /\ forall f, cfgGet f samples.cfg <> EmptyString
               /\ ValidString (cfgGet f samples.cfg) = true.
Proof.
  apply (loadCfg_validates EmptyString (samples.configDisk "config.json") samples.cfg).
  vm_compute. reflexivity.
Defined.

(** X15: when [loadCfg] succeeds, the file is one JSON object between
    spaces; every field of the configuration is the string of a member
    whose key names the field, exactly or up to case, and no member
    naming a field holds anything but a string or null.  So a file that
    lacks one of the six keys, or gives one of them a number, is
    refused. *)
Theorem loadCfg_reads_members (getenv : string) (fs : FS) (cfg : Config) :
  loadCfg getenv fs = inl cfg ->
  exists data ms rest,
    files fs !! cfgPath getenv = Some data
    /\ parseValue maxNestingDepth data = Ok (JObject ms, rest)
    /\ skipSpace rest = EmptyString
    /\ (forall f, exists key,
           In (key, JString (cfgGet f cfg)) ms /\ lookupCfgField key = Some f)
    /\ (forall key v f, In (key, v) ms -> lookupCfgField key = Some f ->
                        v = JNull \/ exists s, v = JString s).
Proof.
  intros H.
  destruct (loadCfg_inversion getenv fs cfg H) as (data & ms & rest & Hfile & Hp & Hrest & Hst & Hne).
  exists data, ms, rest.
  destruct (storeCfgMembers_ok ms _ _ _ Hst) as (_ & Htyped & Hget).
  repeat (split; [assumption|]). split; [|exact Htyped].
  intros f. destruct (Hget f) as [Heq|Hm]; [|exact Hm].
  exfalso. apply (Hne f). rewrite Heq. destruct f; reflexivity.
Qed.

Lemma loadCfg_reads_members_witness :
  exists data ms rest,
    files (samples.configDisk "my.json") !! cfgPath "my.json" = Some data
    /\ parseValue maxNestingDepth data = Ok (JObject ms, rest)
    /\ skipSpace rest = EmptyString
    /\ (forall f, exists key,
           In (key, JString (cfgGet f samples.cfg)) ms /\ lookupCfgField key = Some f)
    /\ (forall key v f, In (key, v) ms -> lookupCfgField key = Some f ->
                        v = JNull \/ exists s, v = JString s).
Proof.
  apply (loadCfg_reads_members "my.json" (samples.configDisk "my.json") samples.cfg).
  vm_compute. reflexivity.
Defined.

(** *** [main] as a whole *)

Lemma in_map_OpenAI (e : event) (otr : list openai.event) :
  In e (map OpenAI otr) -> exists o, e = OpenAI o /\ In o otr.
Proof.
  intros H. apply in_map_iff in H. destruct H as (o & <- & Hin). eauto.
Qed.



(** What [Post] does when the key is not empty. *)
Lemma Post_with_key (w : openai.World) (key prompt : string) :
  key <> EmptyString ->
  (prompt = EmptyString
   /\ openai.Post w (openai.New key) prompt = ([], inr openai.ErrPromptEmpty))
  \/ (prompt <> EmptyString
      /\ fst (openai.Post w (openai.New key) prompt) = [openai.Request key prompt]
      /\ (forall result,
             snd (openai.Post w (openai.New key) prompt) = inl result ->
             openai.completion w key prompt = Ok result)).
Proof.
  intros Hkey. unfold openai.Post, openai.New. cbn [openai.APIKey].
  rewrite (proj2 (String.eqb_neq key EmptyString) Hkey).
  destruct (String.eqb prompt EmptyString) eqn:Hp.
  - left. apply String.eqb_eq in Hp. auto.
  - right. apply String.eqb_neq in Hp. split; [exact Hp|].
    destruct (openai.completion w key prompt) as [params|e]; cbn [fst snd].
    + split; [reflexivity|]. intros result H. inversion H; subst. reflexivity.
    + split; [reflexivity|]. discriminate.
Qed.

Lemma promptOf_empty (args : list string) :
  (List.length args <= 1)%nat \/ nth_error args 1 = Some EmptyString ->
  promptOf args = EmptyString.
Proof.
  destruct args as [|a [|p args]]; cbn; intros [H|H]; try reflexivity;
    try discriminate; try lia.
  inversion H; reflexivity.
Qed.

(** X16: started without a prompt argument, or with an empty one, the
    program exits with status 1 without having reached outside the
    process: no request to OpenAI or the bridge, no call of the Spotify
    stage, and the file system as it was. *)
Theorem main_without_prompt (m : Machine) (fs : FS) :
  (List.length (Args m) <= 1)%nat \/ nth_error (Args m) 1 = Some EmptyString ->
  outcomeOf (main m fs) = Exit 1
  /\ diskOf (main m fs) = fs
  /\ existsb isOutside (traceOf (main m fs)) = false.
Proof.
  intros Hargs. apply promptOf_empty in Hargs.
  unfold main, outcomeOf, diskOf, traceOf. rewrite Hargs.
  destruct (loadCfg (CONFIG m) fs) as [cfg|e] eqn:Hload; [|repeat split].
  destruct (loadCfg_inversion _ _ _ Hload) as (_ & _ & _ & _ & _ & _ & _ & Hne).
  destruct (Post_with_key (openaiWorld m) (OpenAIKey cfg) EmptyString (Hne FOpenAIKey))
    as [[_ ->]|[Hcontra _]]; [|congruence].
  repeat split.
Qed.

Lemma main_without_prompt_witness :
  outcomeOf (main (samples.machine ["saturday"]) (samples.configDisk "config.json")) = Exit 1
  /\ diskOf (main (samples.machine ["saturday"]) (samples.configDisk "config.json"))
     = samples.configDisk "config.json"
  /\ existsb isOutside
       (traceOf (main (samples.machine ["saturday"]) (samples.configDisk "config.json")))
     = false.
Proof.
  apply (main_without_prompt (samples.machine ["saturday"]) (samples.configDisk "config.json")).
  left. cbn. lia.
Defined.


(** X18: [main] writes no file other than token.json, and a run that
    does not reach the Spotify stage leaves the file system as it was. *)
Theorem main_touches_only_the_token_file (m : Machine) (fs : FS) :
  (forall f, f <> tokenFile -> files (diskOf (main m fs)) !! f = files fs !! f)
  /\ (existsb isSpotify (traceOf (main m fs)) = false -> diskOf (main m fs) = fs).
Proof.
  unfold main, diskOf, traceOf.
  destruct (loadCfg (CONFIG m) fs) as [cfg|e]; [|split; reflexivity].
  destruct (openai.Post (openaiWorld m) (openai.New (OpenAIKey cfg)) (promptOf (Args m)))
    as [otr [result|pe]]; [|split; reflexivity].
  destruct (hue.SetState _ _ _ _ _) as [htr [err|]]; [split; reflexivity|].
  destruct (orchestrator_facts.mainFromSpotify_parts (spotifyStage m) cfg fs result)
    as [Hdisk [rest Htrace]].
  pose proof (orchestrator_facts.acquireSession_frame (spotifyStage m) cfg fs) as Hframe.
  unfold disk, orchestrator.trace in *.
  destruct (mainFromSpotify (spotifyStage m) cfg fs result) as [[str fs'] t].
  cbn [fst snd] in *. subst str. split.
  - intros f Hf. rewrite Hdisk. apply Hframe, Hf.
  - intros H. exfalso.
    assert (Hin : existsb isSpotify
              (map OpenAI otr ++ [Slog "INFO" "Received light state from OpenAI"]
               ++ map Hue htr ++ [Slog "INFO" "Sent light state to Hue bridge"]
               ++ map Spotify (CallLoadToken tokenFile :: rest))%list = true).
    { apply existsb_exists. exists (Spotify (CallLoadToken tokenFile)).
      split; [|reflexivity].
      apply in_or_app. right. cbn [app In]. right.
      apply in_or_app. right. cbn [app map In]. right. left. reflexivity. }
    congruence.
Qed.

End saturday_facts.
